(** * pygff: a shallow embedding of [pygff/core.py]

    The development follows the module top-down: the Python primitives the
    code relies on (exceptions, [str]/[bytes] methods, [int], ordered
    dictionaries, [bisect_right], the pandas expression used for the
    thresholds), then the functions of [core.py] under their own names, and
    finally the properties of the region index and of [GffFile.fetch]. *)

From Stdlib Require Import ZArith List String Ascii Bool Lia Arith Sorted.
Import ListNotations.

Local Open Scope string_scope.
Local Open Scope Z_scope.

(** ** Exceptions and results *)

Module Py.

(** The exceptions the module can raise, by their Python class. *)
Inductive exc : Type :=
| TypeError
| NameError
| ValueError
| IndexError
| KeyError
| AttributeError
| UnicodeDecodeError
| StructError
| OSError
| StopIteration.

(** A computation either returns a value or raises. *)
Inductive result (A : Type) : Type :=
| Ok (a : A)
| Raise (e : exc).
Arguments Ok {A} a.
Arguments Raise {A} e.

Definition bind {A B : Type} (m : result A) (k : A -> result B) : result B :=
  match m with
  | Ok a => k a
  | Raise e => Raise e
  end.

End Py.

Import Py.

Notation "x <- m ;; k" := (Py.bind m (fun x => k))
  (at level 61, m at next level, right associativity).
Notation "' pat <- m ;; k" := (Py.bind m (fun x => match x with pat => k end))
  (at level 61, pat pattern, m at next level, right associativity).

(** ** Characters and strings

    A Python [str] or [bytes] object is a [string]: the sequence of its
    bytes.  The files handled are ASCII ([_get_thresholds] and [__next__]
    decode with the ['ascii'] codec), so characters and bytes coincide and
    [len] is the byte length. *)

Definition chr (n : nat) : ascii := ascii_of_nat n.
Definition TAB : ascii := chr 9.
Definition LF : ascii := chr 10.

Definition tab : string := String TAB "".
Definition nl : string := String LF "".

(** Whitespace.  [str] methods go by [str.isspace]: on ASCII that is TAB,
    LF, VT, FF, CR, the separators 0x1C-0x1F and the space.  [bytes]
    methods go by the six ASCII whitespace bytes only. *)
Definition isspace (c : ascii) : bool :=
  let n := nat_of_ascii c in
  ((9 <=? n)%nat && (n <=? 13)%nat) || ((28 <=? n)%nat && (n <=? 32)%nat).

Definition isspace_bytes (c : ascii) : bool :=
  let n := nat_of_ascii c in
  ((9 <=? n)%nat && (n <=? 13)%nat) || (n =? 32)%nat.

(** [s.lstrip()], [s.rstrip()] and [s.strip()], for the whitespace [ws]. *)
Fixpoint lstrip_with (ws : ascii -> bool) (s : string) : string :=
  match s with
  | String c s' => if ws c then lstrip_with ws s' else s
  | EmptyString => EmptyString
  end.

Fixpoint rstrip_with (ws : ascii -> bool) (s : string) : string :=
  match s with
  | EmptyString => EmptyString
  | String c s' =>
      match rstrip_with ws s' with
      | EmptyString => if ws c then EmptyString else String c EmptyString
      | r => String c r
      end
  end.

Definition strip_with (ws : ascii -> bool) (s : string) : string :=
  rstrip_with ws (lstrip_with ws s).

(** [s.strip()] on a [str]. *)
Definition strip (s : string) : string := strip_with isspace s.

(** [s.startswith('#')]. *)
Definition startswith_hash (s : string) : bool :=
  match s with
  | String c _ => Ascii.eqb c "#"%char
  | EmptyString => false
  end.

(** [s.split(sep)] for a one-character separator: always at least one
    piece, one more than the number of separators. *)
Fixpoint split (sep : ascii) (s : string) : list string :=
  match s with
  | EmptyString => [EmptyString]
  | String c s' =>
      if Ascii.eqb c sep then EmptyString :: split sep s'
      else match split sep s' with
           | p :: ps => String c p :: ps
           | [] => [String c EmptyString]
           end
  end.

(** [s.split()]: the maximal runs of non-whitespace characters. *)
Fixpoint split_ws_aux (ws : ascii -> bool) (s : string) (cur : option string)
  : list string :=
  match s with
  | EmptyString =>
      match cur with Some w => [w] | None => [] end
  | String c s' =>
      if ws c then
        match cur with
        | Some w => w :: split_ws_aux ws s' None
        | None => split_ws_aux ws s' None
        end
      else
        match cur with
        | Some w => split_ws_aux ws s' (Some (w ++ String c EmptyString))
        | None => split_ws_aux ws s' (Some (String c EmptyString))
        end
  end.

Definition split_ws_with (ws : ascii -> bool) (s : string) : list string :=
  split_ws_aux ws s None.

Definition split_ws (s : string) : list string := split_ws_with isspace s.

(** ["\t".join(parts)]. *)
Fixpoint join (sep : string) (parts : list string) : string :=
  match parts with
  | [] => EmptyString
  | [p] => p
  | p :: ps => p ++ sep ++ join sep ps
  end.

(** [int(s)] on a [str] or [bytes] literal: surrounding whitespace, an
    optional sign, decimal digits with single underscores between digits. *)
Definition digit_val (c : ascii) : option Z :=
  let n := nat_of_ascii c in
  if ((48 <=? n)%nat && (n <=? 57)%nat)%bool then Some (Z.of_nat (n - 48))
  else None.

Fixpoint int_digits (s : string) (acc : Z) (after_digit : bool) : option Z :=
  match s with
  | EmptyString => if after_digit then Some acc else None
  | String c s' =>
      match digit_val c with
      | Some d => int_digits s' (10 * acc + d) true
      | None =>
          if (Ascii.eqb c "_"%char && after_digit)%bool
          then int_digits s' acc false
          else None
      end
  end.

Definition int_unsigned (t : string) : result Z :=
  match int_digits t 0 false with
  | Some v => Ok v
  | None => Raise ValueError
  end.

Definition int_with (ws : ascii -> bool) (s : string) : result Z :=
  match strip_with ws s with
  | String "-"%char t => v <- int_unsigned t ;; Ok (- v)
  | String "+"%char t => int_unsigned t
  | t => int_unsigned t
  end.

(** [int(s)] on a [str] of ASCII characters, which CPython parses as it
    is: the whitespace it skips around the number is the six ASCII
    whitespace characters, not the separators 0x1C-0x1F. *)
Definition int (s : string) : result Z := int_with isspace_bytes s.

(** [b.decode('ascii')]: every byte must be below 128. *)
Fixpoint is_ascii (s : string) : bool :=
  match s with
  | EmptyString => true
  | String c s' => (nat_of_ascii c <? 128)%nat && is_ascii s'
  end.

(** A line as a file handle yields it: [str] from a text handle, [bytes]
    from a handle opened with ['rb']. *)
Inductive pyline : Type :=
| Str (s : string)
| Bytes (b : string).

Definition line_text (l : pyline) : string :=
  match l with Str s => s | Bytes b => b end.

(** The whitespace its [strip], [split] and [int] go by. *)
Definition whitespace_of (l : pyline) : ascii -> bool :=
  match l with Str _ => isspace | Bytes _ => isspace_bytes end.

(** [len(line)]. *)
Definition len (l : pyline) : Z := Z.of_nat (String.length (line_text l)).

(** [not line]. *)
Definition is_empty (l : pyline) : bool :=
  match line_text l with EmptyString => true | _ => false end.

(** [line.decode('ascii')]: a [str] has no [decode]. *)
Definition decode_ascii (l : pyline) : result pyline :=
  match l with
  | Str _ => Raise AttributeError
  | Bytes b => if is_ascii b then Ok (Str b) else Raise UnicodeDecodeError
  end.

(** [line.startswith('#')] with a [str] argument: [bytes.startswith]
    rejects a [str] prefix. *)
Definition startswith (l : pyline) : result bool :=
  match l with
  | Str s => Ok (startswith_hash s)
  | Bytes _ => Raise TypeError
  end.

(** [line.strip().split('\t')]; on [bytes] the [str] separator is rejected. *)
Definition strip_split_tab (l : pyline) : result (list string) :=
  match l with
  | Str s => Ok (split TAB (strip s))
  | Bytes _ => Raise TypeError
  end.

(** ** Ordered dictionaries

    [dict] and [OrderedDict] keep their keys in insertion order and the code
    reads that order back ([list(container['start'].values())]), so they are
    association lists without repeated keys. *)

Section OrderedDict.
Context {K V : Type} (keq : K -> K -> bool).

Definition odict : Type := list (K * V).

(** [d.get(k)]. *)
Fixpoint lookup (d : odict) (k : K) : option V :=
  match d with
  | [] => None
  | (k', v) :: d' => if keq k k' then Some v else lookup d' k
  end.

(** [k in d]. *)
Definition contains (d : odict) (k : K) : bool :=
  match lookup d k with Some _ => true | None => false end.

(** [d[k]]. *)
Definition getitem (d : odict) (k : K) : result V :=
  match lookup d k with Some v => Ok v | None => Raise KeyError end.

(** [d[k] = v]: a present key keeps its place, a new one goes last. *)
Fixpoint setitem (d : odict) (k : K) (v : V) : odict :=
  match d with
  | [] => [(k, v)]
  | (k', v') :: d' =>
      if keq k k' then (k', v) :: d' else (k', v') :: setitem d' k v
  end.

(** [d.setdefault(k, v)], as used for its effect on [d]. *)
Definition setdefault (d : odict) (k : K) (v : V) : odict :=
  if contains d k then d else (d ++ [(k, v)])%list.

(** [d.keys()] and [d.values()]. *)
Definition keys (d : odict) : list K := map fst d.
Definition values (d : odict) : list V := map snd d.
End OrderedDict.

Arguments odict K V : clear implicits.

(** ** [OrderedSet]

    The class keeps a hash map beside a doubly linked list threaded through
    a sentinel; [add] links a new key before the sentinel and does nothing
    for a key already in the map, and [__iter__] walks the list from the
    sentinel forwards.  What the module uses of it is the sequence of keys
    in first-insertion order. *)
Module OrderedSet.
Definition t : Type := list Z.

Definition empty : t := [].

Definition mem (key : Z) (s : t) : bool := existsb (Z.eqb key) s.

Definition add (s : t) (key : Z) : t :=
  if mem key s then s else (s ++ [key])%list.

(** [list(s)]. *)
Definition to_list (s : t) : list Z := s.
End OrderedSet.

(** ** [bisect.bisect_right] *)

Fixpoint bisect_loop (fuel : nat) (a : list Z) (x : Z) (lo hi : nat) : nat :=
  match fuel with
  | O => lo
  | S fuel' =>
      if (lo <? hi)%nat then
        let mid := ((lo + hi) / 2)%nat in
        if x <? nth mid a 0 then bisect_loop fuel' a x lo mid
        else bisect_loop fuel' a x (S mid) hi
      else lo
  end.

Definition bisect_right (a : list Z) (x : Z) : nat :=
  bisect_loop (S (List.length a)) a x 0 (List.length a).

(** ** The pandas expression of [_get_average_diffs]

    [pd.Series(xs).diff(periods=n).dropna().mean().astype(int)].  [diff]
    coerces its argument with [int(n)], so a [bool] counts as 0 or 1; entry
    [i] of the result is [xs[i] - xs[i-n]] when [i-n] is a position of the
    series and NaN otherwise.  [dropna] removes the NaN entries.  [mean] of
    what is left is a numpy [float64], whose [astype(int)] truncates towards
    zero; [mean] of nothing is the Python [float] [nan], which has no
    [astype], so the call raises [AttributeError].  pandas computes in
    [float64]; the quotient below is the exact one, which is what [float64]
    gives as long as the sum of the differences stays below 2^53 (always
    so for the differences of period 0, which are all 0). *)

Definition series_diff (xs : list Z) (n : Z) : list (option Z) :=
  map (fun i : nat =>
         let j := Z.of_nat i - n in
         if (0 <=? j) && (j <? Z.of_nat (List.length xs))
         then Some (nth i xs 0 - nth (Z.to_nat j) xs 0)
         else None)
      (seq 0 (List.length xs)).

Fixpoint dropna (ds : list (option Z)) : list Z :=
  match ds with
  | [] => []
  | Some d :: ds' => d :: dropna ds'
  | None :: ds' => dropna ds'
  end.

Definition zsum (ds : list Z) : Z := fold_right Z.add 0 ds.

Definition mean_astype_int (ds : list Z) : result Z :=
  match ds with
  | [] => Raise AttributeError
  | _ => Ok (Z.quot (zsum ds) (Z.of_nat (List.length ds)))
  end.

Definition average_diff (xs : list Z) (periods : Z) : result Z :=
  mean_astype_int (dropna (series_diff xs periods)).

(** ** [urllib.parse.unquote]

    Every [%XX] with two hexadecimal digits becomes the byte [XX]; a [%]
    not followed by two such digits stays.  (Python then decodes the bytes
    as UTF-8, replacing invalid sequences; the strings here are the bytes.) *)

Definition hex_val (c : ascii) : option nat :=
  let n := nat_of_ascii c in
  if ((48 <=? n) && (n <=? 57))%nat then Some (n - 48)%nat
  else if ((65 <=? n) && (n <=? 70))%nat then Some (n - 55)%nat
  else if ((97 <=? n) && (n <=? 102))%nat then Some (n - 87)%nat
  else None.

Fixpoint unquote (s : string) : string :=
  match s with
  | EmptyString => EmptyString
  | String c t =>
      if Ascii.eqb c "%"%char then
        match t with
        | String a (String b rest) =>
            match hex_val a, hex_val b with
            | Some x, Some y => String (chr (16 * x + y)) (unquote rest)
            | _, _ => String c (unquote t)
            end
        | _ => String c (unquote t)
        end
      else String c (unquote t)
  end.

(** ** [_parse_attrs] and [GffEntry] *)

(** [tag, values = attr.split('=')]: exactly two pieces or [ValueError]. *)
Definition unpack_tag_values (attr : string) : result (string * string) :=
  match split "="%char attr with
  | [tag; vals] => Ok (tag, vals)
  | _ => Raise ValueError
  end.

(** [attr_dict.setdefault(tag, []).append(v)]. *)
Definition append_value (d : odict string (list string)) (tag v : string)
  : odict string (list string) :=
  match lookup String.eqb d tag with
  | Some vs => setitem String.eqb d tag (vs ++ [v])%list
  | None => (d ++ [(tag, [v])])%list
  end.

Fixpoint parse_attrs_loop (attrs : list string) (attr_dict : odict string (list string))
  : result (odict string (list string)) :=
  match attrs with
  | [] => Ok attr_dict
  | attr :: attrs' =>
      '(tag, vals) <- unpack_tag_values attr ;;
      parse_attrs_loop attrs'
        (fold_left (fun d val => append_value d tag (unquote val))
                   (split ","%char vals) attr_dict)
  end.

Definition _parse_attrs (attribute_column : string)
  : result (odict string (list string)) :=
  parse_attrs_loop (split ";"%char attribute_column) [].

Record GffEntry : Type := mkGffEntry {
  _features : list string;
  _attrs : string;
  _attributes : odict string (list string)
}.

(** [*self._features, self._attrs = parts]. *)
Fixpoint unpack_star_last (parts : list string) : option (list string * string) :=
  match parts with
  | [] => None
  | [p] => Some ([], p)
  | p :: ps =>
      match unpack_star_last ps with
      | Some (fs, l) => Some (p :: fs, l)
      | None => None
      end
  end.

Module Entry.
(** [GffEntry.__init__]. *)
Definition __init__ (line : string) : result GffEntry :=
  match unpack_star_last (split TAB (strip line)) with
  | None => Raise ValueError
  | Some (features, attrs) =>
      attributes <- _parse_attrs attrs ;;
      Ok (mkGffEntry features attrs attributes)
  end.

Definition feature (e : GffEntry) (i : nat) : result string :=
  match nth_error (_features e) i with
  | Some f => Ok f
  | None => Raise IndexError
  end.

Definition seqid (e : GffEntry) : result string := feature e 0.
Definition source (e : GffEntry) : result string := feature e 1.
Definition type (e : GffEntry) : result string := feature e 2.
Definition start (e : GffEntry) : result Z := f <- feature e 3 ;; int f.
Definition end_ (e : GffEntry) : result Z := f <- feature e 4 ;; int f.
End Entry.

(** ** Files and handles

    A file on disk is either plain text or a gzip member, which starts with
    the bytes 1F 8B 08 and inflates to a text.  A handle carries the text
    it reads ([data]), whether it yields [bytes] (opened with ['rb']) and
    the lines it has not read yet, which stand for its cursor. *)

Inductive disk_file : Type :=
| PlainFile (text : string)
| GzipFile (text : string).

(** The bytes [check.peek] sees at the start of the file. *)
Definition head_bytes (f : disk_file) : list nat :=
  match f with
  | PlainFile text => map nat_of_ascii (list_ascii_of_string text)
  | GzipFile _ => [31; 139; 8]%nat
  end.

(** Iterating a handle splits after each LF; the last line may lack one.
    (Lines end in LF alone, so that the newline translation of a text
    handle leaves them as they are.) *)
Fixpoint lines_of (s : string) : list string :=
  match s with
  | EmptyString => []
  | String c s' =>
      if Ascii.eqb c LF then String c EmptyString :: lines_of s'
      else match lines_of s' with
           | l :: ls => String c l :: ls
           | [] => [String c EmptyString]
           end
  end.

Fixpoint skip_chars (n : nat) (s : string) : string :=
  match n, s with
  | O, _ => s
  | S n', String _ s' => skip_chars n' s'
  | S _, EmptyString => EmptyString
  end.

Record handle : Type := mkHandle {
  data : string;
  binary : bool;
  unread : list string
}.

Definition as_line (binary : bool) (s : string) : pyline :=
  if binary then Bytes s else Str s.

(** A text of ASCII characters whose lines end in LF alone.  A handle in
    text mode decodes the bytes of its file and translates CR LF and CR to
    LF; on such a text both leave the bytes as they are, so a number of
    characters read is an offset in bytes. *)
Definition unix_ascii (text : string) : bool :=
  forallb (fun c => (nat_of_ascii c <? 128)%nat && negb (Ascii.eqb c (chr 13)))
          (list_ascii_of_string text).

(** [handle.seek(offset)]: the cursor goes to the byte at [offset], and
    the handle reads on from there.  The model takes the characters of
    [data] for the bytes of the file, which they are on a [unix_ascii]
    text; what the code does with an offset that it counted in characters
    ([len(line)]) on another text is outside it. *)
Definition seek (h : handle) (offset : Z) : handle :=
  mkHandle (data h) (binary h) (lines_of (skip_chars (Z.to_nat offset) (data h))).

(** [handle.readline()]: the next line, or the empty string at the end. *)
Definition readline (h : handle) : pyline * handle :=
  match unread h with
  | [] => (as_line (binary h) EmptyString, h)
  | l :: ls => (as_line (binary h) l, mkHandle (data h) (binary h) ls)
  end.

(** [open(filename, 'r')].  A gzip member is not text: the first read of
    such a handle fails to decode, and every open in this module is
    followed by a read, so the failure is raised here. *)
Definition open_text (filename : disk_file) : result handle :=
  match filename with
  | PlainFile text => Ok (mkHandle text false (lines_of text))
  | GzipFile _ => Raise UnicodeDecodeError
  end.

(** [gzip.open(filename, 'rb')]; a file that is no gzip member fails at
    its first read, raised here for the same reason. *)
Definition gzip_open (filename : disk_file) : result handle :=
  match filename with
  | GzipFile text => Ok (mkHandle text true (lines_of text))
  | PlainFile _ => Raise OSError
  end.

(** ** [_is_version_3] and [_is_zipped] *)

Definition _true_header : list nat := [31; 139; 8]%nat.

Definition _is_version_3 (filename : disk_file) (gzipped : bool) : result bool :=
  gff <- (if gzipped then gzip_open filename else open_text filename) ;;
  let (line, _) := readline gff in
  let ws := whitespace_of line in
  match nth_error (split_ws_with ws (strip_with ws (line_text line))) 1 with
  | None => Raise IndexError
  | Some token => version <- int_with ws token ;; Ok (version =? 3)
  end.

Definition _is_zipped (filename : disk_file) : result bool :=
  match firstn 3 (head_bytes filename) with
  | [a; b; c] =>
      Ok (if list_eq_dec Nat.eq_dec [a; b; c] _true_header then true else false)
  | _ => Raise StructError
  end.

Definition gff_line (columns : list string) : string := join tab columns ++ nl.

(** ** The threshold pass: [_get_average_diffs] and [_get_thresholds] *)

(** The [for seqid in seqid_starts] loop: the first seqid whose expression
    raises ends it. *)
Fixpoint average_diffs_loop (seqid_starts : odict string OrderedSet.t)
         (periods : Z) (seqids : list string) (thresholds : odict string Z)
  : result (odict string Z) :=
  match seqids with
  | [] => Ok thresholds
  | seqid :: seqids' =>
      match lookup String.eqb seqid_starts seqid with
      | Some starts =>
          let unqiq_starts := OrderedSet.to_list starts in
          t <- average_diff unqiq_starts periods ;;
          average_diffs_loop seqid_starts periods seqids'
            (setitem String.eqb thresholds seqid t)
      | None => average_diffs_loop seqid_starts periods seqids' thresholds
      end
  end.

Definition _get_average_diffs (seqid_starts : odict string OrderedSet.t)
           (periods : Z) : result (odict string Z) :=
  average_diffs_loop seqid_starts periods (keys seqid_starts) [].

(** [diffs.setdefault(seqid, OrderedSet()).add(start)]. *)
Definition add_start (diffs : odict string OrderedSet.t) (seqid : string)
           (start : Z) : odict string OrderedSet.t :=
  let diffs' := setdefault String.eqb diffs seqid OrderedSet.empty in
  match lookup String.eqb diffs' seqid with
  | Some s => setitem String.eqb diffs' seqid (OrderedSet.add s start)
  | None => diffs'
  end.

(** The body of [for line in handle] in [_get_thresholds]. *)
Fixpoint get_thresholds_loop (lines : list pyline) (gzipped : bool)
         (diffs : odict string OrderedSet.t)
  : result (odict string OrderedSet.t) :=
  match lines with
  | [] => Ok diffs
  | line :: lines' =>
      line <- (if gzipped then decode_ascii line else Ok line) ;;
      skip <- (if is_empty line then Ok true else startswith line) ;;
      if (skip : bool) then get_thresholds_loop lines' gzipped diffs
      else
        parts <- strip_split_tab line ;;
        match parts with
        | seqid :: source :: type :: start :: others =>
            start <- int start ;;
            get_thresholds_loop lines' gzipped (add_start diffs seqid start)
        | _ => Raise ValueError
        end
  end.

Definition handle_lines (h : handle) : list pyline :=
  map (as_line (binary h)) (unread h).

Definition _get_thresholds (h : handle) (periods : Z) (gzipped : bool)
  : result (odict string Z * handle) :=
  let h := seek h 0 in
  diffs <- get_thresholds_loop (handle_lines h) gzipped [] ;;
  let h := seek h 0 in
  thresholds <- _get_average_diffs diffs periods ;;
  Ok (thresholds, h).

(** ** The index pass: [_gen_index] *)

(** [{'start': OrderedDict(), 'pos': OrderedDict()}]. *)
Record container : Type := mkContainer {
  c_start : odict Z Z;
  c_pos : odict Z Z
}.

Definition index_t : Type := odict string container.

(** The local variables of [_gen_index]. *)
Record gen_state : Type := mkGen {
  index : index_t;
  curr_pos : Z;
  curr_idx : Z;
  curr_threshold : option Z;
  prev_start : option Z
}.

Definition gen_init : gen_state := mkGen [] 0 0 None None.

(** [prev_start is None or (start - prev_start) > curr_threshold]; a
    comparison with a threshold that is still [None] is a [TypeError]. *)
Definition emits (st : gen_state) (start : Z) : result bool :=
  match prev_start st with
  | None => Ok true
  | Some p =>
      match curr_threshold st with
      | Some t => Ok (t <? start - p)
      | None => Raise TypeError
      end
  end.

(** The three [setdefault] calls of the emitting branch. *)
Definition emit_entry (idx : index_t) (seqid : string) (i start pos : Z)
  : index_t :=
  let idx' := setdefault String.eqb idx seqid (mkContainer [] []) in
  match lookup String.eqb idx' seqid with
  | Some c =>
      setitem String.eqb idx' seqid
        (mkContainer (setdefault Z.eqb (c_start c) i start)
                     (setdefault Z.eqb (c_pos c) i pos))
  | None => idx'
  end.

Definition item (parts : list string) (i : nat) : result string :=
  match nth_error parts i with
  | Some p => Ok p
  | None => Raise IndexError
  end.

(** One iteration of [for line in handle] in [_gen_index]. *)
Definition gen_index_step (thresholds : odict string Z) (gzipped : bool)
           (st : gen_state) (line : pyline) : result gen_state :=
  line <- (if gzipped then decode_ascii line else Ok line) ;;
  hash <- startswith line ;;
  if (hash : bool) || is_empty line then
    Ok (mkGen (index st) (curr_pos st + len line) (curr_idx st)
              (curr_threshold st) (prev_start st))
  else
    f_line <- strip_split_tab line ;;
    seqid <- item f_line 0 ;;
    start <- (f <- item f_line 3 ;; int f) ;;
    st <- (if contains String.eqb (index st) seqid then Ok st
           else
             t <- getitem String.eqb thresholds seqid ;;
             Ok (mkGen (index st) (curr_pos st) 0 (Some t) None)) ;;
    e <- emits st start ;;
    if (e : bool) then
      Ok (mkGen (emit_entry (index st) seqid (curr_idx st) start (curr_pos st))
                (curr_pos st + len line) (curr_idx st + 1)
                (curr_threshold st) (Some start))
    else
      Ok (mkGen (index st) (curr_pos st + len line) (curr_idx st)
                (curr_threshold st) (prev_start st)).

Fixpoint gen_index_loop (thresholds : odict string Z) (gzipped : bool)
         (lines : list pyline) (st : gen_state) : result gen_state :=
  match lines with
  | [] => Ok st
  | line :: lines' =>
      st' <- gen_index_step thresholds gzipped st line ;;
      gen_index_loop thresholds gzipped lines' st'
  end.

(** The handle after [for line in handle] ran to its end. *)
Definition exhausted (h : handle) : handle :=
  mkHandle (data h) (binary h) [].

Definition _gen_index (fileobject : handle) (periods : Z) (gzipped : bool)
  : result (index_t * handle) :=
  let h := fileobject in
  '(thresholds, h) <- _get_thresholds h periods gzipped ;;
  st <- gen_index_loop thresholds gzipped (handle_lines h) gen_init ;;
  Ok (index st, exhausted h).

(** ** [_find_le] *)

Definition _find_le (c : container) (start : Z) : result Z :=
  let i := bisect_right (values (c_start c)) start in
  match i with
  | O => Raise ValueError
  | S _ => getitem Z.eqb (c_pos c) (Z.of_nat i - 1)
  end.

(** ** [GffFile] *)

Record GffFile : Type := mkGffFile {
  _handle : handle;
  _index : index_t
}.

(** What [next(self)] evaluates to. *)
Inductive next_value : Type :=
| PyNone
| AnEntry (e : GffEntry).

(** How a run of the [fetch] generator ends: its body returns (the
    consumer sees [StopIteration]) or an exception escapes it. *)
Inductive gen_end : Type :=
| Stopped
| Raised (e : exc).

Module GffFile.

(** [__init__].  The call [_gen_index(self._handle, gzipped)] binds
    [gzipped] to the parameter [periods] and leaves the parameter
    [gzipped] of [_gen_index] at its default [False]; [period] is not
    used.  The message of the [raise] formats the name [version], which
    is bound neither in [__init__] nor in the module, so evaluating the
    argument raises [NameError] before [TypeError] is constructed. *)
Definition __init__ (filename : disk_file) (period : Z) : result GffFile :=
  zipped <- _is_zipped filename ;;
  h <- (if (zipped : bool) then gzip_open filename else open_text filename) ;;
  let gzipped := zipped in
  v3 <- _is_version_3 filename gzipped ;;
  if negb v3 then Raise NameError
  else
    '(idx, h) <- _gen_index h (Z.b2z gzipped) false ;;
    Ok (mkGffFile h idx).

(** [__next__]: the [for] loop over the handle; when the handle has no
    line left the loop ends and the method returns [None].  The second
    component is what the handle has left to read. *)
Fixpoint next_loop (binary : bool) (lines : list string)
  : result next_value * list string :=
  match lines with
  | [] => (Ok PyNone, [])
  | l :: lines' =>
      let line := as_line binary l in
      match (match line with Bytes _ => decode_ascii line | Str _ => Ok line end) with
      | Raise e => (Raise e, lines')
      | Ok line =>
          match startswith line with
          | Raise e => (Raise e, lines')
          | Ok true => next_loop binary lines'
          | Ok false =>
              (e <- Entry.__init__ (line_text line) ;; Ok (AnEntry e), lines')
          end
      end
  end.

Definition __next__ (self : GffFile) : result next_value * GffFile :=
  let h := _handle self in
  let (r, rest) := next_loop (binary h) (unread h) in
  (r, mkGffFile (mkHandle (data h) (binary h) rest) (_index self)).

(** What one pass through the body of [while True] does after
    [entry = next(self)]. *)
Inductive action : Type :=
| Continue
| Break
| Yield (e : GffEntry).

Definition fetch_body (v : next_value) (seqid : string) (start end_ : Z)
           (type : option string) : result action :=
  match v with
  | PyNone => Raise AttributeError
  | AnEntry entry =>
      s <- Entry.seqid entry ;;
      if String.eqb s seqid then
        e <- Entry.end_ entry ;;
        if e <? start then Ok Continue
        else
          b <- Entry.start entry ;;
          if end_ <=? b then Ok Break
          else
            match type with
            | Some ty =>
                t <- Entry.type entry ;;
                if negb (String.eqb t ty) then Ok Continue
                else Ok (Yield entry)
            | None => Ok (Yield entry)
            end
      else
        s <- Entry.seqid entry ;;
        if String.ltb s seqid then Ok Continue else Ok Break
  end.

(** The [while True] loop of [fetch]; [None] when [fuel] runs out. *)
Fixpoint fetch_loop (fuel : nat) (self : GffFile) (seqid : string)
         (start end_ : Z) (type : option string)
  : option (list GffEntry * gen_end * GffFile) :=
  match fuel with
  | O => None
  | S fuel' =>
      let (r, self) := __next__ self in
      match r with
      | Raise e => Some ([], Raised e, self)
      | Ok v =>
          match fetch_body v seqid start end_ type with
          | Raise e => Some ([], Raised e, self)
          | Ok Break => Some ([], Stopped, self)
          | Ok Continue => fetch_loop fuel' self seqid start end_ type
          | Ok (Yield entry) =>
              match fetch_loop fuel' self seqid start end_ type with
              | Some (ys, fin, self') => Some (entry :: ys, fin, self')
              | None => None
              end
          end
      end
  end.

(** [fetch], run until the generator ends: the entries it yields in
    order, how it ends and the session it leaves.  Every pass through
    the loop reads at least one line or ends the run, so one unit of
    fuel per unread line and one more suffice. *)
Definition fetch (self : GffFile) (seqid : string) (start end_ : Z)
           (type : option string)
  : option (list GffEntry * gen_end * GffFile) :=
  match getitem String.eqb (_index self) seqid with
  | Raise e => Some ([], Raised e, self)
  | Ok c =>
      match _find_le c start with
      | Raise e => Some ([], Raised e, self)
      | Ok start_offset =>
          let self := mkGffFile (seek (_handle self) start_offset) (_index self) in
          fetch_loop (S (List.length (unread (_handle self))))
                     self seqid start end_ type
      end
  end.

End GffFile.

(** ** A sample file *)

Definition record (seqid type start end_ attrs : string) : string :=
  gff_line [seqid; "."; type; start; end_; "."; "+"; "."; attrs].

Definition version3 : string := "##gff-version 3" ++ nl.

Definition three_records : string :=
  version3
  ++ record "chr1" "gene" "100" "200" "ID=a"
  ++ record "chr1" "gene" "300" "400" "ID=b"
  ++ record "chr1" "gene" "500" "600" "ID=c".

Definition version2_file : string :=
  "##gff-version 2" ++ nl ++ record "chr1" "gene" "100" "200" "ID=a".

Definition no_directive_file : string :=
  record "chr1" "gene" "100" "200" "ID=a".

(** chr1 at starts 10, 20, 30, 1000 and chr2 at start 5. *)
Definition two_sequences : string :=
  version3
  ++ record "chr1" "gene" "10" "15" "ID=a"
  ++ record "chr1" "gene" "20" "25" "ID=b"
  ++ record "chr1" "gene" "30" "35" "ID=c"
  ++ record "chr1" "gene" "1000" "1005" "ID=d"
  ++ record "chr2" "gene" "5" "8" "ID=e".

(** chr1 at starts 10, 20, 30, 1000 alone. *)
Definition one_sequence : string :=
  version3
  ++ record "chr1" "gene" "10" "15" "ID=a"
  ++ record "chr1" "gene" "20" "25" "ID=b"
  ++ record "chr1" "gene" "30" "35" "ID=c"
  ++ record "chr1" "gene" "1000" "1005" "ID=d".

(** A blank line between the directive and the first record. *)
Definition blank_line_file : string :=
  version3 ++ nl ++ record "chr1" "gene" "100" "200" "ID=a".

(** A gene from 100 to 1000 with an exon from 500 to 600 inside it. *)
Definition nested_records : string :=
  version3
  ++ record "chr1" "gene" "100" "1000" "ID=g"
  ++ record "chr1" "exon" "500" "600" "ID=x"
  ++ record "chr1" "gene" "800" "900" "ID=h".

(** chr1, chr2 and chr1 again. *)
Definition interleaved_lines : list pyline :=
  [Str version3;
   Str (record "chr1" "gene" "10" "15" "ID=a");
   Str (record "chr1" "gene" "20" "25" "ID=b");
   Str (record "chr2" "gene" "5" "8" "ID=c")].

Definition interleaved_last : pyline :=
  Str (record "chr1" "gene" "30" "35" "ID=d").

Definition interleaved_file : string :=
  version3
  ++ record "chr1" "gene" "10" "15" "ID=a"
  ++ record "chr1" "gene" "20" "25" "ID=b"
  ++ record "chr2" "gene" "5" "8" "ID=c"
  ++ record "chr1" "gene" "30" "35" "ID=d".

Definition text_handle (text : string) : handle :=
  mkHandle text false (lines_of text).

(** [n] successive calls of [next] on a session, as a [for] loop over the
    session makes them: the loop ends only when a call raises
    [StopIteration]. *)
Fixpoint next_n (n : nat) (self : GffFile) : list (result next_value) :=
  match n with
  | O => []
  | S n' =>
      let (r, self') := GffFile.__next__ self in
      r :: next_n n' self'
  end.

(** A session whose handle has been read to its end. *)
Definition at_end (text : string) (binary : bool) (idx : index_t) : GffFile :=
  mkGffFile (mkHandle text binary []) idx.

(** ** Views of the two passes used in the proofs *)

(** What [_get_thresholds] reads in a line: nothing for a skipped line,
    the seqid and the start for a record. *)
Definition threshold_fields (gzipped : bool) (line : pyline)
  : result (option (string * Z)) :=
  line <- (if gzipped then decode_ascii line else Ok line) ;;
  skip <- (if is_empty line then Ok true else startswith line) ;;
  if (skip : bool) then Ok None
  else
    parts <- strip_split_tab line ;;
    match parts with
    | seqid :: source :: type :: start :: others =>
        start <- int start ;; Ok (Some (seqid, start))
    | _ => Raise ValueError
    end.

(** What [_gen_index] reads in a line. *)
Definition index_fields (gzipped : bool) (line : pyline)
  : result (option (string * Z)) :=
  line <- (if gzipped then decode_ascii line else Ok line) ;;
  hash <- startswith line ;;
  if (hash : bool) || is_empty line then Ok None
  else
    f_line <- strip_split_tab line ;;
    seqid <- item f_line 0 ;;
    start <- (f <- item f_line 3 ;; int f) ;;
    Ok (Some (seqid, start)).

(** What [_gen_index] does with a record once its fields are read. *)
Definition record_step (thresholds : odict string Z) (st : gen_state)
           (seqid : string) (start : Z) (n : Z) : result gen_state :=
  st <- (if contains String.eqb (index st) seqid then Ok st
         else
           t <- getitem String.eqb thresholds seqid ;;
           Ok (mkGen (index st) (curr_pos st) 0 (Some t) None)) ;;
  e <- emits st start ;;
  if (e : bool) then
    Ok (mkGen (emit_entry (index st) seqid (curr_idx st) start (curr_pos st))
              (curr_pos st + n) (curr_idx st + 1)
              (curr_threshold st) (Some start))
  else
    Ok (mkGen (index st) (curr_pos st + n) (curr_idx st)
              (curr_threshold st) (prev_start st)).

Definition skip_step (st : gen_state) (n : Z) : gen_state :=
  mkGen (index st) (curr_pos st + n) (curr_idx st)
        (curr_threshold st) (prev_start st).

(** The total length of some lines: the offset of what follows them. *)
Definition total_len (lines : list pyline) : Z :=
  fold_right (fun l acc => len l + acc) 0 lines.

(** The records of some lines, in order, as the index pass reads them. *)
Fixpoint records_of (gzipped : bool) (lines : list pyline) : list (string * Z) :=
  match lines with
  | [] => []
  | l :: ls =>
      match index_fields gzipped l with
      | Ok (Some r) => r :: records_of gzipped ls
      | _ => records_of gzipped ls
      end
  end.

(** ** Files the index is designed for

    The records of a seqid are contiguous when every record either carries
    the seqid of the record before it or a seqid not met so far; they are
    sorted when no record starts before an earlier record of its seqid.
    [seen] lists what came before, latest first. *)

Definition follows (seen : list string) (s : string) : bool :=
  match seen with
  | prev :: _ => String.eqb s prev
  | [] => false
  end
  || negb (existsb (String.eqb s) seen).

Fixpoint contiguous_from (seen : list string) (ids : list string) : bool :=
  match ids with
  | [] => true
  | s :: ids' => follows seen s && contiguous_from (s :: seen) ids'
  end.

Fixpoint sorted_from (seen : list (string * Z)) (recs : list (string * Z)) : bool :=
  match recs with
  | [] => true
  | (s, b) :: recs' =>
      forallb (fun r => negb (String.eqb (fst r) s) || (snd r <=? b)) seen
      && sorted_from ((s, b) :: seen) recs'
  end.

Definition contiguous (recs : list (string * Z)) : bool :=
  contiguous_from [] (map fst recs).

Definition sorted_by_start (recs : list (string * Z)) : bool :=
  sorted_from [] recs.

(** The local indices 0, 1, 2, ... over some values, as the index pass
    numbers them. *)
Fixpoint enum_from (k : Z) (vs : list Z) : odict Z Z :=
  match vs with
  | [] => []
  | v :: vs' => (k, v) :: enum_from (k + 1) vs'
  end.

(** ** The index of a file with contiguous records *)

(** The container holding the entries [es], each a start and an offset,
    under the local indices 0, 1, 2, ... *)
Definition container_of (es : list (Z * Z)) : container :=
  mkContainer (enum_from 0 (map fst es)) (enum_from 0 (map snd es)).

(** Among [lines] there is a record of [s] starting at [b], and the lines
    before it are [p] bytes long. *)
Definition entry_at (gzipped : bool) (lines : list pyline) (s : string)
           (b p : Z) : Prop :=
  exists pre line post,
    lines = (pre ++ line :: post)%list
    /\ index_fields gzipped line = Ok (Some (s, b))
    /\ total_len pre = p.

(** The same, for the first record of [s] among [lines]. *)
Definition first_entry_at (gzipped : bool) (lines : list pyline) (s : string)
           (b p : Z) : Prop :=
  exists pre line post,
    lines = (pre ++ line :: post)%list
    /\ index_fields gzipped line = Ok (Some (s, b))
    /\ total_len pre = p
    /\ ~ In s (map fst (records_of gzipped pre)).

(** Two successive indexed starts lie more than the threshold apart. *)
Definition gap (t a b : Z) : Prop := t < b - a.

(** What holds of the entries [es] indexed for [s] once [lines] are read. *)
Definition block_inv (gzipped : bool) (thresholds : odict string Z)
           (lines : list pyline) (s : string) (es : list (Z * Z)) : Prop :=
  es <> []
  /\ Forall (fun e => entry_at gzipped lines s (fst e) (snd e)) es
  /\ (forall e es', es = e :: es' ->
                    first_entry_at gzipped lines s (fst e) (snd e))
  /\ StronglySorted Z.lt (map snd es)
  /\ exists t, lookup String.eqb thresholds s = Some t
               /\ Sorted (gap t) (map fst es).

(** The state of [_gen_index] after [lines], when the records of each
    seqid are contiguous. *)
Definition index_inv (gzipped : bool) (thresholds : odict string Z)
           (lines : list pyline) (st : gen_state) : Prop :=
  curr_pos st = total_len lines
  /\ (forall s, contains String.eqb (index st) s
                = existsb (String.eqb s) (map fst (records_of gzipped lines)))
  /\ (forall s c, lookup String.eqb (index st) s = Some c ->
                  exists es, c = container_of es
                             /\ block_inv gzipped thresholds lines s es)
  /\ match rev (map fst (records_of gzipped lines)) with
     | [] => index st = [] /\ prev_start st = None
     | cur :: _ =>
         exists es t,
           lookup String.eqb (index st) cur = Some (container_of es)
           /\ curr_idx st = Z.of_nat (List.length es)
           /\ prev_start st = Some (last (map fst es) 0)
           /\ curr_threshold st = Some t
           /\ lookup String.eqb thresholds cur = Some t
     end.

(** The number of entries of an index. *)
Definition index_size (idx : index_t) : nat :=
  list_sum (map (fun sc => List.length (c_start (snd sc))) idx).

(** The rule by which a record line, read after the lines [pre], gets an
    index entry: it is the first record of its seqid, or its start exceeds
    the start indexed last by more than the threshold of its seqid.  A
    record that gets no entry leaves the index as it is, and every record
    advances the offset by its length. *)
Definition emission_rule (gzipped : bool) (thresholds : odict string Z)
           (pre : list pyline) (line : pyline) : Prop :=
  forall st st' s b,
    gen_index_loop thresholds gzipped pre gen_init = Ok st ->
    gen_index_step thresholds gzipped st line = Ok st' ->
    index_fields gzipped line = Ok (Some (s, b)) ->
    (index_size (index st') = S (index_size (index st))
     <-> (~ In s (map fst (records_of gzipped pre))
          \/ exists p t, prev_start st = Some p
                         /\ lookup String.eqb thresholds s = Some t
                         /\ t < b - p))
    /\ (index_size (index st') <> S (index_size (index st)) ->
        index st' = index st)
    /\ curr_pos st' = curr_pos st + len line.

(** The keys of [d] are the local indices 0, 1, 2, ... in order. *)
Definition numbered (d : odict Z Z) : Prop :=
  keys d = map Z.of_nat (seq 0 (List.length d)).

(** The values of [d] grow strictly with their keys. *)
Definition increasing (d : odict Z Z) : Prop :=
  forall i j a b,
    i < j -> lookup Z.eqb d i = Some a -> lookup Z.eqb d j = Some b -> a < b.

(** The text a handle on the file reads. *)
Definition file_text (f : disk_file) : string :=
  match f with PlainFile text => text | GzipFile text => text end.

(** The lines of a text handle on [text]. *)
Definition text_lines (text : string) : list pyline := map Str (lines_of text).

(** ** What [fetch] is expected to yield *)

Definition is_ok {A : Type} (r : result A) : bool :=
  match r with Ok _ => true | Raise _ => false end.

(** The entry is on [seqid], its interval meets the region ([end_rec >=
    start] and [start_rec < end]) and its type is the one asked for, if
    any. *)
Definition matches (seqid : string) (start end_ : Z) (type : option string)
           (e : GffEntry) : bool :=
  match Entry.seqid e, Entry.start e, Entry.end_ e with
  | Ok s, Ok b, Ok n =>
      String.eqb s seqid && (start <=? n) && (b <? end_)
      && match type with
         | None => true
         | Some ty =>
             match Entry.type e with
             | Ok t => String.eqb t ty
             | Raise _ => false
             end
         end
  | _, _, _ => false
  end.

(** The records of some lines of a text handle, decoded, in order. *)
Fixpoint entries_of (lines : list string) : list GffEntry :=
  match lines with
  | [] => []
  | l :: ls =>
      if startswith_hash l then entries_of ls
      else match Entry.__init__ l with
           | Ok e => e :: entries_of ls
           | Raise _ => entries_of ls
           end
  end.

(** A line that is a comment, or decodes to an entry whose seqid, type,
    start and end can be read. *)
Definition well_formed_line (l : string) : bool :=
  startswith_hash l
  || match Entry.__init__ l with
     | Ok e =>
         is_ok (Entry.seqid e) && is_ok (Entry.type e)
         && is_ok (Entry.start e) && is_ok (Entry.end_ e)
     | Raise _ => false
     end.

(** The [while True] loop of [fetch] over the unread lines of a text
    handle, by recursion on the lines: what it yields, how it ends and the
    lines it leaves. *)
Fixpoint fetch_scan (lines : list string) (seqid : string) (start end_ : Z)
         (type : option string) : list GffEntry * gen_end * list string :=
  match lines with
  | [] => ([], Raised AttributeError, [])
  | l :: rest =>
      if startswith_hash l then fetch_scan rest seqid start end_ type
      else
        match Entry.__init__ l with
        | Raise e => ([], Raised e, rest)
        | Ok entry =>
            match GffFile.fetch_body (AnEntry entry) seqid start end_ type with
            | Raise e => ([], Raised e, rest)
            | Ok GffFile.Break => ([], Stopped, rest)
            | Ok GffFile.Continue => fetch_scan rest seqid start end_ type
            | Ok (GffFile.Yield y) =>
                let '(ys, fin, remaining) := fetch_scan rest seqid start end_ type in
                (y :: ys, fin, remaining)
            end
        end
  end.

(** The bytes of some lines. *)
Definition bytes_of (lines : list string) : Z :=
  total_len (map Str lines).

(** A session on the same file with the same index, wherever its cursor. *)
Definition same_file (g self : GffFile) : Prop :=
  data (_handle self) = data (_handle g)
  /\ binary (_handle self) = binary (_handle g)
  /\ _index self = _index g.

(** The records of some lines of a text handle. *)
Definition line_records (lines : list string) : list (string * Z) :=
  records_of false (map Str lines).

(** * The rest of the module *)

(** ** The other methods of [GffEntry] *)

(** What the property [phase] returns: the string ['.'] or an [int]. *)
Inductive phase_value : Type :=
| NoPhase
| Phase (p : Z).

Module EntryMethods.

(** [__len__]: [self.end - self.start]. *)
Definition __len__ (self : GffEntry) : result Z :=
  e <- Entry.end_ self ;;
  s <- Entry.start self ;;
  Ok (e - s).

(** [__str__]. *)
Definition __str__ (self : GffEntry) : string :=
  join tab (_features self ++ [_attrs self])%list.

(** [__eq__]: the nested tests on seqid, type, start and end. *)
Definition __eq__ (self other : GffEntry) : result bool :=
  a <- Entry.seqid self ;;
  b <- Entry.seqid other ;;
  if String.eqb a b then
    a <- Entry.type self ;;
    b <- Entry.type other ;;
    if String.eqb a b then
      a <- Entry.start self ;;
      b <- Entry.start other ;;
      if a =? b then
        a <- Entry.end_ self ;;
        b <- Entry.end_ other ;;
        if a =? b then Ok true else Ok false
      else Ok false
    else Ok false
  else Ok false.

(** [__lt__]. *)
Definition __lt__ (self other : GffEntry) : result bool :=
  a <- Entry.seqid self ;;
  b <- Entry.seqid other ;;
  if String.leb a b then
    a <- Entry.start self ;;
    b <- Entry.start other ;;
    if a <? b then Ok true else Ok false
  else Ok false.

(** [self != other]: the default [__ne__] inverts [__eq__]. *)
Definition __ne__ (self other : GffEntry) : result bool :=
  r <- __eq__ self other ;; Ok (negb r).

(** The three comparisons [functools.total_ordering] derives from
    [__lt__]: [not a < b and a != b], [a < b or a == b] and [not a < b]. *)
Definition __gt__ (self other : GffEntry) : result bool :=
  op_result <- __lt__ self other ;;
  if negb op_result then __ne__ self other else Ok false.

Definition __le__ (self other : GffEntry) : result bool :=
  op_result <- __lt__ self other ;;
  if (op_result : bool) then Ok true else __eq__ self other.

Definition __ge__ (self other : GffEntry) : result bool :=
  op_result <- __lt__ self other ;;
  Ok (negb op_result).

Definition strand (self : GffEntry) : result string := Entry.feature self 6.

(** [phase]. *)
Definition phase (self : GffEntry) : result phase_value :=
  p <- Entry.feature self 7 ;;
  if String.eqb p "." then Ok NoPhase
  else v <- int p ;; Ok (Phase v).

Definition attributes (self : GffEntry) : odict string (list string) :=
  _attributes self.

(** [has_tag] and [get_tag]. *)
Definition has_tag (self : GffEntry) (tag : string) : bool :=
  contains String.eqb (_attributes self) tag.

Definition get_tag (self : GffEntry) (tag : string) : result (list string) :=
  getitem String.eqb (_attributes self) tag.

End EntryMethods.

(** ** What [_parse_attrs] reads in an attribute column *)

(** The pieces between [';'], each split at ['='] into a tag and its
    values, when every piece has exactly one ['=']. *)
Fixpoint tagged_values (pieces : list string) : option (list (string * list string)) :=
  match pieces with
  | [] => Some []
  | attr :: pieces' =>
      match split "="%char attr, tagged_values pieces' with
      | [tag; vals], Some rest =>
          Some ((tag, map unquote (split ","%char vals)) :: rest)
      | _, _ => None
      end
  end.

(** The values given to [tag], over all the pieces, in order. *)
Definition values_of (tag : string) (tvs : list (string * list string))
  : list string :=
  flat_map (fun tv => if String.eqb (fst tv) tag then snd tv else []) tvs.

(** Two entries on chr1 starting at 100, one ending at 200 and one at 300. *)
Definition short_gene : GffEntry :=
  mkGffEntry ["chr1"; "."; "gene"; "100"; "200"; "."; "+"; "."] "ID=a"
             [("ID", ["a"])].

Definition long_gene : GffEntry :=
  mkGffEntry ["chr1"; "."; "gene"; "100"; "300"; "."; "+"; "."] "ID=b"
             [("ID", ["b"])].

Definition late_gene : GffEntry :=
  mkGffEntry ["chr1"; "."; "gene"; "500"; "600"; "."; "+"; "."] "ID=c"
             [("ID", ["c"])].

(** The values of a tag after more values arrive. *)
Definition more_values (old : option (list string)) (new : list string)
  : option (list string) :=
  match old, new with
  | Some vs, _ => Some (vs ++ new)%list
  | None, [] => None
  | None, _ => Some new
  end.

(** ** Runs of [fetch] *)

(** What a run of [fetch] shows to its consumer: the entries it yields
    and how it ends. *)
Definition outcome (run : option (list GffEntry * gen_end * GffFile))
  : option (list GffEntry * gen_end) :=
  match run with
  | Some (ys, fin, _) => Some (ys, fin)
  | None => None
  end.

(** Every record is on [seqid] and starts before [end_], or is on a seqid
    that sorts before [seqid]: nothing makes the loop of [fetch] break. *)
Definition never_breaks (seqid : string) (end_ : Z) (recs : list (string * Z))
  : bool :=
  forallb (fun r => (String.eqb (fst r) seqid && (snd r <? end_))
                    || String.ltb (fst r) seqid) recs.

(** The session after [self._handle.seek(offset)]. *)
Definition seek_session (self : GffFile) (offset : Z) : GffFile :=
  mkGffFile (seek (_handle self) offset) (_index self).

(** ** What the threshold pass collects *)

(** The elements of [xs], each once, in the order of their first
    occurrence. *)
Fixpoint first_seen {A : Type} (eqb : A -> A -> bool) (xs : list A) : list A :=
  match xs with
  | [] => []
  | x :: xs' => x :: filter (fun y => negb (eqb y x)) (first_seen eqb xs')
  end.

(** The records of some lines, in order, as the threshold pass reads
    them. *)
Fixpoint threshold_records (gzipped : bool) (lines : list pyline)
  : list (string * Z) :=
  match lines with
  | [] => []
  | l :: ls =>
      match threshold_fields gzipped l with
      | Ok (Some r) => r :: threshold_records gzipped ls
      | _ => threshold_records gzipped ls
      end
  end.

(** The starts of the records of [seqid], in order. *)
Definition starts_of (seqid : string) (recs : list (string * Z)) : list Z :=
  map snd (filter (fun r => String.eqb (fst r) seqid) recs).

(** chr2 at starts 500, 100 and 500 again, then chr1 at starts 7 and 9. *)
Definition repeated_starts : string :=
  version3
  ++ record "chr2" "gene" "500" "600" "ID=a"
  ++ record "chr2" "gene" "100" "200" "ID=b"
  ++ record "chr2" "exon" "500" "550" "ID=c"
  ++ record "chr1" "gene" "7" "9" "ID=d"
  ++ record "chr1" "exon" "9" "12" "ID=e".

(** ** The class [OrderedSet] as it is written

    A node is the Python list [[key, prev, next]], and [prev] and [next]
    refer to nodes.  The nodes of a set live in its store, where the
    address of a node is its position: the sentinel [self.end], whose key
    is [None], is the first object [__init__] makes and has address 0, and
    [add] makes its node at the next free address.  [self.map] sends a key
    to the address of its node.  A node that [discard] takes out of the
    list stays in the store, where nothing refers to it any more. *)

Module OrderedSetClass.

Record node : Type := mkNode {
  key : option Z;
  prev : nat;
  next : nat
}.

Record t : Type := mkSet {
  store : list node;
  map : odict Z nat
}.

(** The address of [self.end]. *)
Definition end_ : nat := 0.

(** The node at an address. *)
Definition at_ (st : list node) (a : nat) : node :=
  nth a st (mkNode None end_ end_).

Fixpoint update (st : list node) (a : nat) (f : node -> node) : list node :=
  match st, a with
  | [], _ => []
  | n :: st', O => f n :: st'
  | n :: st', S a' => n :: update st' a' f
  end.

(** [node[1] = v] and [node[2] = v] for the node at address [a]. *)
Definition set_prev (st : list node) (a v : nat) : list node :=
  update st a (fun n => mkNode (key n) v (next n)).

Definition set_next (st : list node) (a v : nat) : list node :=
  update st a (fun n => mkNode (key n) (prev n) v).

Definition __len__ (self : t) : nat := List.length (map self).

Definition __contains__ (self : t) (k : Z) : bool :=
  contains Z.eqb (map self) k.

(** [add]: the chained assignment builds the node [[key, curr, end]] and
    then stores it in [curr[2]], in [end[1]] and in [self.map[key]], in
    this order. *)
Definition add (self : t) (k : Z) : t :=
  if contains Z.eqb (map self) k then self
  else
    let curr := prev (at_ (store self) end_) in
    let new := List.length (store self) in
    let st := (store self ++ [mkNode (Some k) curr end_])%list in
    let st := set_next st curr new in
    let st := set_prev st end_ new in
    mkSet st (setitem Z.eqb (map self) k new).

(** [__init__]; [self |= iterable] adds the values one by one. *)
Definition __init__ (iterable : option (list Z)) : t :=
  let self := mkSet [mkNode None end_ end_] [] in
  match iterable with
  | Some values => fold_left add values self
  | None => self
  end.

(** What [self.map.pop(key)] leaves in the map. *)
Definition pop_item (d : odict Z nat) (k : Z) : odict Z nat :=
  filter (fun kv => negb (Z.eqb (fst kv) k)) d.

(** [discard]: the node is read before its neighbours are written. *)
Definition discard (self : t) (k : Z) : t :=
  match lookup Z.eqb (map self) k with
  | Some a =>
      let n := at_ (store self) a in
      let st := set_next (store self) (prev n) (next n) in
      let st := set_prev st (next n) (prev n) in
      mkSet st (pop_item (map self) k)
  | None => self
  end.

(** The loops of [__iter__] and [__reversed__], run to their end: from
    [curr], follow [dir] until the sentinel, yielding the keys on the way.
    [None] stands for a walk that does not reach the sentinel within
    [fuel] nodes. *)
Fixpoint walk (dir : node -> nat) (fuel : nat) (st : list node) (curr : nat)
  : option (list (option Z)) :=
  match fuel with
  | O => None
  | S fuel' =>
      if Nat.eqb curr end_ then Some []
      else
        match walk dir fuel' st (dir (at_ st curr)) with
        | Some ks => Some (key (at_ st curr) :: ks)
        | None => None
        end
  end.

(** [list(self)] and [list(reversed(self))]; a walk that passes no node
    twice reaches the sentinel within as many steps as the store has
    nodes. *)
Definition __iter__ (self : t) : option (list (option Z)) :=
  walk next (List.length (store self)) (store self)
       (next (at_ (store self) end_)).

Definition __reversed__ (self : t) : option (list (option Z)) :=
  walk prev (List.length (store self)) (store self)
       (prev (at_ (store self) end_)).

(** [pop]: [not self] is [len(self) == 0]; the key read in a node is an
    [int] or the [None] of the sentinel, which is in no map. *)
Definition pop (self : t) (last : bool) : result (option Z) * t :=
  if Nat.eqb (__len__ self) 0 then (Raise KeyError, self)
  else
    let k := if last then key (at_ (store self) (prev (at_ (store self) end_)))
             else key (at_ (store self) (next (at_ (store self) end_))) in
    (Ok k, match k with Some z => discard self z | None => self end).

(** What [__eq__] is compared with: another [OrderedSet], or any other
    iterable, given by its values. *)
Inductive other_t : Type :=
| AnOrderedSet (o : t)
| AnIterable (values : list Z).

(** [==] on what a node may carry as its key. *)
Definition key_eqb (a b : option Z) : bool :=
  match a, b with
  | Some x, Some y => Z.eqb x y
  | None, None => true
  | _, _ => false
  end.

(** [==] on two lists. *)
Fixpoint list_eqb (a b : list (option Z)) : bool :=
  match a, b with
  | [], [] => true
  | x :: a', y :: b' => key_eqb x y && list_eqb a' b'
  | _, _ => false
  end.

(** [set(a) == set(b)]. *)
Definition set_eqb (a b : list (option Z)) : bool :=
  forallb (fun x => existsb (key_eqb x) b) a
  && forallb (fun y => existsb (key_eqb y) a) b.

(** [__eq__]: [and] evaluates the lists only when the lengths agree. *)
Definition __eq__ (self : t) (other : other_t) : option bool :=
  match other with
  | AnOrderedSet o =>
      if Nat.eqb (__len__ self) (__len__ o) then
        match __iter__ self, __iter__ o with
        | Some a, Some b => Some (list_eqb a b)
        | _, _ => None
        end
      else Some false
  | AnIterable values =>
      match __iter__ self with
      | Some a => Some (set_eqb a (List.map Some values))
      | None => None
      end
  end.

End OrderedSetClass.

(** ** What a store holds

    The cells of a set are its nodes from the first to the last, each with
    its address and its key. *)

Definition cells_t : Type := list (nat * Z).

Definition first_addr (cells : cells_t) (after : nat) : nat :=
  match cells with
  | [] => after
  | (a, _) :: _ => a
  end.

Fixpoint last_addr (cells : cells_t) (before : nat) : nat :=
  match cells with
  | [] => before
  | (a, _) :: rest => last_addr rest a
  end.

(** The cells are linked to one another in both directions, the first one
    back to [before] and the last one on to [after]. *)
Fixpoint linked (st : list OrderedSetClass.node) (before : nat)
         (cells : cells_t) (after : nat) : Prop :=
  match cells with
  | [] => True
  | (a, k) :: rest =>
      nth_error st a
      = Some (OrderedSetClass.mkNode (Some k) before (first_addr rest after))
      /\ linked st a rest after
  end.

(** The set holds the keys [l], in this order: its nodes form a ring
    through the sentinel, no node and no key occurs twice, and the map
    sends each key to its node and holds nothing else. *)
Definition represents (self : OrderedSetClass.t) (l : list Z) : Prop :=
  exists cells : cells_t,
    map snd cells = l
    /\ NoDup (OrderedSetClass.end_ :: map fst cells)
    /\ NoDup l
    /\ nth_error (OrderedSetClass.store self) OrderedSetClass.end_
       = Some (OrderedSetClass.mkNode None
                 (last_addr cells OrderedSetClass.end_)
                 (first_addr cells OrderedSetClass.end_))
    /\ linked (OrderedSetClass.store self) OrderedSetClass.end_ cells
              OrderedSetClass.end_
    /\ NoDup (keys (OrderedSetClass.map self))
    /\ forall k a,
         lookup Z.eqb (OrderedSetClass.map self) k = Some a <-> In (a, k) cells.

(** ** Sequences of operations on a set *)

Inductive set_op : Type :=
| Add (k : Z)
| Discard (k : Z)
| Pop (last : bool).

Definition apply_op (self : OrderedSetClass.t) (o : set_op)
  : OrderedSetClass.t :=
  match o with
  | Add k => OrderedSetClass.add self k
  | Discard k => OrderedSetClass.discard self k
  | Pop last => snd (OrderedSetClass.pop self last)
  end.

(** The same operation on the list of the keys in insertion order. *)
Definition list_op (l : list Z) (o : set_op) : list Z :=
  match o with
  | Add k => if existsb (Z.eqb k) l then l else (l ++ [k])%list
  | Discard k => filter (fun y => negb (Z.eqb y k)) l
  | Pop true => removelast l
  | Pop false => tl l
  end.

(** * Properties *)

(** ** The primitives on small inputs *)

Example split_three :
  split TAB ("a" ++ tab ++ tab ++ "b") = ["a"; ""; "b"].
Proof. reflexivity. Qed.

Example strip_line : strip (" chr1" ++ tab ++ "7 " ++ nl) = "chr1" ++ tab ++ "7".
Proof. reflexivity. Qed.

Example int_ok : int " -1_000 " = Ok (-1000).
Proof. reflexivity. Qed.

Example int_bad : int "3.1" = Raise ValueError.
Proof. reflexivity. Qed.

Example split_ws_version : split_ws ("##gff-version   3" ++ nl) = ["##gff-version"; "3"].
Proof. reflexivity. Qed.

Example average_diff_period3 : average_diff [10; 20; 30; 1000] 3 = Ok 990.
Proof. reflexivity. Qed.

Example average_diff_period1 : average_diff [10; 20; 30; 1000] 1 = Ok 330.
Proof. reflexivity. Qed.

Example average_diff_period0 : average_diff [10; 20; 30; 1000] 0 = Ok 0.
Proof. reflexivity. Qed.

Example average_diff_too_few : average_diff [5] 3 = Raise AttributeError.
Proof. reflexivity. Qed.

Example bisect_right_mid : bisect_right [100; 500; 800] 550 = 2%nat.
Proof. reflexivity. Qed.

Example unquote_comma : unquote "a%2Cb%zz" = "a,b%zz".
Proof. reflexivity. Qed.

Example parse_attrs_ok :
  _parse_attrs "ID=g1;Name=a,b" = Ok [("ID", ["g1"]); ("Name", ["a"; "b"])].
Proof. reflexivity. Qed.

Example parse_attrs_blank : _parse_attrs "" = Raise ValueError.
Proof. reflexivity. Qed.

Example version_3 :
  _is_version_3 (PlainFile ("##gff-version 3" ++ nl)) false = Ok true.
Proof. reflexivity. Qed.

Example version_gz :
  _is_version_3 (GzipFile ("##gff-version 3" ++ nl)) true = Ok true.
Proof. reflexivity. Qed.

Example lines_of_two : lines_of ("a" ++ nl ++ nl ++ "b") = ["a" ++ nl; nl; "b"].
Proof. reflexivity. Qed.

(** ** Opening a file *)

Lemma lines_of_not_empty (s l : string) : In l (lines_of s) -> l <> EmptyString.
Proof.
  revert l; induction s as [|c s IH]; simpl; intros l H; [easy|].
  destruct (Ascii.eqb c LF).
  - destruct H as [<-|H]; [easy | now apply IH].
  - destruct (lines_of s) as [|l0 ls]; simpl in H.
    + destruct H as [<-|[]]; easy.
    + destruct H as [<-|H]; [easy | apply IH; now right].
Qed.

(** C9.  When the first line carries a version other than 3, [__init__]
    reaches its [raise] statement, and what escapes is [NameError], from the
    unbound name [version] in the message, not the [TypeError] that the
    docstring and [test_not_version_3] announce. *)
Theorem unsupported_version_raises_name_error
        (filename : disk_file) (period : Z) (zipped : bool) :
  _is_zipped filename = Ok zipped ->
  _is_version_3 filename zipped = Ok false ->
  GffFile.__init__ filename period = Raise NameError.
Proof.
  intros Hz Hv. unfold GffFile.__init__. rewrite Hz. simpl.
  assert (Hopen : exists h,
             (if zipped then gzip_open filename else open_text filename) = Ok h).
  { unfold _is_version_3 in Hv.
    destruct (if zipped then gzip_open filename else open_text filename) as [h|e];
      [now exists h | discriminate]. }
  destruct Hopen as [h ->]. simpl. rewrite Hv. reflexivity.
Qed.

(** The file of [test_not_version_3]: a first line [##gff-version 2]. *)
Lemma version_2_raises_name_error :
  _is_zipped (PlainFile version2_file) = Ok false
  /\ _is_version_3 (PlainFile version2_file) false = Ok false
  /\ GffFile.__init__ (PlainFile version2_file) 3 = Raise NameError.
Proof.
  split; [reflexivity | split; [reflexivity|]].
  apply (unsupported_version_raises_name_error _ 3 false); reflexivity.
Defined.

Example no_directive_raises_value_error :
  GffFile.__init__ (PlainFile no_directive_file) 3 = Raise ValueError.
Proof. reflexivity. Qed.

Example empty_first_line_raises_index_error :
  GffFile.__init__ (PlainFile (nl ++ no_directive_file)) 3 = Raise IndexError.
Proof. reflexivity. Qed.

Lemma gzip_version_3_fails (text : string) (period : Z) :
  _is_version_3 (GzipFile text) true = Ok true ->
  GffFile.__init__ (GzipFile text) period = Raise TypeError.
Proof.
  intros Hv.
  unfold GffFile.__init__. simpl. rewrite Hv. simpl.
  unfold _gen_index, _get_thresholds, handle_lines, seek. simpl.
  assert (Hl : exists l ls, lines_of text = l :: ls).
  { unfold _is_version_3 in Hv. simpl in Hv. unfold readline in Hv. simpl in Hv.
    destruct (lines_of text) as [|l ls]; [discriminate | now exists l, ls]. }
  destruct Hl as (l & ls & Hl). rewrite Hl. simpl.
  assert (Hne : l <> EmptyString).
  { apply (lines_of_not_empty text). rewrite Hl. now left. }
  unfold is_empty. simpl. destruct l; [contradiction | reflexivity].
Qed.

Lemma gzip_never_opens (text : string) (period : Z) (g : GffFile) :
  GffFile.__init__ (GzipFile text) period <> Ok g.
Proof.
  destruct (_is_version_3 (GzipFile text) true) as [[|]|e] eqn:Hv.
  - now rewrite (gzip_version_3_fails _ _ Hv).
  - unfold GffFile.__init__. simpl. now rewrite Hv.
  - unfold GffFile.__init__. simpl. now rewrite Hv.
Qed.

(** C5.  A gzip member is detected by its first three bytes, and opening
    one whose first line announces version 3 raises [TypeError]: the flag
    [gzipped] reaches [_gen_index] as [periods], the lines stay [bytes] and
    the first [line.startswith('#')] of the threshold pass rejects them. *)
Theorem gzip_file_raises_type_error (text : string) (period : Z) :
  _is_version_3 (GzipFile text) true = Ok true ->
  _is_zipped (GzipFile text) = Ok true
  /\ GffFile.__init__ (GzipFile text) period = Raise TypeError.
Proof.
  intros Hv. split; [reflexivity | now apply gzip_version_3_fails].
Qed.

(** The gzip file with the chr1 records 100-200, 300-400 and 500-600. *)
Lemma gzip_three_records_raises_type_error :
  _is_version_3 (GzipFile three_records) true = Ok true
  /\ _is_zipped (GzipFile three_records) = Ok true
  /\ GffFile.__init__ (GzipFile three_records) 3 = Raise TypeError.
Proof.
  split; [reflexivity|].
  apply (gzip_file_raises_type_error three_records 3). reflexivity.
Defined.

Example plain_three_records_fetch :
  exists g fin g',
    GffFile.__init__ (PlainFile three_records) 3 = Ok g
    /\ GffFile.fetch g "chr1" 250 450 None = Some ([fin], Stopped, g')
    /\ _features fin = ["chr1"; "."; "gene"; "300"; "400"; "."; "+"; "."].
Proof. do 3 eexists. repeat split; vm_compute; reflexivity. Qed.

(** C4.  The [period] given to [__init__] does not reach the threshold
    computation.  On the file with chr1 at starts 10, 20, 30, 1000 the
    table for period 3 holds 990 (the one difference 1000 - 10), but the
    session is built from the table for period 0, which holds 0, and its
    index has four entries where period 3 would give one. *)
Theorem init_does_not_use_period :
  (forall filename p q, GffFile.__init__ filename p = GffFile.__init__ filename q)
  /\ (exists h, _get_thresholds (text_handle one_sequence) 3 false
                = Ok ([("chr1", 990)], h))
  /\ (exists h, _get_thresholds (text_handle one_sequence) 0 false
                = Ok ([("chr1", 0)], h))
  /\ (exists h h',
         GffFile.__init__ (PlainFile one_sequence) 3
         = Ok (mkGffFile h
                 [("chr1", mkContainer [(0, 10); (1, 20); (2, 30); (3, 1000)]
                                       [(0, 16); (1, 45); (2, 74); (3, 103)])])
         /\ _gen_index (text_handle one_sequence) 0 false
            = Ok ([("chr1", mkContainer [(0, 10); (1, 20); (2, 30); (3, 1000)]
                                        [(0, 16); (1, 45); (2, 74); (3, 103)])], h)
         /\ _gen_index (text_handle one_sequence) 3 false
            = Ok ([("chr1", mkContainer [(0, 10)] [(0, 16)])], h')).
Proof.
  split; [reflexivity|].
  split; [eexists; vm_compute; reflexivity|].
  split; [eexists; vm_compute; reflexivity|].
  do 2 eexists. repeat split; vm_compute; reflexivity.
Qed.

(** ** Sequential reading *)

Local Ltac differs := cbn; let X := fresh in intros X; discriminate X.

Lemma parse_attrs_loop_raises attrs d e :
  parse_attrs_loop attrs d = Raise e -> e = ValueError.
Proof.
  revert d; induction attrs as [|a attrs IH]; intros d; cbn; [discriminate|].
  unfold unpack_tag_values.
  destruct (split "=" a) as [|t [|v [|x l]]]; cbn; try congruence.
  apply IH.
Qed.

Lemma entry_init_raises line e :
  Entry.__init__ line = Raise e -> e = ValueError.
Proof.
  unfold Entry.__init__.
  destruct (unpack_star_last _) as [[fs a]|]; [|congruence].
  destruct (_parse_attrs a) eqn:E; cbn; [discriminate|].
  intros [= <-]. now apply parse_attrs_loop_raises in E.
Qed.

Lemma next_loop_not_stop (binary : bool) (lines : list string) :
  fst (GffFile.next_loop binary lines) <> Raise StopIteration.
Proof.
  induction lines as [|l ls IH]; [differs|].
  assert (Hentry : forall line,
             fst (e <- Entry.__init__ line ;; Ok (AnEntry e), ls)
             <> Raise StopIteration).
  { intros line. destruct (Entry.__init__ line) eqn:E; [differs|].
    apply entry_init_raises in E. subst. differs. }
  cbn [GffFile.next_loop].
  destruct binary; cbn [as_line decode_ascii startswith].
  - destruct (is_ascii l); [|differs]. cbn [startswith line_text].
    destruct (startswith_hash l); [exact IH | apply Hentry].
  - destruct (startswith_hash l); [exact IH | apply Hentry].
Qed.

(** C8.  [__next__] never raises [StopIteration]: on a handle read to its
    end the [for] loop falls through and the method returns [None], leaving
    the session as it is, so every further call returns [None] again and a
    loop over the session does not end.  Right after [__init__] the handle
    is already at its end (the index pass read it), so the first call
    returns [None] as well. *)
Theorem next_returns_none_at_end :
  (forall self, fst (GffFile.__next__ self) <> Raise StopIteration)
  /\ (forall text binary idx,
         GffFile.__next__ (at_end text binary idx)
         = (Ok PyNone, at_end text binary idx))
  /\ (forall text binary idx n,
         next_n n (at_end text binary idx) = repeat (Ok PyNone) n)
  /\ (exists g, GffFile.__init__ (PlainFile three_records) 3 = Ok g
                /\ fst (GffFile.__next__ g) = Ok PyNone).
Proof.
  split; [|split; [|split]].
  - intros self. unfold GffFile.__next__.
    pose proof (next_loop_not_stop (binary (_handle self)) (unread (_handle self))) as H.
    destruct (GffFile.next_loop _ _); exact H.
  - reflexivity.
  - intros text binary idx n. induction n as [|n IH]; [reflexivity|].
    simpl. unfold at_end in IH. now rewrite IH.
  - eexists. split; vm_compute; reflexivity.
Qed.

Example next_decodes_record :
  exists e rest,
    GffFile.next_loop false (lines_of three_records) = (Ok (AnEntry e), rest)
    /\ Entry.seqid e = Ok "chr1" /\ Entry.start e = Ok 100
    /\ Entry.end_ e = Ok 200 /\ List.length rest = 2%nat.
Proof. do 2 eexists. repeat split; vm_compute; reflexivity. Qed.

(** ** Comment and blank lines *)

Lemma comment_skipped_by_thresholds (s : string) lines diffs :
  startswith_hash s = true ->
  get_thresholds_loop (Str s :: lines) false diffs
  = get_thresholds_loop lines false diffs.
Proof.
  intros H. simpl. unfold is_empty. simpl.
  destruct s; [discriminate|]. simpl in *. now rewrite H.
Qed.

Lemma comment_counted_by_index thresholds st (s : string) :
  startswith_hash s = true ->
  gen_index_step thresholds false st (Str s)
  = Ok (mkGen (index st) (curr_pos st + len (Str s)) (curr_idx st)
              (curr_threshold st) (prev_start st)).
Proof. intros H. unfold gen_index_step. simpl. now rewrite H. Qed.

Lemma comment_skipped_by_next (s : string) lines :
  startswith_hash s = true ->
  GffFile.next_loop false (s :: lines) = GffFile.next_loop false lines.
Proof. intros H. simpl. now rewrite H. Qed.

(** C10.  A blank line is the one-character line LF, for which [not line]
    is false, so no pass skips it: the threshold pass fails to unpack four
    fields, the index pass finds no fourth field, [__next__] fails on the
    empty attribute column, and a file with a blank line cannot be opened. *)
Theorem blank_line_is_not_skipped :
  (forall lines diffs,
      get_thresholds_loop (Str nl :: lines) false diffs = Raise ValueError)
  /\ (forall thresholds st,
         gen_index_step thresholds false st (Str nl) = Raise IndexError)
  /\ (forall lines,
         GffFile.next_loop false (nl :: lines) = (Raise ValueError, lines))
  /\ GffFile.__init__ (PlainFile blank_line_file) 3 = Raise ValueError.
Proof. repeat split. Qed.

(** ** Failures of [fetch] *)

Lemma bisect_loop_below (fuel : nat) (a : list Z) (x : Z) (hi : nat) :
  (forall s, In s a -> x < s) -> (hi <= List.length a)%nat ->
  bisect_loop fuel a x 0 hi = 0%nat.
Proof.
  intros Hlt. revert hi.
  induction fuel as [|fuel IH]; intros hi Hhi; cbn [bisect_loop]; [reflexivity|].
  destruct (Nat.ltb_spec 0 hi) as [Hpos|Hz]; [|reflexivity].
  rewrite Nat.add_0_l.
  assert (Hmid : (hi / 2 < hi)%nat) by (apply Nat.div_lt; lia).
  assert (Hin : In (nth (hi / 2) a 0) a) by (apply nth_In; lia).
  apply Hlt in Hin. apply Z.ltb_lt in Hin. rewrite Hin.
  apply IH. lia.
Qed.

(** C7.  A [fetch] for a seqid that is not a key of the index ends with
    [KeyError], and a [fetch] whose [start] lies below every start
    recorded for the seqid ends with [ValueError]; in both cases nothing
    has been yielded and the session, cursor included, is untouched. *)
Theorem fetch_fails_before_reading
        (self : GffFile) (seqid : string) (start end_ : Z) (type : option string) :
  (lookup String.eqb (_index self) seqid = None ->
   GffFile.fetch self seqid start end_ type = Some ([], Raised KeyError, self))
  /\ (forall c,
         lookup String.eqb (_index self) seqid = Some c ->
         (forall s, In s (values (c_start c)) -> start < s) ->
         GffFile.fetch self seqid start end_ type
         = Some ([], Raised ValueError, self)).
Proof.
  split.
  - intros H. unfold GffFile.fetch, getitem. now rewrite H.
  - intros c H Hlt. unfold GffFile.fetch, getitem. rewrite H.
    unfold _find_le, bisect_right.
    rewrite (bisect_loop_below _ _ _ _ Hlt (Nat.le_refl _)). reflexivity.
Qed.

(** An unknown seqid and a start below the first record of chr1. *)
Lemma fetch_fails_on_three_records :
  exists g,
    GffFile.__init__ (PlainFile three_records) 3 = Ok g
    /\ GffFile.fetch g "chrX" 1 100 None = Some ([], Raised KeyError, g)
    /\ GffFile.fetch g "chr1" 50 150 None = Some ([], Raised ValueError, g).
Proof.
  eexists. split; [vm_compute; reflexivity|].
  split.
  - apply (proj1 (fetch_fails_before_reading _ "chrX" 1 100 None)). reflexivity.
  - eapply (proj2 (fetch_fails_before_reading _ "chr1" 50 150 None)).
    + reflexivity.
    + simpl. intros s [<-|[<-|[<-|[]]]]; lia.
Defined.

(** ** Ordered dictionaries *)

Section OrderedDictFacts.
Context {K V : Type} (keq : K -> K -> bool).
Hypothesis keq_eq : forall a b, keq a b = true <-> a = b.

Lemma keq_refl (a : K) : keq a a = true.
Proof. now apply keq_eq. Qed.

Lemma keq_neq (a b : K) : a <> b -> keq a b = false.
Proof.
  intros H. destruct (keq a b) eqn:E; [|reflexivity].
  apply keq_eq in E. contradiction.
Qed.

Lemma lookup_app (d d' : odict K V) (k : K) :
  lookup keq (d ++ d')%list k
  = match lookup keq d k with Some v => Some v | None => lookup keq d' k end.
Proof.
  induction d as [|[k0 v0] d IH]; simpl; [reflexivity|].
  destruct (keq k k0); [reflexivity | exact IH].
Qed.

Lemma lookup_setitem_same (d : odict K V) (k : K) (v : V) :
  lookup keq (setitem keq d k v) k = Some v.
Proof.
  induction d as [|[k0 v0] d IH]; simpl.
  - now rewrite keq_refl.
  - destruct (keq k k0) eqn:E; simpl; rewrite E; [reflexivity | exact IH].
Qed.

Lemma lookup_setitem_other (d : odict K V) (k k' : K) (v : V) :
  k' <> k -> lookup keq (setitem keq d k v) k' = lookup keq d k'.
Proof.
  intros Hne. induction d as [|[k0 v0] d IH]; simpl.
  - now rewrite (keq_neq _ _ Hne).
  - destruct (keq k k0) eqn:E; simpl.
    + apply keq_eq in E. subst k0. now rewrite (keq_neq _ _ Hne).
    + now rewrite IH.
Qed.

Lemma contains_setitem (d : odict K V) (k k' : K) (v : V) :
  contains keq (setitem keq d k v) k' = keq k' k || contains keq d k'.
Proof.
  unfold contains. destruct (keq k' k) eqn:E.
  - apply keq_eq in E. subst. now rewrite lookup_setitem_same.
  - rewrite lookup_setitem_other; [reflexivity|].
    intros ->. now rewrite keq_refl in E.
Qed.

Lemma lookup_setdefault (d : odict K V) (k k' : K) (v : V) :
  lookup keq (setdefault keq d k v) k'
  = match lookup keq d k' with
    | Some x => Some x
    | None => if keq k' k then Some v else None
    end.
Proof.
  unfold setdefault, contains.
  destruct (lookup keq d k) eqn:E.
  - destruct (lookup keq d k') eqn:E'; [reflexivity|].
    destruct (keq k' k) eqn:Ek; [|reflexivity].
    apply keq_eq in Ek. subst. congruence.
  - rewrite lookup_app. simpl. destruct (lookup keq d k'); reflexivity.
Qed.

Lemma contains_setdefault (d : odict K V) (k k' : K) (v : V) :
  contains keq (setdefault keq d k v) k' = keq k' k || contains keq d k'.
Proof.
  unfold contains. rewrite lookup_setdefault.
  destruct (lookup keq d k'); [now rewrite orb_true_r|].
  destruct (keq k' k); reflexivity.
Qed.

Lemma contains_keys (d : odict K V) (k : K) :
  contains keq d k = existsb (keq k) (keys d).
Proof.
  unfold contains. induction d as [|[k0 v0] d IH]; simpl; [reflexivity|].
  destruct (keq k k0); [reflexivity | exact IH].
Qed.

End OrderedDictFacts.

Lemma string_eqb_eq (a b : string) : String.eqb a b = true <-> a = b.
Proof. apply String.eqb_eq. Qed.

Lemma z_eqb_eq (a b : Z) : Z.eqb a b = true <-> a = b.
Proof. apply Z.eqb_eq. Qed.

(** ** What the two passes read in a line *)



Lemma gen_index_step_view thresholds gzipped st line :
  gen_index_step thresholds gzipped st line
  = (r <- index_fields gzipped line ;;
     match r with
     | None => Ok (skip_step st (len line))
     | Some (seqid, start) => record_step thresholds st seqid start (len line)
     end).
Proof.
  unfold gen_index_step, index_fields, record_step, skip_step.
  assert (Hd : forall l l', (if gzipped then decode_ascii l else Ok l) = Ok l' ->
                            len l' = len l).
  { intros l l'. destruct gzipped; [|now intros [= ->]].
    destruct l as [s|b]; simpl; [discriminate|].
    destruct (is_ascii b); [now intros [= <-] | discriminate]. }
  destruct (if gzipped then decode_ascii line else Ok line) as [l'|e] eqn:E;
    [|reflexivity].
  apply Hd in E. cbn [bind]. rewrite E.
  destruct (startswith l') as [hash|e]; [|reflexivity]. cbn [bind].
  destruct (hash || is_empty l'); [reflexivity|].
  destruct (strip_split_tab l') as [f_line|e]; [|reflexivity]. cbn [bind].
  destruct (item f_line 0) as [seqid|e]; [|reflexivity]. cbn [bind].
  destruct (item f_line 3) as [f|e]; [|reflexivity]. cbn [bind].
  destruct (int f) as [start|e]; reflexivity.
Qed.

Lemma get_thresholds_loop_view line lines gzipped diffs :
  get_thresholds_loop (line :: lines) gzipped diffs
  = (r <- threshold_fields gzipped line ;;
     match r with
     | None => get_thresholds_loop lines gzipped diffs
     | Some (seqid, start) =>
         get_thresholds_loop lines gzipped (add_start diffs seqid start)
     end).
Proof.
  cbn [get_thresholds_loop]. unfold threshold_fields.
  destruct (if gzipped then decode_ascii line else Ok line) as [l'|e];
    [|reflexivity]. cbn [bind].
  destruct (if is_empty l' then Ok true else startswith l') as [skip|e];
    [|reflexivity]. cbn [bind].
  destruct skip; [reflexivity|].
  destruct (strip_split_tab l') as [parts|e]; [|reflexivity]. cbn [bind].
  destruct parts as [|a [|b [|c [|d others]]]]; try reflexivity.
  destruct (int d); reflexivity.
Qed.



(** ** Every seqid has a threshold *)

Lemma contains_add_start diffs seqid start s :
  contains String.eqb (add_start diffs seqid start) s
  = String.eqb s seqid || contains String.eqb diffs s.
Proof.
  unfold add_start.
  destruct (lookup String.eqb (setdefault String.eqb diffs seqid OrderedSet.empty) seqid).
  - rewrite (contains_setitem _ string_eqb_eq), (contains_setdefault _ string_eqb_eq).
    destruct (String.eqb s seqid); reflexivity.
  - apply (contains_setdefault _ string_eqb_eq).
Qed.



Lemma average_diffs_loop_spec seqid_starts periods ks acc thresholds :
  average_diffs_loop seqid_starts periods ks acc = Ok thresholds ->
  forall k,
    if existsb (String.eqb k) ks then
      match lookup String.eqb seqid_starts k with
      | Some starts =>
          exists t, average_diff (OrderedSet.to_list starts) periods = Ok t
                    /\ lookup String.eqb thresholds k = Some t
      | None => lookup String.eqb thresholds k = lookup String.eqb acc k
      end
    else lookup String.eqb thresholds k = lookup String.eqb acc k.
Proof.
  revert acc. induction ks as [|k0 ks IH]; intros acc H k;
    cbn [average_diffs_loop existsb] in *.
  - now injection H as <-.
  - destruct (lookup String.eqb seqid_starts k0) as [starts0|] eqn:E0.
    + destruct (average_diff (OrderedSet.to_list starts0) periods)
        as [t0|e] eqn:Ea; [|discriminate].
      cbn [bind] in H. specialize (IH _ H).
      destruct (String.eqb_spec k k0) as [->|Hne]; cbn [orb].
      * rewrite E0. specialize (IH k0). rewrite E0 in IH.
        destruct (existsb (String.eqb k0) ks); [exact IH|].
        exists t0. split; [exact Ea|].
        now rewrite IH, (lookup_setitem_same _ string_eqb_eq).
      * specialize (IH k).
        rewrite (lookup_setitem_other _ string_eqb_eq) in IH by exact Hne.
        exact IH.
    + specialize (IH _ H).
      destruct (String.eqb_spec k k0) as [->|Hne]; cbn [orb].
      * rewrite E0. specialize (IH k0). rewrite E0 in IH.
        now destruct (existsb (String.eqb k0) ks).
      * exact (IH k).
Qed.

(** A table that [_get_average_diffs] returns holds, for each seqid of
    the coordinate sets and for nothing else, the value of the pandas
    expression on its starts. *)
Lemma lookup_average_diffs seqid_starts periods thresholds k :
  _get_average_diffs seqid_starts periods = Ok thresholds ->
  match lookup String.eqb seqid_starts k with
  | Some starts =>
      exists t, average_diff (OrderedSet.to_list starts) periods = Ok t
                /\ lookup String.eqb thresholds k = Some t
  | None => lookup String.eqb thresholds k = None
  end.
Proof.
  unfold _get_average_diffs. intros H.
  assert (Hs := average_diffs_loop_spec _ _ _ _ _ H k).
  rewrite <- (contains_keys String.eqb) in Hs. unfold contains in Hs.
  destruct (lookup String.eqb seqid_starts k); exact Hs.
Qed.






(** ** Local indices *)

Lemma enum_from_app (k : Z) (l : list Z) (x : Z) :
  enum_from k (l ++ [x])%list
  = (enum_from k l ++ [(k + Z.of_nat (List.length l), x)])%list.
Proof.
  revert k. induction l as [|v l IH]; intros k; cbn [enum_from app List.length].
  - now rewrite Z.add_0_r.
  - rewrite IH. cbn [app].
    replace (k + 1 + Z.of_nat (List.length l))
      with (k + Z.of_nat (S (List.length l))) by lia.
    reflexivity.
Qed.

Lemma lookup_enum_from (k : Z) (l : list Z) (i : Z) :
  lookup Z.eqb (enum_from k l) i
  = if k <=? i then nth_error l (Z.to_nat (i - k)) else None.
Proof.
  revert k. induction l as [|v l IH]; intros k; cbn [enum_from lookup].
  - destruct (k <=? i); [|reflexivity]. now destruct (Z.to_nat (i - k)).
  - destruct (Z.eqb_spec i k) as [->|Hne].
    + rewrite Z.leb_refl, Z.sub_diag. reflexivity.
    + rewrite IH. destruct (Z.leb_spec (k + 1) i), (Z.leb_spec k i); try lia.
      * replace (Z.to_nat (i - k)) with (S (Z.to_nat (i - (k + 1)))) by lia.
        reflexivity.
      * reflexivity.
Qed.

Lemma keys_enum_from (k : Z) (l : list Z) :
  keys (enum_from k l) = map (fun n => k + Z.of_nat n) (seq 0 (List.length l)).
Proof.
  revert k. induction l as [|v l IH]; intros k; cbn [enum_from keys map List.length seq].
  - reflexivity.
  - f_equal; [simpl; lia|]. unfold keys in IH. rewrite IH.
    rewrite <- seq_shift, map_map. apply map_ext. intros n. lia.
Qed.

Lemma values_enum_from (k : Z) (l : list Z) : values (enum_from k l) = l.
Proof.
  revert k. induction l as [|v l IH]; intros k; cbn; [reflexivity|].
  f_equal. apply IH.
Qed.

Lemma length_enum_from (k : Z) (l : list Z) :
  List.length (enum_from k l) = List.length l.
Proof. revert k. induction l as [|v l IH]; intros k; cbn; [|rewrite IH]; reflexivity. Qed.

Lemma setdefault_enum_from (l : list Z) (x : Z) :
  setdefault Z.eqb (enum_from 0 l) (Z.of_nat (List.length l)) x
  = enum_from 0 (l ++ [x])%list.
Proof.
  unfold setdefault, contains. rewrite lookup_enum_from.
  destruct (Z.leb_spec 0 (Z.of_nat (List.length l))) as [_|]; [|lia].
  rewrite Z.sub_0_r, Nat2Z.id.
  destruct (nth_error l (List.length l)) eqn:E.
  - assert (H : nth_error l (List.length l) <> None) by congruence.
    apply nth_error_Some in H. lia.
  - now rewrite enum_from_app.
Qed.

(** ** Entries of the index *)

Lemma setitem_app_new {V : Type} (d : odict string V) (k : string) (v v' : V) :
  lookup String.eqb d k = None ->
  setitem String.eqb (d ++ [(k, v)])%list k v' = (d ++ [(k, v')])%list.
Proof.
  induction d as [|[k0 v0] d IH]; cbn [lookup setitem app]; intros H.
  - now rewrite String.eqb_refl.
  - destruct (String.eqb k k0); [discriminate|]. now rewrite IH.
Qed.

Lemma emit_entry_new (idx : index_t) (s : string) (b p : Z) :
  lookup String.eqb idx s = None ->
  emit_entry idx s 0 b p = (idx ++ [(s, container_of [(b, p)])])%list.
Proof.
  intros H. unfold emit_entry, setdefault, contains. rewrite H.
  rewrite (lookup_app String.eqb), H. cbn [lookup]. rewrite String.eqb_refl.
  now rewrite setitem_app_new.
Qed.

Lemma emit_entry_next (idx : index_t) (s : string) (es : list (Z * Z)) (b p : Z) :
  lookup String.eqb idx s = Some (container_of es) ->
  emit_entry idx s (Z.of_nat (List.length es)) b p
  = setitem String.eqb idx s (container_of (es ++ [(b, p)])%list).
Proof.
  intros H. unfold emit_entry, setdefault, contains. rewrite H, H.
  unfold container_of. cbn [c_start c_pos]. rewrite !map_app. cbn [map].
  rewrite <- !setdefault_enum_from, !length_map. reflexivity.
Qed.

Lemma index_size_cons (s : string) (c : container) (idx : index_t) :
  index_size ((s, c) :: idx) = (List.length (c_start c) + index_size idx)%nat.
Proof. reflexivity. Qed.

Lemma index_size_app (idx : index_t) (s : string) (c : container) :
  index_size (idx ++ [(s, c)])%list
  = (index_size idx + List.length (c_start c))%nat.
Proof.
  induction idx as [|[k0 v0] idx IH]; cbn [app].
  - rewrite index_size_cons. unfold index_size. cbn. lia.
  - rewrite !index_size_cons, IH. lia.
Qed.

Lemma index_size_setitem (idx : index_t) (s : string) (c c' : container) :
  lookup String.eqb idx s = Some c ->
  (index_size (setitem String.eqb idx s c') + List.length (c_start c)
   = index_size idx + List.length (c_start c'))%nat.
Proof.
  induction idx as [|[k0 v0] idx IH]; cbn [lookup setitem]; [discriminate|].
  destruct (String.eqb s k0).
  - intros [= ->]. rewrite !index_size_cons. lia.
  - intros H. apply IH in H. rewrite !index_size_cons. lia.
Qed.

Lemma length_container_of (es : list (Z * Z)) :
  List.length (c_start (container_of es)) = List.length es.
Proof. unfold container_of. cbn. now rewrite length_enum_from, length_map. Qed.

(** ** Lines and their records *)

Lemma total_len_cons (l : pyline) (a : list pyline) :
  total_len (l :: a) = len l + total_len a.
Proof. reflexivity. Qed.

Lemma total_len_app (a b : list pyline) :
  total_len (a ++ b) = total_len a + total_len b.
Proof.
  induction a as [|l a IH]; cbn [app]; [reflexivity|].
  rewrite !total_len_cons, IH. lia.
Qed.

Lemma total_len_nonneg (a : list pyline) : 0 <= total_len a.
Proof.
  induction a as [|l a IH]; [cbn; lia|].
  rewrite total_len_cons. unfold len. lia.
Qed.

Lemma records_of_app gzipped (a b : list pyline) :
  records_of gzipped (a ++ b) = (records_of gzipped a ++ records_of gzipped b)%list.
Proof.
  induction a as [|l a IH]; cbn [records_of app]; [reflexivity|].
  destruct (index_fields gzipped l) as [[r|]|e]; cbn [app]; now rewrite IH.
Qed.

Lemma records_of_line gzipped (l : pyline) :
  records_of gzipped [l]
  = match index_fields gzipped l with Ok (Some r) => [r] | _ => [] end.
Proof. cbn. destruct (index_fields gzipped l) as [[r|]|e]; reflexivity. Qed.

Lemma index_fields_len gzipped (l : pyline) r :
  index_fields gzipped l = Ok (Some r) -> 0 < len l.
Proof.
  unfold index_fields.
  destruct (if gzipped then decode_ascii l else Ok l) as [l'|e] eqn:E;
    [|discriminate]. cbn [bind].
  assert (Ht : line_text l' = line_text l).
  { destruct gzipped; [|now injection E as ->].
    destruct l as [s|b0]; cbn in E; [discriminate|].
    destruct (is_ascii b0); [now injection E as <- | discriminate]. }
  destruct (startswith l') as [hash|e]; [|discriminate]. cbn [bind].
  destruct hash; [discriminate|]. cbn [orb].
  unfold is_empty, len. rewrite Ht.
  destruct (line_text l); [discriminate|]. cbn [String.length]. lia.
Qed.

Lemma entry_at_more gzipped lines more s b p :
  entry_at gzipped lines s b p -> entry_at gzipped (lines ++ more) s b p.
Proof.
  intros (pre & line & post & -> & Hf & Hp).
  exists pre, line, (post ++ more)%list. now rewrite <- app_assoc.
Qed.

Lemma first_entry_at_more gzipped lines more s b p :
  first_entry_at gzipped lines s b p ->
  first_entry_at gzipped (lines ++ more) s b p.
Proof.
  intros (pre & line & post & -> & Hf & Hp & Hn).
  exists pre, line, (post ++ more)%list. now rewrite <- app_assoc.
Qed.

Lemma entry_at_before gzipped lines s b p :
  entry_at gzipped lines s b p -> p < total_len lines.
Proof.
  intros (pre & line & post & -> & Hf & <-).
  rewrite total_len_app, total_len_cons.
  apply index_fields_len in Hf. pose proof (total_len_nonneg post). lia.
Qed.

Lemma block_inv_more gzipped thresholds lines more s es :
  block_inv gzipped thresholds lines s es ->
  block_inv gzipped thresholds (lines ++ more) s es.
Proof.
  intros (Hne & Hall & Hfirst & Hpos & Hst). repeat split; try assumption.
  - eapply Forall_impl; [|exact Hall]. intros e. apply entry_at_more.
  - intros e es' He. apply first_entry_at_more. eapply Hfirst; eassumption.
Qed.

Lemma StronglySorted_snoc (l : list Z) (x : Z) :
  StronglySorted Z.lt l -> Forall (fun a => a < x) l ->
  StronglySorted Z.lt (l ++ [x]).
Proof.
  induction 1 as [|a l Hs IH Ha]; intros Hall; cbn.
  - repeat constructor.
  - inversion Hall; subst. constructor; [now apply IH|].
    apply Forall_app. split; [assumption | now constructor].
Qed.

Lemma Sorted_snoc (R : Z -> Z -> Prop) (l : list Z) (x : Z) :
  Sorted R l -> (l <> [] -> R (last l 0) x) -> Sorted R (l ++ [x]).
Proof.
  induction 1 as [|a l Hs IH Ha]; intros Hlast; cbn.
  - repeat constructor.
  - constructor.
    + apply IH. intros Hne. destruct l as [|a' l]; [contradiction|].
      apply Hlast. discriminate.
    + destruct l as [|a' l]; cbn.
      * constructor. apply Hlast. discriminate.
      * inversion Ha; subst. now constructor.
Qed.

(** ** The invariant of the index pass *)

Section IndexPass.
Variable gzipped : bool.
Variable thresholds : odict string Z.

Lemma record_step_first st s b n :
  contains String.eqb (index st) s = false ->
  record_step thresholds st s b n
  = (t <- getitem String.eqb thresholds s ;;
     Ok (mkGen (emit_entry (index st) s 0 b (curr_pos st))
               (curr_pos st + n) 1 (Some t) (Some b))).
Proof.
  intros H. unfold record_step. rewrite H.
  destruct (getitem String.eqb thresholds s); reflexivity.
Qed.

Lemma record_step_again st s b n p t :
  contains String.eqb (index st) s = true ->
  prev_start st = Some p ->
  curr_threshold st = Some t ->
  record_step thresholds st s b n
  = Ok (if t <? b - p
        then mkGen (emit_entry (index st) s (curr_idx st) b (curr_pos st))
                   (curr_pos st + n) (curr_idx st + 1) (Some t) (Some b)
        else skip_step st n).
Proof.
  intros H Hp Ht. unfold record_step, emits, skip_step. rewrite H. cbn [bind].
  rewrite Hp, Ht. cbn [bind].
  destruct (t <? b - p); reflexivity.
Qed.

Lemma index_inv_init : index_inv gzipped thresholds [] gen_init.
Proof.
  repeat split; cbn; try reflexivity. intros s c H. discriminate.
Qed.

Lemma index_inv_skip lines st line :
  index_inv gzipped thresholds lines st ->
  index_fields gzipped line = Ok None ->
  index_inv gzipped thresholds (lines ++ [line]) (skip_step st (len line)).
Proof.
  intros (Hpos & Hkeys & Hblocks & Hcur) Hf.
  assert (Hr : records_of gzipped (lines ++ [line]) = records_of gzipped lines).
  { rewrite records_of_app, records_of_line, Hf. apply app_nil_r. }
  unfold index_inv. rewrite Hr. cbn [skip_step index curr_pos prev_start
                                       curr_idx curr_threshold].
  repeat split.
  - rewrite total_len_app, total_len_cons, Hpos. cbn. lia.
  - exact Hkeys.
  - intros s c H. destruct (Hblocks s c H) as (es & -> & Hb).
    exists es. split; [reflexivity | now apply block_inv_more].
  - exact Hcur.
Qed.

Lemma existsb_rev (s : string) (l : list string) :
  existsb (String.eqb s) (rev l) = existsb (String.eqb s) l.
Proof.
  induction l as [|a l IH]; cbn; [reflexivity|].
  rewrite existsb_app, IH. cbn. rewrite orb_false_r. apply orb_comm.
Qed.

Lemma index_inv_record lines st line s b st' :
  index_inv gzipped thresholds lines st ->
  index_fields gzipped line = Ok (Some (s, b)) ->
  follows (rev (map fst (records_of gzipped lines))) s = true ->
  record_step thresholds st s b (len line) = Ok st' ->
  index_inv gzipped thresholds (lines ++ [line]) st'.
Proof.
  intros (Hpos & Hkeys & Hblocks & Hcur) Hf Hfol Hstep.
  assert (Hr : map fst (records_of gzipped (lines ++ [line]))
               = (map fst (records_of gzipped lines) ++ [s])%list).
  { rewrite records_of_app, records_of_line, Hf, map_app. reflexivity. }
  assert (Hlen : total_len (lines ++ [line]) = curr_pos st + len line).
  { rewrite total_len_app, total_len_cons, Hpos. cbn. lia. }
  assert (Hnew : entry_at gzipped (lines ++ [line]) s b (curr_pos st)).
  { exists lines, line, []. now repeat split. }
  destruct (contains String.eqb (index st) s) eqn:Hc.
  - (* a further record of the current seqid *)
    assert (Hin : existsb (String.eqb s) (map fst (records_of gzipped lines)) = true)
      by now rewrite <- Hkeys.
    unfold follows in Hfol. rewrite existsb_rev, Hin in Hfol.
    cbn [negb] in Hfol. rewrite orb_false_r in Hfol.
    destruct (rev (map fst (records_of gzipped lines))) as [|cur ids] eqn:Hrev;
      [discriminate|].
    apply String.eqb_eq in Hfol. subst cur.
    destruct Hcur as (es & t & Hl & Hidx & Hprev & Hthr & Ht).
    rewrite (record_step_again _ _ _ _ _ _ Hc Hprev Hthr) in Hstep.
    injection Hstep as <-.
    destruct (Hblocks _ _ Hl) as (es0 & He0 & Hb).
    assert (Hes : block_inv gzipped thresholds lines s es).
    { assert (E : es0 = es).
      { unfold container_of in He0. injection He0 as E1 E2.
        apply (f_equal values) in E1, E2. rewrite !values_enum_from in E1, E2.
        clear - E1 E2. revert es0 E1 E2.
        induction es as [|[a p] es IH]; intros [|[a0 p0] es0]; cbn;
          intros E1 E2; try discriminate; [reflexivity|].
        injection E1 as -> E1. injection E2 as -> E2. f_equal. now apply IH. }
      now subst es0. }
    clear es0 He0 Hb.
    destruct (Z.ltb_spec t (b - last (map fst es) 0)) as [Hgap|Hgap].
    + (* it gets an entry *)
      rewrite Hidx, (emit_entry_next _ _ _ _ _ Hl).
      unfold index_inv.
      cbn [index curr_pos prev_start curr_idx curr_threshold].
      rewrite Hr, rev_app_distr. cbn [rev app].
      repeat split.
      * symmetry. exact Hlen.
      * intros s'. rewrite (contains_setitem _ string_eqb_eq), existsb_app, Hkeys.
        cbn [existsb]. rewrite orb_false_r. apply orb_comm.
      * intros s' c. destruct (String.eqb_spec s' s) as [->|Hne].
        -- rewrite (lookup_setitem_same _ string_eqb_eq). intros [= <-].
           exists (es ++ [(b, curr_pos st)])%list. split; [reflexivity|].
           destruct Hes as (Hne & Hall & Hfirst & Hsp & t' & Ht' & Hsg).
           assert (t' = t) by congruence. subst t'.
           repeat split.
           ++ now destruct es.
           ++ apply Forall_app. split.
              ** eapply Forall_impl; [|exact Hall]. intros e. apply entry_at_more.
              ** now constructor.
           ++ intros e es' He. destruct es as [|e0 es0]; [contradiction|].
              injection He as <- _. apply first_entry_at_more.
              eapply Hfirst; reflexivity.
           ++ rewrite map_app. cbn [map snd].
              apply StronglySorted_snoc; [exact Hsp|].
              apply Forall_map. eapply Forall_impl; [|exact Hall].
              intros e He. cbn beta. apply entry_at_before in He. lia.
           ++ exists t. split; [exact Ht|]. rewrite map_app. cbn [map fst].
              apply Sorted_snoc; [exact Hsg|]. intros _. exact Hgap.
        -- rewrite (lookup_setitem_other _ string_eqb_eq) by exact Hne.
           intros H. destruct (Hblocks _ _ H) as (es1 & -> & Hb1).
           exists es1. split; [reflexivity | now apply block_inv_more].
      * exists (es ++ [(b, curr_pos st)])%list, t.
        rewrite (lookup_setitem_same _ string_eqb_eq), length_app, map_app.
        cbn [map fst List.length]. rewrite last_last.
        repeat split; try assumption. lia.
    + (* it gets none *)
      unfold index_inv, skip_step.
      cbn [index curr_pos prev_start curr_idx curr_threshold].
      rewrite Hr, rev_app_distr. cbn [rev app].
      repeat split.
      * symmetry. exact Hlen.
      * intros s'. rewrite existsb_app, Hkeys. cbn [existsb].
        rewrite orb_false_r. destruct (String.eqb_spec s' s) as [->|Hne].
        -- now rewrite Hin.
        -- now rewrite orb_false_r.
      * intros s' c H. destruct (Hblocks _ _ H) as (es1 & -> & Hb1).
        exists es1. split; [reflexivity | now apply block_inv_more].
      * exists es, t. now repeat split.
  - (* the first record of a seqid *)
    assert (Hl : lookup String.eqb (index st) s = None).
    { unfold contains in Hc. now destruct (lookup String.eqb (index st) s). }
    assert (Hnot : ~ In s (map fst (records_of gzipped lines))).
    { intros Hin. rewrite Hkeys in Hc.
      assert (E : existsb (String.eqb s) (map fst (records_of gzipped lines)) = true).
      { apply existsb_exists. exists s. split; [exact Hin | apply String.eqb_refl]. }
      congruence. }
    rewrite (record_step_first _ _ _ _ Hc) in Hstep. unfold getitem in Hstep.
    destruct (lookup String.eqb thresholds s) as [t|] eqn:Ht; [|discriminate].
    cbn [bind] in Hstep. injection Hstep as <-.
    rewrite (emit_entry_new _ _ _ _ Hl).
    unfold index_inv.
    cbn [index curr_pos prev_start curr_idx curr_threshold].
    rewrite Hr, rev_app_distr. cbn [rev app].
    repeat split.
    + symmetry. exact Hlen.
    + intros s'. unfold contains. rewrite (lookup_app String.eqb).
      rewrite existsb_app, <- Hkeys. unfold contains. cbn [lookup existsb].
      destruct (lookup String.eqb (index st) s'); [reflexivity|].
      rewrite orb_false_r. now destruct (String.eqb s' s).
    + intros s' c. rewrite (lookup_app String.eqb).
      destruct (lookup String.eqb (index st) s') as [c'|] eqn:E.
      * intros [= <-]. destruct (Hblocks _ _ E) as (es1 & -> & Hb1).
        exists es1. split; [reflexivity | now apply block_inv_more].
      * cbn [lookup]. destruct (String.eqb_spec s' s) as [->|Hne]; [|discriminate].
        intros [= <-]. exists [(b, curr_pos st)]. split; [reflexivity|].
        repeat split.
        -- discriminate.
        -- now constructor.
        -- intros e es' [= <- _]. exists lines, line, []. now repeat split.
        -- cbn. repeat constructor.
        -- exists t. split; [exact Ht|]. cbn. repeat constructor.
    + exists [(b, curr_pos st)], t.
      rewrite (lookup_app String.eqb), Hl. cbn [lookup]. rewrite String.eqb_refl.
      now repeat split.
Qed.

End IndexPass.

Lemma contiguous_from_app seen a b :
  contiguous_from seen (a ++ b)
  = contiguous_from seen a && contiguous_from (rev a ++ seen) b.
Proof.
  revert seen. induction a as [|x a IH]; intros seen; cbn [app contiguous_from rev].
  - reflexivity.
  - rewrite IH, <- app_assoc, andb_assoc. reflexivity.
Qed.

Lemma gen_index_loop_inv gzipped thresholds lines pre st st' :
  index_inv gzipped thresholds pre st ->
  gen_index_loop thresholds gzipped lines st = Ok st' ->
  contiguous_from (rev (map fst (records_of gzipped pre)))
                  (map fst (records_of gzipped lines)) = true ->
  index_inv gzipped thresholds (pre ++ lines) st'.
Proof.
  revert pre st. induction lines as [|l lines IH]; intros pre st Hinv Hloop Hcont.
  - injection Hloop as <-. now rewrite app_nil_r.
  - cbn [gen_index_loop] in Hloop. rewrite gen_index_step_view in Hloop.
    replace (pre ++ l :: lines)%list with ((pre ++ [l]) ++ lines)%list
      by now rewrite <- app_assoc.
    cbn [records_of] in Hcont.
    destruct (index_fields gzipped l) as [[[s b]|]|e] eqn:Ef; cbn [bind] in Hloop;
      [| |discriminate].
    + destruct (record_step thresholds st s b (len l)) as [st1|e] eqn:Es;
        [|discriminate]. cbn [bind] in Hloop.
      cbn [map fst contiguous_from] in Hcont. apply andb_prop in Hcont.
      destruct Hcont as [Hfol Hcont].
      apply (IH _ st1); [| exact Hloop |].
      * eapply index_inv_record; eassumption.
      * rewrite records_of_app, records_of_line, Ef, map_app, rev_app_distr.
        exact Hcont.
    + apply (IH _ (skip_step st (len l))); [| exact Hloop |].
      * now apply index_inv_skip.
      * rewrite records_of_app, records_of_line, Ef, app_nil_r. exact Hcont.
Qed.

Lemma gen_index_loop_contiguous gzipped thresholds lines st :
  gen_index_loop thresholds gzipped lines gen_init = Ok st ->
  contiguous (records_of gzipped lines) = true ->
  index_inv gzipped thresholds lines st.
Proof.
  intros Hloop Hcont.
  apply (gen_index_loop_inv _ _ lines [] gen_init);
    [apply index_inv_init | exact Hloop | exact Hcont].
Qed.

(** C2, for the files the index is designed for.  When the records read
    so far and the record at hand keep the records of each seqid
    contiguous, the record gets an index entry exactly when it is the first
    of its seqid or its start exceeds the start indexed last by more than
    the threshold of its seqid; otherwise the index is unchanged; in both
    cases the offset advances by the length of the line. *)
Theorem emission_rule_on_contiguous_records
        (gzipped : bool) (thresholds : odict string Z)
        (pre : list pyline) (line : pyline) :
  contiguous (records_of gzipped (pre ++ [line])) = true ->
  emission_rule gzipped thresholds pre line.
Proof.
  intros Hcont st st' s b Hloop Hstep Hf.
  unfold contiguous in Hcont.
  rewrite records_of_app, records_of_line, Hf, map_app, contiguous_from_app in Hcont.
  apply andb_prop in Hcont. destruct Hcont as [Hpre Hline].
  cbn [map fst contiguous_from] in Hline. rewrite app_nil_r, andb_true_r in Hline.
  destruct (gen_index_loop_contiguous _ _ _ _ Hloop Hpre)
    as (Hpos & Hkeys & Hblocks & Hcur).
  rewrite gen_index_step_view, Hf in Hstep. cbn [bind] in Hstep.
  destruct (contains String.eqb (index st) s) eqn:Hc.
  - assert (Hin : existsb (String.eqb s) (map fst (records_of gzipped pre)) = true)
      by now rewrite <- Hkeys.
    unfold follows in Hline. rewrite existsb_rev, Hin in Hline.
    cbn [negb] in Hline. rewrite orb_false_r in Hline.
    destruct (rev (map fst (records_of gzipped pre))) as [|cur ids]; [discriminate|].
    apply String.eqb_eq in Hline. subst cur.
    destruct Hcur as (es & t & Hl & Hidx & Hprev & Hthr & Ht).
    rewrite (record_step_again _ _ _ _ _ _ _ Hc Hprev Hthr) in Hstep.
    injection Hstep as <-.
    assert (Hseen : In s (map fst (records_of gzipped pre))).
    { apply existsb_exists in Hin. destruct Hin as (x & Hx & E).
      apply String.eqb_eq in E. now subst. }
    destruct (Z.ltb_spec t (b - last (map fst es) 0)) as [Hgap|Hgap];
      cbn [index curr_pos skip_step].
    + rewrite Hidx, (emit_entry_next _ _ _ _ _ Hl).
      pose proof (index_size_setitem (index st) s (container_of es)
                    (container_of (es ++ [(b, curr_pos st)])) Hl) as Hsize.
      rewrite !length_container_of, length_app in Hsize. cbn in Hsize.
      repeat split.
      * intros _. right. now exists (last (map fst es) 0), t.
      * intros _. lia.
      * intros H. exfalso. apply H. lia.
    + repeat split.
      * intros H. lia.
      * intros [H|(p & t' & Hp & Ht' & Hlt)]; [contradiction|].
        assert (p = last (map fst es) 0) by congruence.
        assert (t' = t) by congruence. subst. lia.
  - assert (Hl : lookup String.eqb (index st) s = None).
    { unfold contains in Hc. now destruct (lookup String.eqb (index st) s). }
    rewrite (record_step_first _ _ _ _ _ Hc) in Hstep.
    destruct (getitem String.eqb thresholds s) as [t|e]; [|discriminate].
    cbn [bind] in Hstep. injection Hstep as <-. cbn [index curr_pos].
    rewrite (emit_entry_new _ _ _ _ Hl), index_size_app, length_container_of.
    cbn [List.length].
    repeat split.
    + intros _. left. intros Hin.
      assert (E : existsb (String.eqb s) (map fst (records_of gzipped pre)) = true).
      { apply existsb_exists. exists s. split; [exact Hin | apply String.eqb_refl]. }
      rewrite <- Hkeys in E. congruence.
    + intros _. lia.
    + intros H. exfalso. apply H. lia.
Qed.

(** The second record of the three-record file, read after the first. *)
Lemma emission_rule_on_three_records :
  contiguous (records_of false (firstn 2 (text_lines three_records)
                                ++ [Str (record "chr1" "gene" "300" "400" "ID=b")]))
  = true
  /\ emission_rule false [("chr1", 0)]
       (firstn 2 (text_lines three_records))
       (Str (record "chr1" "gene" "300" "400" "ID=b")).
Proof.
  split; [reflexivity|].
  apply (emission_rule_on_contiguous_records false [("chr1", 0)]). reflexivity.
Defined.

(** C2 as stated fails when a seqid comes back after another one: in the
    lines chr1 10, chr1 20, chr2 5, chr1 30 the last record lies 25 past
    the previous start 5, more than its threshold 0, yet [setdefault]
    finds the local index 1 taken in the container of chr1 and adds
    nothing. *)
Lemma emission_rule_fails_on_interleaved_records :
  (exists h, _get_thresholds (text_handle interleaved_file) 0 false
             = Ok ([("chr1", 0); ("chr2", 0)], h))
  /\ text_lines interleaved_file = (interleaved_lines ++ [interleaved_last])%list
  /\ ~ emission_rule false [("chr1", 0); ("chr2", 0)]
         interleaved_lines interleaved_last.
Proof.
  split; [eexists; vm_compute; reflexivity|].
  split; [reflexivity|].
  intros H.
  destruct (H _ _ "chr1" 30 eq_refl eq_refl eq_refl) as ((_ & Hemit) & _).
  assert (Hfar : exists p t : Z,
             Some 5 = Some p /\ Some 0 = Some t /\ t < 30 - p)
    by (exists 5, 0; repeat split; lia).
  specialize (Hemit (or_intror Hfar)). vm_compute in Hemit. discriminate.
Qed.

(** ** The thresholds of a session *)

Lemma dropna_all_zero {A : Type} (f : A -> option Z) (l : list A) :
  (forall i, In i l -> f i = Some 0) ->
  dropna (map f l) = repeat 0 (List.length l).
Proof.
  induction l as [|a l IH]; intros H; cbn; [reflexivity|].
  rewrite (H a) by now left. f_equal. apply IH. intros i Hi. apply H. now right.
Qed.

Lemma zsum_repeat_zero (n : nat) : zsum (repeat 0 n) = 0.
Proof. induction n as [|n IH]; cbn; [reflexivity|]. unfold zsum in IH. now rewrite IH. Qed.

Lemma average_diff_zero (xs : list Z) : xs <> [] -> average_diff xs 0 = Ok 0.
Proof.
  intros Hne. unfold average_diff, series_diff.
  rewrite dropna_all_zero.
  - rewrite length_seq. unfold mean_astype_int.
    destruct xs as [|x xs]; [contradiction|]. cbn [List.length repeat].
    fold (repeat 0 (List.length xs)).
    change (zsum (0 :: repeat 0 (List.length xs)))
      with (0 + zsum (repeat 0 (List.length xs))).
    rewrite zsum_repeat_zero. reflexivity.
  - intros i Hi. apply in_seq in Hi. cbn beta zeta. rewrite Z.sub_0_r.
    destruct (Z.leb_spec 0 (Z.of_nat i)); [|lia].
    destruct (Z.ltb_spec (Z.of_nat i) (Z.of_nat (List.length xs))); [|lia].
    cbn [andb]. rewrite Nat2Z.id. f_equal. lia.
Qed.

Lemma lookup_add_start diffs seqid start s set :
  lookup String.eqb (add_start diffs seqid start) s = Some set ->
  (s <> seqid /\ lookup String.eqb diffs s = Some set)
  \/ (s = seqid /\ exists old, set = OrderedSet.add old start).
Proof.
  unfold add_start.
  destruct (lookup String.eqb (setdefault String.eqb diffs seqid OrderedSet.empty) seqid)
    as [old|] eqn:E.
  - destruct (String.eqb_spec s seqid) as [->|Hne].
    + rewrite (lookup_setitem_same _ string_eqb_eq). intros [= <-].
      right. split; [reflexivity | now exists old].
    + rewrite (lookup_setitem_other _ string_eqb_eq) by exact Hne.
      rewrite (lookup_setdefault _ string_eqb_eq).
      destruct (lookup String.eqb diffs s) eqn:E'.
      * intros [= <-]. now left.
      * rewrite (proj2 (String.eqb_neq s seqid) Hne). discriminate.
  - rewrite (lookup_setdefault _ string_eqb_eq) in E.
    destruct (lookup String.eqb diffs seqid); [discriminate|].
    now rewrite String.eqb_refl in E.
Qed.

Lemma ordered_set_add_not_empty (old : OrderedSet.t) (x : Z) :
  OrderedSet.add old x <> [].
Proof.
  unfold OrderedSet.add. destruct (OrderedSet.mem x old) eqn:E.
  - destruct old; [discriminate | easy].
  - now destruct old.
Qed.

Lemma get_thresholds_loop_not_empty lines gzipped diffs diffs' :
  (forall s set, lookup String.eqb diffs s = Some set -> set <> []) ->
  get_thresholds_loop lines gzipped diffs = Ok diffs' ->
  forall s set, lookup String.eqb diffs' s = Some set -> set <> [].
Proof.
  revert diffs. induction lines as [|l lines IH]; intros diffs Hd.
  - now intros [= <-].
  - rewrite get_thresholds_loop_view.
    destruct (threshold_fields gzipped l) as [[[seqid start]|]|e]; cbn [bind];
      [| now apply IH | discriminate].
    apply IH. intros s set H. apply lookup_add_start in H.
    destruct H as [[_ H]|[_ [old ->]]];
      [now apply (Hd s) | apply ordered_set_add_not_empty].
Qed.

Lemma thresholds_at_period_0 h gzipped thresholds h' s t :
  _get_thresholds h 0 gzipped = Ok (thresholds, h') ->
  lookup String.eqb thresholds s = Some t -> t = 0.
Proof.
  unfold _get_thresholds.
  destruct (get_thresholds_loop _ gzipped []) as [diffs|e] eqn:E; [|discriminate].
  cbn [bind].
  destruct (_get_average_diffs diffs 0) as [table|e] eqn:Ea; [|discriminate].
  cbn [bind]. intros [= <- _] Ht.
  assert (Hl := lookup_average_diffs _ _ _ s Ea).
  destruct (lookup String.eqb diffs s) as [set|] eqn:El; [|congruence].
  destruct Hl as (v & Hv & Hl). rewrite average_diff_zero in Hv.
  - congruence.
  - eapply (get_thresholds_loop_not_empty _ _ [] diffs); [|exact E|exact El].
    intros s' set' H. discriminate.
Qed.

(** What a session is made of: only a plain file opens, its thresholds
    are all 0, and its index is the one the index pass leaves. *)
Lemma init_ok (filename : disk_file) (period : Z) (g : GffFile) :
  GffFile.__init__ filename period = Ok g ->
  exists text thresholds st,
    filename = PlainFile text
    /\ (forall s t, lookup String.eqb thresholds s = Some t -> t = 0)
    /\ gen_index_loop thresholds false (text_lines text) gen_init = Ok st
    /\ g = mkGffFile (mkHandle text false []) (index st).
Proof.
  destruct filename as [text|text]; [|intros H; now apply gzip_never_opens in H].
  unfold GffFile.__init__.
  destruct (_is_zipped (PlainFile text)) as [[|]|e]; cbn [bind]; try discriminate.
  cbn [open_text bind].
  destruct (_is_version_3 (PlainFile text) false) as [[|]|e]; cbn [bind negb];
    try discriminate.
  unfold _gen_index. cbn [Z.b2z].
  destruct (_get_thresholds (mkHandle text false (lines_of text)) 0 false)
    as [[thresholds h]|e] eqn:Et; cbn [bind]; [|discriminate].
  assert (Hh : h = mkHandle text false (lines_of text)).
  { unfold _get_thresholds in Et.
    destruct (get_thresholds_loop _ false []) as [diffs|e]; [|discriminate].
    cbn [bind] in Et.
    destruct (_get_average_diffs diffs 0); [|discriminate].
    cbn [bind] in Et. now injection Et as _ <-. }
  subst h.
  change (handle_lines (mkHandle text false (lines_of text))) with (text_lines text).
  destruct (gen_index_loop thresholds false (text_lines text) gen_init)
    as [st|e] eqn:El; cbn [bind]; [|discriminate].
  intros [= <-]. exists text, thresholds, st. repeat split; try assumption.
  intros s t. now apply (thresholds_at_period_0 _ _ _ _ s t Et).
Qed.

(** ** Monotonicity of the index *)

Lemma StronglySorted_nth (l : list Z) (i j : nat) (a b : Z) :
  StronglySorted Z.lt l -> (i < j)%nat ->
  nth_error l i = Some a -> nth_error l j = Some b -> a < b.
Proof.
  intros Hs. revert i j. induction Hs as [|x l Hs IH Hall]; intros i j Hij Hi Hj.
  - now destruct i.
  - destruct j as [|j]; [lia|]. cbn in Hj. destruct i as [|i]; cbn in Hi.
    + injection Hi as <-. apply nth_error_In in Hj.
      rewrite Forall_forall in Hall. now apply Hall.
    + apply (IH i j); [lia | assumption | assumption].
Qed.

Lemma increasing_enum_from (l : list Z) :
  StronglySorted Z.lt l -> increasing (enum_from 0 l).
Proof.
  intros Hs i j a b Hij. rewrite !lookup_enum_from, !Z.sub_0_r.
  destruct (Z.leb_spec 0 i); [|discriminate].
  destruct (Z.leb_spec 0 j); [|discriminate].
  apply (StronglySorted_nth l); [assumption | lia].
Qed.

Lemma numbered_enum_from (l : list Z) : numbered (enum_from 0 l).
Proof.
  unfold numbered. rewrite keys_enum_from, length_enum_from.
  apply map_ext. intros n. lia.
Qed.

Lemma Sorted_gap_lt (t : Z) (l : list Z) :
  0 <= t -> Sorted (gap t) l -> StronglySorted Z.lt l.
Proof.
  intros Ht Hs. apply Sorted_StronglySorted; [intros x y z; lia|].
  induction Hs as [|a l Hs IH Hd]; constructor; [assumption|].
  destruct Hd as [|b l' Hab]; constructor. unfold gap in Hab. lia.
Qed.

(** C3.  In the index of a session on a file whose records of each seqid
    are contiguous, every seqid has its entries under the local indices
    0, 1, 2, ..., the same in [start] and [pos]; the starts and the
    offsets grow strictly with the local index; and entry 0 holds the
    start and the offset of the first record of the seqid in the file.
    Ascending starts in the file are not needed for this. *)
Theorem index_grows_with_local_index
        (filename : disk_file) (period : Z) (g : GffFile) :
  GffFile.__init__ filename period = Ok g ->
  contiguous (records_of false (text_lines (file_text filename))) = true ->
  forall s c,
    lookup String.eqb (_index g) s = Some c ->
    numbered (c_start c) /\ numbered (c_pos c)
    /\ keys (c_start c) = keys (c_pos c)
    /\ increasing (c_start c) /\ increasing (c_pos c)
    /\ exists b p,
        lookup Z.eqb (c_start c) 0 = Some b
        /\ lookup Z.eqb (c_pos c) 0 = Some p
        /\ first_entry_at false (text_lines (file_text filename)) s b p.
Proof.
  intros Hinit Hcont s c Hl.
  destruct (init_ok _ _ _ Hinit) as (text & thresholds & st & -> & Hzero & Hloop & ->).
  cbn [file_text] in Hcont. cbn [_index] in Hl.
  destruct (gen_index_loop_contiguous _ _ _ _ Hloop Hcont)
    as (_ & _ & Hblocks & _).
  destruct (Hblocks _ _ Hl) as (es & -> & Hne & Hall & Hfirst & Hpos & t & Ht & Hgap).
  apply Hzero in Ht. subst t.
  unfold container_of. cbn [c_start c_pos file_text].
  repeat split.
  - apply numbered_enum_from.
  - apply numbered_enum_from.
  - rewrite !keys_enum_from, !length_map. reflexivity.
  - apply increasing_enum_from. now apply (Sorted_gap_lt 0).
  - now apply increasing_enum_from.
  - destruct es as [|[b p] es]; [contradiction|].
    exists b, p. repeat split. now apply (Hfirst (b, p) es).
Qed.

(** The index of the file with chr1 and chr2. *)
Lemma index_of_two_sequences_grows :
  exists g,
    GffFile.__init__ (PlainFile two_sequences) 3 = Ok g
    /\ contiguous (records_of false (text_lines two_sequences)) = true
    /\ forall s c,
        lookup String.eqb (_index g) s = Some c ->
        numbered (c_start c) /\ numbered (c_pos c)
        /\ keys (c_start c) = keys (c_pos c)
        /\ increasing (c_start c) /\ increasing (c_pos c)
        /\ exists b p,
            lookup Z.eqb (c_start c) 0 = Some b
            /\ lookup Z.eqb (c_pos c) 0 = Some p
            /\ first_entry_at false (text_lines two_sequences) s b p.
Proof.
  eexists. split; [vm_compute; reflexivity|]. split; [reflexivity|].
  apply (index_grows_with_local_index (PlainFile two_sequences) 3);
    reflexivity.
Defined.

(** ** The loop of [fetch] *)

Lemma next_loop_comment (l : string) (rest : list string) :
  startswith_hash l = true ->
  GffFile.next_loop false (l :: rest) = GffFile.next_loop false rest.
Proof. intros H. cbn. now rewrite H. Qed.

Lemma next_loop_record (l : string) (rest : list string) :
  startswith_hash l = false ->
  GffFile.next_loop false (l :: rest)
  = (e <- Entry.__init__ l ;; Ok (AnEntry e), rest).
Proof. intros H. cbn. now rewrite H. Qed.

Lemma fetch_loop_scan (fuel : nat) (text : string) (unread : list string)
      (idx : index_t) seqid start end_ type :
  (List.length unread < fuel)%nat ->
  GffFile.fetch_loop fuel (mkGffFile (mkHandle text false unread) idx)
                     seqid start end_ type
  = Some (let '(ys, fin, remaining) := fetch_scan unread seqid start end_ type in
          (ys, fin, mkGffFile (mkHandle text false remaining) idx)).
Proof.
  revert unread. induction fuel as [|fuel IHf]; intros unread Hlen; [lia|].
  induction unread as [|l rest IHu].
  - reflexivity.
  - cbn [List.length] in Hlen.
    destruct (startswith_hash l) eqn:Hh.
    + cbn [fetch_scan]. rewrite Hh. rewrite <- IHu by lia.
      cbn [GffFile.fetch_loop]. unfold GffFile.__next__.
      cbn [_handle unread binary data _index].
      now rewrite (next_loop_comment _ _ Hh).
    + cbn [fetch_scan GffFile.fetch_loop]. rewrite Hh. unfold GffFile.__next__.
      cbn [_handle unread binary data _index].
      rewrite (next_loop_record _ _ Hh).
      destruct (Entry.__init__ l) as [entry|e]; cbn [bind]; [|reflexivity].
      destruct (GffFile.fetch_body (AnEntry entry) seqid start end_ type)
        as [[| |y]|e]; try reflexivity.
      * apply IHf. lia.
      * rewrite IHf by lia.
        destruct (fetch_scan rest seqid start end_ type) as [[ys fin] remaining].
        reflexivity.
Qed.

Lemma fetch_body_yield (e y : GffEntry) seqid start end_ type :
  GffFile.fetch_body (AnEntry e) seqid start end_ type = Ok (GffFile.Yield y) ->
  y = e /\ matches seqid start end_ type e = true.
Proof.
  unfold GffFile.fetch_body, matches.
  destruct (Entry.seqid e) as [s|x]; cbn [bind]; [|discriminate].
  destruct (String.eqb s seqid).
  - destruct (Entry.end_ e) as [n|x]; cbn [bind]; [|discriminate].
    destruct (Z.ltb_spec n start); [discriminate|].
    destruct (Entry.start e) as [b|x]; cbn [bind]; [|discriminate].
    destruct (Z.leb_spec end_ b); [discriminate|].
    destruct (Z.leb_spec start n); [|lia].
    destruct (Z.ltb_spec b end_); [|lia]. cbn [andb].
    destruct type as [ty|].
    + destruct (Entry.type e) as [t|x]; cbn [bind]; [|discriminate].
      destruct (String.eqb t ty); cbn [negb]; [|discriminate].
      now intros [= <-].
    + now intros [= <-].
  - destruct (String.ltb s seqid); discriminate.
Qed.

Lemma fetch_scan_sound (lines : list string) seqid start end_ type :
  Forall (fun e => matches seqid start end_ type e = true)
         (fst (fst (fetch_scan lines seqid start end_ type))).
Proof.
  induction lines as [|l rest IH]; cbn [fetch_scan]; [constructor|].
  destruct (startswith_hash l); [exact IH|].
  destruct (Entry.__init__ l) as [entry|e]; [|constructor].
  destruct (GffFile.fetch_body (AnEntry entry) seqid start end_ type)
    as [[| |y]|e] eqn:Eb; try constructor; [exact IH|].
  apply fetch_body_yield in Eb. destruct Eb as [-> Hm].
  destruct (fetch_scan rest seqid start end_ type) as [[ys fin] remaining].
  cbn [fst] in *. now constructor.
Qed.

(** ** Seeking to a line *)

Lemma skip_chars_add (a b : nat) (s : string) :
  skip_chars (a + b) s = skip_chars b (skip_chars a s).
Proof.
  revert s. induction a as [|a IH]; intros s; cbn [Nat.add skip_chars].
  - now destruct s.
  - destruct s as [|c s]; [now destruct b | apply IH].
Qed.

Lemma lines_of_first (s l : string) (ls : list string) :
  lines_of s = l :: ls -> lines_of (skip_chars (String.length l) s) = ls.
Proof.
  revert l ls. induction s as [|c s IH]; intros l ls; cbn [lines_of]; [discriminate|].
  destruct (Ascii.eqb c LF).
  - intros [= <- <-]. reflexivity.
  - destruct (lines_of s) as [|l0 ls0] eqn:E.
    + intros [= <- <-]. cbn. now destruct s.
    + intros [= <- <-]. cbn [String.length skip_chars]. now apply IH.
Qed.

Lemma bytes_of_cons (l : string) (ls : list string) :
  bytes_of (l :: ls) = Z.of_nat (String.length l) + bytes_of ls.
Proof. reflexivity. Qed.

Lemma bytes_of_nonneg (ls : list string) : 0 <= bytes_of ls.
Proof. apply total_len_nonneg. Qed.

Lemma lines_of_seek (s : string) (pre rest : list string) :
  lines_of s = (pre ++ rest)%list ->
  lines_of (skip_chars (Z.to_nat (bytes_of pre)) s) = rest.
Proof.
  revert s. induction pre as [|l pre IH]; intros s H.
  - cbn. now destruct s.
  - cbn [app] in H. apply lines_of_first in H. apply IH in H.
    rewrite bytes_of_cons. pose proof (bytes_of_nonneg pre).
    rewrite Z2Nat.inj_add, Nat2Z.id, skip_chars_add by lia. exact H.
Qed.

(** ** Well-formed lines *)

Lemma unpack_star_last_app (parts fs : list string) (a : string) :
  unpack_star_last parts = Some (fs, a) -> parts = (fs ++ [a])%list.
Proof.
  revert fs. induction parts as [|p ps IH]; intros fs; cbn; [discriminate|].
  destruct ps as [|p' ps'].
  - now intros [= <- <-].
  - destruct (unpack_star_last (p' :: ps')) as [[fs' l]|]; [|discriminate].
    intros [= <- <-]. cbn. f_equal. now apply IH.
Qed.

Lemma well_formed_fields (l : string) :
  well_formed_line l = true -> startswith_hash l = false ->
  exists e s t b n,
    Entry.__init__ l = Ok e
    /\ Entry.seqid e = Ok s /\ Entry.type e = Ok t
    /\ Entry.start e = Ok b /\ Entry.end_ e = Ok n
    /\ index_fields false (Str l) = Ok (Some (s, b)).
Proof.
  unfold well_formed_line. intros H Hh. rewrite Hh in H. cbn [orb] in H.
  destruct (Entry.__init__ l) as [e|x] eqn:Einit; [|discriminate].
  destruct (Entry.seqid e) as [s|x] eqn:Es; [|discriminate].
  destruct (Entry.type e) as [t|x] eqn:Et; [|discriminate].
  destruct (Entry.start e) as [b|x] eqn:Eb; [|discriminate].
  destruct (Entry.end_ e) as [n|x] eqn:En; [|discriminate].
  exists e, s, t, b, n. repeat split; try assumption.
  assert (He : is_empty (Str l) = false).
  { destruct l; [vm_compute in Einit; discriminate | reflexivity]. }
  unfold index_fields. cbn [bind startswith]. rewrite Hh, He.
  cbn [orb bind strip_split_tab].
  unfold Entry.__init__ in Einit.
  destruct (unpack_star_last (split TAB (strip l))) as [[fs a]|] eqn:Eu;
    [|discriminate].
  apply unpack_star_last_app in Eu. rewrite Eu.
  destruct (_parse_attrs a) as [attrs|x]; [|discriminate].
  cbn [bind] in Einit. injection Einit as <-.
  unfold Entry.seqid, Entry.start, Entry.feature in Es, Eb. cbn [_features] in Es, Eb.
  unfold item.
  destruct (nth_error fs 0) as [s0|] eqn:E0; [|discriminate]. injection Es as ->.
  destruct (nth_error fs 3) as [f|] eqn:E3; [|discriminate]. cbn [bind] in Eb.
  rewrite (nth_error_app1 fs [a]) by (apply nth_error_Some; congruence).
  rewrite E0. cbn [bind].
  rewrite (nth_error_app1 fs [a]) by (apply nth_error_Some; congruence).
  rewrite E3. cbn [bind]. rewrite Eb. reflexivity.
Qed.

Lemma comment_fields (l : string) :
  startswith_hash l = true -> index_fields false (Str l) = Ok None.
Proof. intros H. unfold index_fields. cbn. now rewrite H. Qed.

(** ** Contiguous and sorted records *)

Lemma contiguous_from_left (q : string) (seen ids : list string) :
  contiguous_from seen ids = true ->
  existsb (String.eqb q) seen = true ->
  hd_error seen <> Some q ->
  ~ In q ids.
Proof.
  revert seen. induction ids as [|s ids IH]; intros seen Hc Hin Hhd; [easy|].
  cbn [contiguous_from] in Hc. apply andb_prop in Hc. destruct Hc as [Hf Hc].
  intros [->|Hq].
  - unfold follows in Hf. rewrite Hin in Hf. cbn [negb] in Hf.
    rewrite orb_false_r in Hf. destruct seen as [|p seen]; [discriminate|].
    apply String.eqb_eq in Hf. subst p. now apply Hhd.
  - apply (IH (s :: seen)); try assumption.
    + cbn [existsb]. rewrite Hin. apply orb_true_r.
    + cbn. intros [= ->]. unfold follows in Hf. rewrite Hin in Hf.
      cbn [negb] in Hf. rewrite orb_false_r in Hf.
      destruct seen as [|p seen]; [discriminate|].
      apply String.eqb_eq in Hf. subst p. now apply Hhd.
Qed.

Lemma sorted_from_app seen a b :
  sorted_from seen (a ++ b)
  = sorted_from seen a && sorted_from (rev a ++ seen) b.
Proof.
  revert seen. induction a as [|[s x] a IH]; intros seen; cbn [app sorted_from rev].
  - reflexivity.
  - rewrite IH, <- app_assoc, andb_assoc. reflexivity.
Qed.

Lemma sorted_from_later (seen recs : list (string * Z)) (s : string) (b b' : Z) :
  sorted_from seen recs = true ->
  In (s, b) seen -> In (s, b') recs -> b <= b'.
Proof.
  revert seen. induction recs as [|[s0 b0] recs IH]; intros seen Hs Hin Hin'; [easy|].
  cbn [sorted_from] in Hs. apply andb_prop in Hs. destruct Hs as [Hall Hs].
  destruct Hin' as [[= -> ->]|Hin'].
  - rewrite forallb_forall in Hall. specialize (Hall _ Hin). cbn [fst snd] in Hall.
    rewrite String.eqb_refl in Hall. cbn in Hall. now apply Z.leb_le.
  - apply (IH ((s0, b0) :: seen)); [assumption | now right | assumption].
Qed.

(** ** What the loop of [fetch] yields *)

Lemma line_records_comment (l : string) (ls : list string) :
  startswith_hash l = true -> line_records (l :: ls) = line_records ls.
Proof.
  intros H. unfold line_records. cbn [map records_of].
  now rewrite (comment_fields _ H).
Qed.

Lemma line_records_record (l : string) (ls : list string) (s : string) (b : Z) :
  index_fields false (Str l) = Ok (Some (s, b)) ->
  line_records (l :: ls) = (s, b) :: line_records ls.
Proof. intros H. unfold line_records. cbn [map records_of]. now rewrite H. Qed.

Lemma fetch_body_fields (e : GffEntry) (s t : string) (b n : Z)
      seqid start end_ type :
  Entry.seqid e = Ok s -> Entry.type e = Ok t ->
  Entry.start e = Ok b -> Entry.end_ e = Ok n ->
  GffFile.fetch_body (AnEntry e) seqid start end_ type
  = Ok (if String.eqb s seqid then
          if n <? start then GffFile.Continue
          else if end_ <=? b then GffFile.Break
          else match type with
               | Some ty =>
                   if String.eqb t ty then GffFile.Yield e else GffFile.Continue
               | None => GffFile.Yield e
               end
        else if String.ltb s seqid then GffFile.Continue else GffFile.Break)
  /\ matches seqid start end_ type e
     = String.eqb s seqid && (start <=? n) && (b <? end_)
       && match type with None => true | Some ty => String.eqb t ty end.
Proof.
  intros Hs Ht Hb Hn. unfold GffFile.fetch_body, matches.
  rewrite Hs, Hb, Hn, Ht. cbn [bind]. split.
  - destruct (String.eqb s seqid).
    + destruct (n <? start); [reflexivity|].
      destruct (end_ <=? b); [reflexivity|].
      destruct type as [ty|]; [|reflexivity].
      now destruct (String.eqb t ty).
    + now destruct (String.ltb s seqid).
  - reflexivity.
Qed.

Lemma scan_without (lines : list string) seqid start end_ type :
  forallb well_formed_line lines = true ->
  ~ In seqid (map fst (line_records lines)) ->
  fst (fst (fetch_scan lines seqid start end_ type)) = []
  /\ filter (matches seqid start end_ type) (entries_of lines) = [].
Proof.
  induction lines as [|l rest IH]; intros Hwf Hnot; [now split|].
  cbn [forallb] in Hwf. apply andb_prop in Hwf. destruct Hwf as [Hl Hwf].
  cbn [fetch_scan entries_of].
  destruct (startswith_hash l) eqn:Hh.
  - rewrite (line_records_comment _ _ Hh) in Hnot. now apply IH.
  - destruct (well_formed_fields _ Hl Hh)
      as (e & s & t & b & n & Hinit & Hs & Ht & Hb & Hn & Hf).
    rewrite (line_records_record _ _ _ _ Hf) in Hnot. cbn [map fst In] in Hnot.
    assert (Hne : String.eqb s seqid = false).
    { apply String.eqb_neq. intros ->. apply Hnot. now left. }
    assert (Hrest : ~ In seqid (map fst (line_records rest))).
    { intros H. apply Hnot. now right. }
    destruct (IH Hwf Hrest) as [IH1 IH2].
    destruct (fetch_body_fields e s t b n seqid start end_ type Hs Ht Hb Hn)
      as [Hbody Hm].
    rewrite Hne in Hbody, Hm. cbn [andb] in Hm.
    rewrite Hinit, Hbody. cbn [filter]. rewrite Hm.
    split; [|exact IH2].
    now destruct (String.ltb s seqid).
Qed.

Lemma filter_past_end (lines : list string) seqid start end_ type :
  forallb well_formed_line lines = true ->
  (forall b, In (seqid, b) (line_records lines) -> end_ <= b) ->
  filter (matches seqid start end_ type) (entries_of lines) = [].
Proof.
  induction lines as [|l rest IH]; intros Hwf Hpast; [reflexivity|].
  cbn [forallb] in Hwf. apply andb_prop in Hwf. destruct Hwf as [Hl Hwf].
  cbn [entries_of].
  destruct (startswith_hash l) eqn:Hh.
  - rewrite (line_records_comment _ _ Hh) in Hpast. now apply IH.
  - destruct (well_formed_fields _ Hl Hh)
      as (e & s & t & b & n & Hinit & Hs & Ht & Hb & Hn & Hf).
    rewrite (line_records_record _ _ _ _ Hf) in Hpast.
    rewrite Hinit. cbn [filter].
    destruct (fetch_body_fields e s t b n seqid start end_ type Hs Ht Hb Hn)
      as [_ Hm].
    assert (Hno : matches seqid start end_ type e = false).
    { rewrite Hm. destruct (String.eqb_spec s seqid) as [->|]; [|reflexivity].
      assert (end_ <= b) by (apply Hpast; now left).
      destruct (Z.ltb_spec b end_); [lia|].
      cbn. now rewrite andb_false_r. }
    rewrite Hno. apply IH; [exact Hwf|].
    intros b' H. apply Hpast. now right.
Qed.

Lemma fetch_scan_complete (lines : list string) seqid start end_ type
      (seen : list string) (before : list (string * Z)) :
  forallb well_formed_line lines = true ->
  contiguous_from seen (map fst (line_records lines)) = true ->
  sorted_from before (line_records lines) = true ->
  hd_error seen = Some seqid
  \/ hd_error (map fst (line_records lines)) = Some seqid ->
  fst (fst (fetch_scan lines seqid start end_ type))
  = filter (matches seqid start end_ type) (entries_of lines).
Proof.
  revert seen before.
  induction lines as [|l rest IH]; intros seen before Hwf Hc Hs Hblock;
    [reflexivity|].
  cbn [forallb] in Hwf. apply andb_prop in Hwf. destruct Hwf as [Hl Hwf].
  cbn [fetch_scan entries_of].
  destruct (startswith_hash l) eqn:Hh.
  - rewrite (line_records_comment _ _ Hh) in Hc, Hs, Hblock.
    now apply (IH seen before).
  - destruct (well_formed_fields _ Hl Hh)
      as (e & s & t & b & n & Hinit & Hes & Het & Heb & Hen & Hf).
    rewrite (line_records_record _ _ _ _ Hf) in Hc, Hs, Hblock.
    cbn [map fst contiguous_from] in Hc. apply andb_prop in Hc.
    destruct Hc as [Hfol Hc].
    cbn [sorted_from] in Hs. apply andb_prop in Hs. destruct Hs as [_ Hs].
    destruct (fetch_body_fields e s t b n seqid start end_ type Hes Het Heb Hen)
      as [Hbody Hm].
    rewrite Hinit, Hbody. cbn [filter]. rewrite Hm.
    destruct (String.eqb_spec s seqid) as [->|Hne]; cbn [andb].
    + (* a record of the seqid asked for *)
      assert (IHrest : fst (fst (fetch_scan rest seqid start end_ type))
                       = filter (matches seqid start end_ type) (entries_of rest)).
      { apply (IH (seqid :: seen) ((seqid, b) :: before)); try assumption.
        now left. }
      destruct (Z.ltb_spec n start) as [Hlt|Hge].
      * destruct (Z.leb_spec start n); [lia|]. cbn [andb]. exact IHrest.
      * destruct (Z.leb_spec start n); [|lia]. cbn [andb].
        destruct (Z.leb_spec end_ b) as [Hpast|Hin].
        -- destruct (Z.ltb_spec b end_); [lia|]. cbn [andb fst].
           symmetry. apply filter_past_end; [exact Hwf|].
           intros b' Hb'. apply Z.le_trans with b; [exact Hpast|].
           apply (sorted_from_later _ _ seqid b b' Hs); [now left | exact Hb'].
        -- destruct (Z.ltb_spec b end_); [|lia]. cbn [andb].
           destruct type as [ty|].
           ++ destruct (String.eqb t ty); [|exact IHrest].
              destruct (fetch_scan rest seqid start end_ (Some ty))
                as [[ys fin] remaining].
              cbn [fst] in *. now rewrite IHrest.
           ++ destruct (fetch_scan rest seqid start end_ None)
                as [[ys fin] remaining].
              cbn [fst] in *. now rewrite IHrest.
    + (* a record of another seqid: the block of the seqid is over *)
      assert (Hseen : hd_error seen = Some seqid).
      { destruct Hblock as [H|H]; [exact H|]. cbn in H. congruence. }
      assert (Hgone : ~ In seqid (map fst (line_records rest))).
      { apply (contiguous_from_left seqid (s :: seen)); [exact Hc | |].
        - cbn [existsb]. destruct seen as [|p seen']; [discriminate|].
          injection Hseen as ->. cbn [existsb]. rewrite String.eqb_refl.
          now rewrite orb_true_r.
        - cbn. congruence. }
      destruct (scan_without rest seqid start end_ type Hwf Hgone) as [H1 H2].
      rewrite H2. now destruct (String.ltb s seqid).
Qed.

(** ** [bisect_right] on increasing values *)

Lemma sorted_nth_le (a : list Z) (i j : nat) :
  StronglySorted Z.lt a -> (i <= j < List.length a)%nat ->
  nth i a 0 <= nth j a 0.
Proof.
  intros Hs [Hij Hj]. destruct (Nat.eq_dec i j) as [->|Hne]; [lia|].
  apply Z.lt_le_incl. apply (StronglySorted_nth a i j); [assumption | lia | |];
    apply nth_error_nth'; lia.
Qed.

Lemma bisect_loop_spec (fuel : nat) (a : list Z) (x : Z) (lo hi : nat) :
  StronglySorted Z.lt a ->
  (lo <= hi <= List.length a)%nat -> (hi - lo <= fuel)%nat ->
  (forall k, (k < lo)%nat -> nth k a 0 <= x) ->
  (forall k, (hi <= k < List.length a)%nat -> x < nth k a 0) ->
  let i := bisect_loop fuel a x lo hi in
  (i <= List.length a)%nat
  /\ (forall k, (k < i)%nat -> nth k a 0 <= x)
  /\ (forall k, (i <= k < List.length a)%nat -> x < nth k a 0).
Proof.
  intros Hs. revert lo hi.
  induction fuel as [|fuel IH]; intros lo hi Hb Hf Hlo Hhi; cbn [bisect_loop].
  - assert (lo = hi) by lia. subst. repeat split; [lia | exact Hlo | exact Hhi].
  - destruct (Nat.ltb_spec lo hi) as [Hlt|Hge].
    + assert (Hmid : (lo <= (lo + hi) / 2 < hi)%nat).
      { split; [apply Nat.div_le_lower_bound; lia
               | apply Nat.Div0.div_lt_upper_bound; lia]. }
      destruct (Z.ltb_spec x (nth ((lo + hi) / 2) a 0)) as [Hx|Hx].
      * apply IH; [lia | lia | exact Hlo |].
        intros k Hk. apply Z.lt_le_trans with (nth ((lo + hi) / 2) a 0);
          [exact Hx | apply sorted_nth_le; [exact Hs | lia]].
      * apply IH; [lia | lia | | exact Hhi].
        intros k Hk. apply Z.le_trans with (nth ((lo + hi) / 2) a 0);
          [apply sorted_nth_le; [exact Hs | lia] | exact Hx].
    + assert (lo = hi) by lia. subst. repeat split; [lia | exact Hlo | exact Hhi].
Qed.

Lemma bisect_right_spec (a : list Z) (x : Z) :
  StronglySorted Z.lt a ->
  (bisect_right a x <= List.length a)%nat
  /\ (forall k, (k < bisect_right a x)%nat -> nth k a 0 <= x)
  /\ (forall k, (bisect_right a x <= k < List.length a)%nat -> x < nth k a 0).
Proof.
  intros Hs. unfold bisect_right.
  apply (bisect_loop_spec (S (List.length a)) a x 0 (List.length a) Hs);
    [lia | lia | intros k Hk; lia | intros k Hk; lia].
Qed.

(** [_find_le] on a container with increasing starts: the offset of the
    entry whose start is the greatest one not above [start]. *)
Lemma find_le_spec (es : list (Z * Z)) (start offset : Z) :
  StronglySorted Z.lt (map fst es) ->
  _find_le (container_of es) start = Ok offset ->
  exists b,
    In (b, offset) es /\ b <= start
    /\ forall b', In b' (map fst es) -> b' <= start -> b' <= b.
Proof.
  intros Hs. unfold _find_le, container_of. cbn [c_start c_pos].
  rewrite values_enum_from.
  destruct (bisect_right_spec (map fst es) start Hs) as (Hlen & Hle & Hgt).
  destruct (bisect_right (map fst es) start) as [|i] eqn:Ei; [discriminate|].
  unfold getitem. rewrite lookup_enum_from.
  destruct (Z.leb_spec 0 (Z.of_nat (S i) - 1)); [|lia].
  replace (Z.to_nat (Z.of_nat (S i) - 1 - 0)) with i by lia.
  rewrite length_map in Hlen, Hgt.
  destruct (nth_error es i) as [[b p]|] eqn:En.
  2: { apply nth_error_None in En. lia. }
  rewrite (map_nth_error snd _ _ En). cbn [snd]. intros [= <-].
  exists b. split; [now apply nth_error_In in En|].
  assert (Hb : nth i (map fst es) 0 = b).
  { apply nth_error_nth. now rewrite (map_nth_error fst _ _ En). }
  split.
  - rewrite <- Hb. apply Hle. lia.
  - intros b' Hin Hb'. apply In_nth with (d := 0) in Hin.
    destruct Hin as (k & Hk & <-). rewrite length_map in Hk.
    destruct (Nat.le_gt_cases k i) as [Hki|Hki].
    + rewrite <- Hb. apply sorted_nth_le; [exact Hs | rewrite length_map; lia].
    + specialize (Hgt k). lia.
Qed.

(** ** [fetch] on a session *)

Lemma entry_at_text (text : string) (s : string) (b p : Z) :
  entry_at false (text_lines text) s b p ->
  exists pre l post,
    lines_of text = (pre ++ l :: post)%list
    /\ index_fields false (Str l) = Ok (Some (s, b))
    /\ p = bytes_of pre.
Proof.
  intros (pre' & line & post' & Hsplit & Hf & <-).
  unfold text_lines in Hsplit. apply map_eq_app in Hsplit.
  destruct Hsplit as (pre & rest & Hl & <- & Hrest).
  apply map_eq_cons in Hrest. destruct Hrest as (l & post & -> & <- & <-).
  now exists pre, l, post.
Qed.

Lemma line_records_app (a b : list string) :
  line_records (a ++ b) = (line_records a ++ line_records b)%list.
Proof. unfold line_records. now rewrite map_app, records_of_app. Qed.

Lemma fetch_runs (text : string) (cursor : list string) (idx : index_t)
      seqid start end_ type :
  exists ys fin self',
    GffFile.fetch (mkGffFile (mkHandle text false cursor) idx)
                  seqid start end_ type = Some (ys, fin, self')
    /\ Forall (fun e => matches seqid start end_ type e = true) ys
    /\ data (_handle self') = text /\ binary (_handle self') = false
    /\ _index self' = idx.
Proof.
  unfold GffFile.fetch. cbn [_index _handle].
  destruct (getitem String.eqb idx seqid) as [c|e].
  2: { do 3 eexists. split; [reflexivity|]. now repeat split. }
  destruct (_find_le c start) as [offset|e].
  2: { do 3 eexists. split; [reflexivity|]. now repeat split. }
  unfold seek. cbn [data binary unread].
  rewrite fetch_loop_scan by lia.
  pose proof (fetch_scan_sound
                (lines_of (skip_chars (Z.to_nat offset) text))
                seqid start end_ type) as Hsound.
  destruct (fetch_scan _ seqid start end_ type) as [[ys fin] remaining].
  do 3 eexists. split; [reflexivity|]. now repeat split.
Qed.

(** C1, as the code has it.  The file is a text of ASCII characters with
    LF line ends, where the offsets that the index counted in characters
    are the offsets in bytes that [seek] takes.  On a session on it and on
    every later state of the session, a run of [fetch] ends and yields
    only entries of the seqid asked for whose interval meets the region
    and whose type is the one asked for.  When the records of each seqid
    are contiguous and sorted by start and every line decodes, a [fetch]
    that finds its offset seeks to the record whose start is the greatest
    indexed start not above [start], and yields, in file order, exactly
    the matching records among that record and the ones after it. *)
Theorem fetch_yields_matches_from_seek
        (filename : disk_file) (period : Z) (g self : GffFile)
        (seqid : string) (start end_ : Z) (type : option string) :
  GffFile.__init__ filename period = Ok g ->
  unix_ascii (file_text filename) = true ->
  same_file g self ->
  (exists ys fin self',
      GffFile.fetch self seqid start end_ type = Some (ys, fin, self')
      /\ Forall (fun e => matches seqid start end_ type e = true) ys
      /\ same_file g self')
  /\ (contiguous (line_records (lines_of (file_text filename))) = true ->
      sorted_by_start (line_records (lines_of (file_text filename))) = true ->
      forallb well_formed_line (lines_of (file_text filename)) = true ->
      forall c offset,
        lookup String.eqb (_index g) seqid = Some c ->
        _find_le c start = Ok offset ->
        exists pre l post b fin self',
          lines_of (file_text filename) = (pre ++ l :: post)%list
          /\ offset = bytes_of pre
          /\ index_fields false (Str l) = Ok (Some (seqid, b))
          /\ b <= start
          /\ (forall i b', lookup Z.eqb (c_start c) i = Some b' ->
                           b' <= start -> b' <= b)
          /\ GffFile.fetch self seqid start end_ type
             = Some (filter (matches seqid start end_ type)
                            (entries_of (l :: post)), fin, self')).
Proof.
  intros Hinit _ Hsame.
  destruct (init_ok _ _ _ Hinit) as (text & thresholds & st & -> & Hzero & Hloop & ->).
  destruct self as [[d bin cursor] idx]. unfold same_file in Hsame.
  cbn [_handle _index data binary] in Hsame. destruct Hsame as (-> & -> & ->).
  cbn [file_text _index]. split.
  - destruct (fetch_runs text cursor (index st) seqid start end_ type)
      as (ys & fin & self' & Hf & Hall & Hd & Hb & Hi).
    exists ys, fin, self'. now repeat split.
  - intros Hcont Hsorted Hwf c offset Hl Hfind.
    destruct (gen_index_loop_contiguous _ _ _ _ Hloop Hcont)
      as (_ & _ & Hblocks & _).
    destruct (Hblocks _ _ Hl) as (es & -> & Hne & Hall & _ & _ & t & Ht & Hgap).
    apply Hzero in Ht. subst t.
    assert (Hstarts : StronglySorted Z.lt (map fst es))
      by now apply (Sorted_gap_lt 0).
    destruct (find_le_spec _ _ _ Hstarts Hfind) as (b & Hin & Hb & Hmax).
    rewrite Forall_forall in Hall. specialize (Hall _ Hin). cbn [fst snd] in Hall.
    destruct (entry_at_text _ _ _ _ Hall) as (pre & l & post & Hsplit & Hf & ->).
    unfold GffFile.fetch, getitem. cbn [_index _handle]. rewrite Hl, Hfind.
    unfold seek. cbn [data binary unread].
    rewrite (lines_of_seek _ _ _ Hsplit).
    rewrite fetch_loop_scan by lia.
    assert (Hscan : fst (fst (fetch_scan (l :: post) seqid start end_ type))
                    = filter (matches seqid start end_ type) (entries_of (l :: post))).
    { rewrite Hsplit in Hcont, Hsorted, Hwf.
      unfold contiguous in Hcont. unfold sorted_by_start in Hsorted.
      rewrite line_records_app in Hcont, Hsorted.
      rewrite map_app, contiguous_from_app in Hcont.
      rewrite sorted_from_app in Hsorted. rewrite forallb_app in Hwf.
      apply andb_prop in Hcont, Hsorted, Hwf.
      eapply fetch_scan_complete;
        [apply (proj2 Hwf) | apply (proj2 Hcont) | apply (proj2 Hsorted) |].
      right. now rewrite (line_records_record _ _ _ _ Hf). }
    destruct (fetch_scan (l :: post) seqid start end_ type)
      as [[ys fin] remaining].
    cbn [fst] in Hscan. subst ys.
    exists pre, l, post, b, fin,
      (mkGffFile (mkHandle text false remaining) (index st)).
    repeat split; try assumption.
    intros i b' Hi. apply Hmax. unfold container_of in Hi. cbn [c_start] in Hi.
    rewrite lookup_enum_from in Hi. destruct (0 <=? i); [|discriminate].
    now apply nth_error_In in Hi.
Qed.

(** The region 550-700 of chr1 in the file with a gene around an exon. *)
Lemma fetch_from_seek_on_nested_records :
  exists g,
    GffFile.__init__ (PlainFile nested_records) 3 = Ok g
    /\ unix_ascii nested_records = true
    /\ same_file g g
    /\ (exists ys fin self',
           GffFile.fetch g "chr1" 550 700 None = Some (ys, fin, self')
           /\ Forall (fun e => matches "chr1" 550 700 None e = true) ys
           /\ same_file g self')
    /\ contiguous (line_records (lines_of nested_records)) = true
    /\ sorted_by_start (line_records (lines_of nested_records)) = true
    /\ forallb well_formed_line (lines_of nested_records) = true
    /\ forall c offset,
        lookup String.eqb (_index g) "chr1" = Some c ->
        _find_le c 550 = Ok offset ->
        exists pre l post b fin self',
          lines_of nested_records = (pre ++ l :: post)%list
          /\ offset = bytes_of pre
          /\ index_fields false (Str l) = Ok (Some ("chr1", b))
          /\ b <= 550
          /\ (forall i b', lookup Z.eqb (c_start c) i = Some b' ->
                           b' <= 550 -> b' <= b)
          /\ GffFile.fetch g "chr1" 550 700 None
             = Some (filter (matches "chr1" 550 700 None)
                            (entries_of (l :: post)), fin, self').
Proof.
  eexists. split; [vm_compute; reflexivity|].
  split; [reflexivity|].
  split; [now repeat split|].
  pose proof (fetch_yields_matches_from_seek
                (PlainFile nested_records) 3 _ _ "chr1" 550 700 None
                eq_refl eq_refl (conj eq_refl (conj eq_refl eq_refl))) as [H1 H2].
  split; [exact H1|].
  split; [reflexivity|]. split; [reflexivity|]. split; [reflexivity|].
  apply H2; reflexivity.
Defined.

(** C1 as stated fails for a record that starts before the seek position:
    with a gene from 100 to 1000, an exon from 500 to 600 and a gene from
    800 to 900 on chr1, [fetch("chr1", 550, 700)] seeks to the exon and
    yields it alone, although the first gene meets the region too. *)
Lemma fetch_misses_record_before_seek :
  unix_ascii nested_records = true
  /\ contiguous (line_records (lines_of nested_records)) = true
  /\ sorted_by_start (line_records (lines_of nested_records)) = true
  /\ exists g exon self' gene,
      GffFile.__init__ (PlainFile nested_records) 3 = Ok g
      /\ GffFile.fetch g "chr1" 550 700 None = Some ([exon], Stopped, self')
      /\ _attrs exon = "ID=x"
      /\ In gene (entries_of (lines_of nested_records))
      /\ _attrs gene = "ID=g"
      /\ Entry.start gene = Ok 100 /\ Entry.end_ gene = Ok 1000
      /\ matches "chr1" 550 700 None gene = true
      /\ ~ In gene [exon].
Proof.
  split; [reflexivity|]. split; [reflexivity|]. split; [reflexivity|].
  do 4 eexists.
  split; [vm_compute; reflexivity|].
  split; [vm_compute; reflexivity|].
  split; [reflexivity|].
  split; [left; reflexivity|].
  repeat split. intros [H|[]]. discriminate H.
Qed.

(** * Properties of the rest of the module *)

(** ** Printing an entry *)

Lemma split_not_nil (sep : ascii) (s : string) : split sep s <> [].
Proof.
  destruct s as [|c s]; cbn; [discriminate|].
  destruct (Ascii.eqb c sep); [discriminate|].
  destruct (split sep s); discriminate.
Qed.

Lemma join_split (sep : ascii) (s : string) :
  join (String sep "") (split sep s) = s.
Proof.
  induction s as [|c s IH]; [reflexivity|]. cbn [split].
  destruct (Ascii.eqb_spec c sep) as [->|Hne].
  - pose proof (split_not_nil sep s) as Hs.
    destruct (split sep s) as [|p ps]; [contradiction|].
    cbn [join]. cbn [join] in IH. now rewrite IH.
  - pose proof (split_not_nil sep s) as Hs.
    destruct (split sep s) as [|p ps]; [contradiction|].
    destruct ps as [|q qs]; cbn [join] in *; now rewrite <- IH.
Qed.

Lemma lstrip_head (ws : ascii -> bool) (s : string) (c : ascii) (t : string) :
  lstrip_with ws s = String c t -> ws c = false.
Proof.
  induction s as [|a s IH]; cbn; [discriminate|].
  destruct (ws a) eqn:E; [exact IH|]. now intros [= <- _].
Qed.

Lemma rstrip_idempotent (ws : ascii -> bool) (s : string) :
  rstrip_with ws (rstrip_with ws s) = rstrip_with ws s.
Proof.
  induction s as [|c s IH]; [reflexivity|]. cbn [rstrip_with].
  destruct (rstrip_with ws s) as [|a r] eqn:E.
  - destruct (ws c) eqn:Ec; [reflexivity|]. cbn. now rewrite Ec.
  - change (rstrip_with ws (String c (String a r)))
      with (match rstrip_with ws (String a r) with
            | EmptyString => if ws c then EmptyString else String c EmptyString
            | String x y => String c (String x y)
            end).
    now rewrite IH.
Qed.

Lemma rstrip_head (ws : ascii -> bool) (c : ascii) (t : string) :
  ws c = false -> exists r, rstrip_with ws (String c t) = String c r.
Proof.
  intros H. cbn [rstrip_with]. destruct (rstrip_with ws t) as [|a r].
  - rewrite H. now exists EmptyString.
  - now exists (String a r).
Qed.

Lemma strip_idempotent (ws : ascii -> bool) (s : string) :
  strip_with ws (strip_with ws s) = strip_with ws s.
Proof.
  unfold strip_with. destruct (lstrip_with ws s) as [|c t] eqn:E; [reflexivity|].
  apply lstrip_head in E. destruct (rstrip_head ws c t E) as [r Hr].
  rewrite Hr. cbn [lstrip_with]. rewrite E, <- Hr. apply rstrip_idempotent.
Qed.

(** X1.  Printing what was parsed gives back the stripped line, and parsing
    the printed entry gives back the entry. *)
Theorem entry_str_round_trip (line : string) (e : GffEntry) :
  Entry.__init__ line = Ok e ->
  EntryMethods.__str__ e = strip line
  /\ Entry.__init__ (EntryMethods.__str__ e) = Ok e.
Proof.
  intros H.
  assert (Hstr : EntryMethods.__str__ e = strip line).
  { unfold Entry.__init__ in H.
    destruct (unpack_star_last (split TAB (strip line))) as [[fs a]|] eqn:Eu;
      [|discriminate].
    destruct (_parse_attrs a) as [d|x]; [|discriminate].
    cbn [bind] in H. injection H as <-.
    unfold EntryMethods.__str__. cbn [_features _attrs].
    rewrite <- (unpack_star_last_app _ _ _ Eu). apply join_split. }
  split; [exact Hstr|].
  rewrite Hstr. unfold Entry.__init__ in *. unfold strip in *.
  now rewrite strip_idempotent.
Qed.

Lemma entry_str_round_trip_on_a_record :
  exists e,
    Entry.__init__ (record "chr1" "gene" "100" "200" "ID=a;Name=x,y") = Ok e
    /\ EntryMethods.__str__ e
       = strip (record "chr1" "gene" "100" "200" "ID=a;Name=x,y")
    /\ Entry.__init__ (EntryMethods.__str__ e) = Ok e.
Proof.
  eexists. split; [vm_compute; reflexivity|].
  apply (entry_str_round_trip
           (record "chr1" "gene" "100" "200" "ID=a;Name=x,y")).
  vm_compute. reflexivity.
Defined.

(** ** The attributes of an entry *)

Lemma lookup_append_value (d : odict string (list string)) (tag v tag' : string) :
  lookup String.eqb (append_value d tag v) tag'
  = if String.eqb tag' tag
    then Some (match lookup String.eqb d tag with
               | Some vs => vs ++ [v]
               | None => [v]
               end)%list
    else lookup String.eqb d tag'.
Proof.
  unfold append_value.
  destruct (lookup String.eqb d tag) as [vs|] eqn:E.
  - destruct (String.eqb_spec tag' tag) as [->|Hne].
    + apply (lookup_setitem_same _ string_eqb_eq).
    + now apply (lookup_setitem_other _ string_eqb_eq).
  - rewrite (lookup_app String.eqb). cbn [lookup].
    destruct (String.eqb_spec tag' tag) as [->|Hne].
    + now rewrite E.
    + now destruct (lookup String.eqb d tag').
Qed.


Lemma more_values_app (old : option (list string)) (a b : list string) :
  more_values (more_values old a) b = more_values old (a ++ b)%list.
Proof.
  destruct old as [vs|]; cbn.
  - now rewrite app_assoc.
  - destruct a as [|x a]; [reflexivity|]. reflexivity.
Qed.

Lemma more_values_nil (old : option (list string)) : more_values old [] = old.
Proof. destruct old as [vs|]; cbn; [now rewrite app_nil_r | reflexivity]. Qed.

Lemma lookup_fold_values (d : odict string (list string)) (tag : string)
      (vals : list string) (tag' : string) :
  lookup String.eqb
    (fold_left (fun d val => append_value d tag (unquote val)) vals d) tag'
  = if String.eqb tag' tag
    then more_values (lookup String.eqb d tag) (map unquote vals)
    else lookup String.eqb d tag'.
Proof.
  revert d. induction vals as [|v vals IH]; intros d; cbn [fold_left map].
  - destruct (String.eqb_spec tag' tag) as [->|]; [|reflexivity].
    now rewrite more_values_nil.
  - rewrite IH, !lookup_append_value, String.eqb_refl.
    destruct (String.eqb tag' tag); [|reflexivity].
    destruct (lookup String.eqb d tag) as [vs|]; cbn; [|reflexivity].
    now rewrite <- app_assoc.
Qed.

Lemma parse_attrs_loop_spec (pieces : list string)
      (acc : odict string (list string)) :
  match tagged_values pieces with
  | None => parse_attrs_loop pieces acc = Raise ValueError
  | Some tvs =>
      exists d,
        parse_attrs_loop pieces acc = Ok d
        /\ forall tag, lookup String.eqb d tag
                       = more_values (lookup String.eqb acc tag) (values_of tag tvs)
  end.
Proof.
  revert acc. induction pieces as [|attr pieces IH]; intros acc;
    cbn [tagged_values parse_attrs_loop].
  - exists acc. split; [reflexivity|]. intros tag. cbn.
    now rewrite more_values_nil.
  - unfold unpack_tag_values.
    destruct (split "=" attr) as [|tag [|vals [|x l]]]; try reflexivity.
    cbn [bind].
    specialize (IH (fold_left (fun d val => append_value d tag (unquote val))
                              (split "," vals) acc)).
    destruct (tagged_values pieces) as [tvs|]; [|exact IH].
    destruct IH as (d & Hd & Hl). exists d. split; [exact Hd|].
    intros t. rewrite Hl, lookup_fold_values.
    unfold values_of. cbn [flat_map fst snd]. rewrite (String.eqb_sym tag t).
    destruct (String.eqb t tag) eqn:E.
    + apply String.eqb_eq in E. subst t. apply more_values_app.
    + reflexivity.
Qed.

Lemma tagged_values_first (pieces : list string) tvs :
  pieces <> [] -> tagged_values pieces = Some tvs ->
  exists tag, values_of tag tvs <> [].
Proof.
  destruct pieces as [|attr pieces]; [contradiction|]. intros _.
  cbn [tagged_values].
  destruct (split "=" attr) as [|tag [|vals [|x l]]]; try discriminate.
  destruct (tagged_values pieces) as [rest|]; [|discriminate].
  intros [= <-]. exists tag. unfold values_of. cbn [flat_map fst snd].
  rewrite String.eqb_refl. pose proof (split_not_nil "," vals) as H.
  destruct (split "," vals); [contradiction | discriminate].
Qed.

(** X2.  [_parse_attrs] fails, with [ValueError], exactly when a piece
    between [';'] does not hold exactly one ['=']; otherwise its
    dictionary is not empty and gives every tag the decoded values of all
    the pieces with that tag, in their order. *)
Theorem parse_attrs_groups_values_by_tag (attribute_column : string) :
  match tagged_values (split ";" attribute_column) with
  | None => _parse_attrs attribute_column = Raise ValueError
  | Some tvs =>
      exists d,
        _parse_attrs attribute_column = Ok d
        /\ d <> []
        /\ forall tag,
            lookup String.eqb d tag
            = match values_of tag tvs with [] => None | vs => Some vs end
  end.
Proof.
  unfold _parse_attrs.
  pose proof (parse_attrs_loop_spec (split ";" attribute_column) []) as H.
  destruct (tagged_values (split ";" attribute_column)) as [tvs|] eqn:E;
    [|exact H].
  destruct H as (d & Hd & Hl). exists d. split; [exact Hd|].
  assert (Hl' : forall tag, lookup String.eqb d tag
                            = match values_of tag tvs with
                              | [] => None | vs => Some vs end).
  { intros tag. rewrite Hl. cbn [lookup].
    now destruct (values_of tag tvs). }
  split; [|exact Hl'].
  destruct (tagged_values_first _ _ (split_not_nil ";" attribute_column) E)
    as [tag Htag].
  intros ->. specialize (Hl' tag). cbn in Hl'.
  destruct (values_of tag tvs); [contradiction | discriminate].
Qed.

(** X3.  The tags of a parsed entry are those of its last column, and
    [get_tag] returns the values of a tag, or raises [KeyError], exactly
    as [has_tag] tells. *)
Theorem entry_tags_come_from_last_column (line : string) (e : GffEntry) :
  Entry.__init__ line = Ok e ->
  exists tvs,
    tagged_values (split ";" (_attrs e)) = Some tvs
    /\ _attrs e = last (split TAB (strip line)) ""
    /\ forall tag,
        EntryMethods.get_tag e tag
        = match values_of tag tvs with
          | [] => Raise KeyError
          | vs => Ok vs
          end
        /\ EntryMethods.has_tag e tag
           = match values_of tag tvs with [] => false | _ => true end.
Proof.
  unfold Entry.__init__. intros H.
  destruct (unpack_star_last (split TAB (strip line))) as [[fs a]|] eqn:Eu;
    [|discriminate].
  pose proof (parse_attrs_loop_spec (split ";" a) []) as Hp.
  unfold _parse_attrs in H.
  destruct (parse_attrs_loop (split ";" a) []) as [d|x] eqn:Ep; [|discriminate].
  cbn [bind] in H. injection H as <-. cbn [_attrs].
  destruct (tagged_values (split ";" a)) as [tvs|]; [|discriminate].
  destruct Hp as (d' & [= <-] & Hl).
  exists tvs. split; [reflexivity|]. split.
  - rewrite (unpack_star_last_app _ _ _ Eu). now rewrite last_last.
  - intros tag. unfold EntryMethods.get_tag, EntryMethods.has_tag, getitem, contains.
    cbn [_attributes]. rewrite Hl. cbn [lookup more_values].
    now destruct (values_of tag tvs).
Qed.

Lemma tags_of_a_record :
  exists e tvs,
    Entry.__init__ (record "chr1" "gene" "100" "200" "ID=a;Name=x,y;ID=b") = Ok e
    /\ tagged_values (split ";" (_attrs e)) = Some tvs
    /\ _attrs e = "ID=a;Name=x,y;ID=b"
    /\ EntryMethods.get_tag e "ID" = Ok ["a"; "b"]
    /\ EntryMethods.get_tag e "Name" = Ok ["x"; "y"]
    /\ EntryMethods.get_tag e "Parent" = Raise KeyError
    /\ EntryMethods.has_tag e "Parent" = false.
Proof.
  destruct (entry_tags_come_from_last_column
              (record "chr1" "gene" "100" "200" "ID=a;Name=x,y;ID=b")
              _ eq_refl) as (tvs & Ht & Ha & Htags).
  do 2 eexists. split; [reflexivity|]. split; [exact Ht|].
  repeat split; vm_compute; reflexivity.
Defined.

(** ** Comparing entries *)

Lemma string_compare_refl (s : string) : String.compare s s = Eq.
Proof.
  induction s as [|c s IH]; [reflexivity|]. cbn.
  unfold Ascii.compare. now rewrite N.compare_refl.
Qed.

Lemma string_leb_refl (s : string) : String.leb s s = true.
Proof. unfold String.leb. now rewrite string_compare_refl. Qed.

Lemma string_leb_trans (a b c : string) :
  String.leb a b = true -> String.leb b c = true -> String.leb a c = true.
Proof.
  unfold String.leb. revert b c.
  induction a as [|x a IH]; intros [|y b] [|z c]; cbn; try congruence.
  unfold Ascii.compare.
  destruct (N.compare_spec (N_of_ascii x) (N_of_ascii y)) as [Exy|Lxy|Gxy];
    destruct (N.compare_spec (N_of_ascii y) (N_of_ascii z)) as [Eyz|Lyz|Gyz];
    try congruence.
  - rewrite Exy, Eyz, N.compare_refl. apply IH.
  - intros _ _. rewrite Exy. now rewrite (proj2 (N.compare_lt_iff _ _) Lyz).
  - intros _ _. rewrite <- Eyz. now rewrite (proj2 (N.compare_lt_iff _ _) Lxy).
  - intros _ _.
    now rewrite (proj2 (N.compare_lt_iff _ _) (N.lt_trans _ _ _ Lxy Lyz)).
Qed.

Lemma lt_true (a b : GffEntry) :
  EntryMethods.__lt__ a b = Ok true ->
  exists sa sb x y,
    Entry.seqid a = Ok sa /\ Entry.seqid b = Ok sb
    /\ Entry.start a = Ok x /\ Entry.start b = Ok y
    /\ String.leb sa sb = true /\ x < y.
Proof.
  unfold EntryMethods.__lt__.
  destruct (Entry.seqid a) as [sa|]; [|discriminate].
  destruct (Entry.seqid b) as [sb|]; [|discriminate]. cbn [bind].
  destruct (String.leb sa sb) eqn:El; [|discriminate].
  destruct (Entry.start a) as [x|]; [|discriminate].
  destruct (Entry.start b) as [y|]; [|discriminate]. cbn [bind].
  destruct (Z.ltb_spec x y); [|discriminate]. intros _.
  now exists sa, sb, x, y.
Qed.

(** X4.  [__lt__] is a strict order on entries: no entry is below itself,
    it is transitive, and [a < b] excludes [b < a] and [a == b]. *)
Theorem lt_is_a_strict_order (a b c : GffEntry) :
  EntryMethods.__lt__ a a <> Ok true
  /\ (EntryMethods.__lt__ a b = Ok true ->
      EntryMethods.__lt__ b c = Ok true ->
      EntryMethods.__lt__ a c = Ok true)
  /\ (EntryMethods.__lt__ a b = Ok true ->
      EntryMethods.__lt__ b a = Ok false
      /\ EntryMethods.__eq__ a b <> Ok true).
Proof.
  split; [|split].
  - intros H. apply lt_true in H.
    destruct H as (sa & sb & x & y & _ & _ & Hx & Hy & _ & Hlt).
    rewrite Hx in Hy. injection Hy as <-. lia.
  - intros Hab Hbc. apply lt_true in Hab, Hbc.
    destruct Hab as (sa & sb & x & y & Hsa & Hsb & Hx & Hy & Hl & Hlt).
    destruct Hbc as (sb' & sc & y' & z & Hsb' & Hsc & Hy' & Hz & Hl' & Hlt').
    rewrite Hsb in Hsb'. injection Hsb' as <-.
    rewrite Hy in Hy'. injection Hy' as <-.
    unfold EntryMethods.__lt__. rewrite Hsa, Hsc, Hx, Hz. cbn [bind].
    rewrite (string_leb_trans _ _ _ Hl Hl').
    destruct (Z.ltb_spec x z); [reflexivity | lia].
  - intros Hab. apply lt_true in Hab.
    destruct Hab as (sa & sb & x & y & Hsa & Hsb & Hx & Hy & Hl & Hlt).
    split.
    + unfold EntryMethods.__lt__. rewrite Hsa, Hsb, Hx, Hy. cbn [bind].
      destruct (String.leb sb sa); [|reflexivity].
      destruct (Z.ltb_spec y x); [lia | reflexivity].
    + unfold EntryMethods.__eq__. rewrite Hsa, Hsb, Hx, Hy. cbn [bind].
      destruct (String.eqb sa sb); [|discriminate].
      destruct (Entry.type a); [|discriminate].
      destruct (Entry.type b); [|discriminate]. cbn [bind].
      destruct (String.eqb _ _); [|discriminate].
      destruct (Z.eqb_spec x y); [lia | discriminate].
Qed.

Lemma lt_on_sample_genes :
  EntryMethods.__lt__ short_gene short_gene <> Ok true
  /\ EntryMethods.__lt__ short_gene late_gene = Ok true
  /\ EntryMethods.__lt__ late_gene short_gene = Ok false
  /\ EntryMethods.__eq__ short_gene late_gene <> Ok true.
Proof.
  destruct (lt_is_a_strict_order short_gene late_gene late_gene)
    as (H1 & _ & H3).
  split; [exact H1|]. split; [reflexivity|]. apply H3. reflexivity.
Defined.

(** X5.  The comparisons derived by [total_ordering] are not an order: two
    entries on one seqid with one start that differ in type or end are
    each above the other, and neither is at most the other. *)
Theorem derived_order_is_not_antisymmetric
        (a b : GffEntry) (s ta tb : string) (x ea eb : Z) :
  Entry.seqid a = Ok s -> Entry.seqid b = Ok s ->
  Entry.type a = Ok ta -> Entry.type b = Ok tb ->
  Entry.start a = Ok x -> Entry.start b = Ok x ->
  Entry.end_ a = Ok ea -> Entry.end_ b = Ok eb ->
  ta <> tb \/ ea <> eb ->
  EntryMethods.__gt__ a b = Ok true /\ EntryMethods.__gt__ b a = Ok true
  /\ EntryMethods.__le__ a b = Ok false /\ EntryMethods.__le__ b a = Ok false
  /\ EntryMethods.__ge__ a b = Ok true /\ EntryMethods.__ge__ b a = Ok true
  /\ EntryMethods.__eq__ a b = Ok false.
Proof.
  intros Hsa Hsb Hta Htb Hxa Hxb Hea Heb Hdiff.
  assert (Hlt : forall u v, Entry.seqid u = Ok s -> Entry.seqid v = Ok s ->
                            Entry.start u = Ok x -> Entry.start v = Ok x ->
                            EntryMethods.__lt__ u v = Ok false).
  { intros u v Hu Hv Hxu Hxv. unfold EntryMethods.__lt__.
    rewrite Hu, Hv, Hxu, Hxv. cbn [bind]. rewrite string_leb_refl, Z.ltb_irrefl.
    reflexivity. }
  assert (Heq : EntryMethods.__eq__ a b = Ok false
                /\ EntryMethods.__eq__ b a = Ok false).
  { unfold EntryMethods.__eq__.
    rewrite Hsa, Hsb, Hta, Htb, Hxa, Hxb, Hea, Heb. cbn [bind].
    rewrite String.eqb_refl, Z.eqb_refl.
    destruct (String.eqb_spec ta tb) as [->|Ht].
    - rewrite String.eqb_refl.
      destruct Hdiff as [Ht|He]; [contradiction|].
      destruct (Z.eqb_spec ea eb); [contradiction|].
      destruct (Z.eqb_spec eb ea); [congruence|]. now split.
    - destruct (String.eqb_spec tb ta); [congruence|]. now split. }
  destruct Heq as [Hab Hba].
  unfold EntryMethods.__gt__, EntryMethods.__le__, EntryMethods.__ge__,
    EntryMethods.__ne__.
  rewrite (Hlt a b), (Hlt b a) by assumption. cbn [bind negb].
  rewrite Hab, Hba. now repeat split.
Qed.

Lemma sample_genes_are_each_above_the_other :
  EntryMethods.__gt__ short_gene long_gene = Ok true
  /\ EntryMethods.__gt__ long_gene short_gene = Ok true
  /\ EntryMethods.__le__ short_gene long_gene = Ok false
  /\ EntryMethods.__le__ long_gene short_gene = Ok false
  /\ EntryMethods.__ge__ short_gene long_gene = Ok true
  /\ EntryMethods.__ge__ long_gene short_gene = Ok true
  /\ EntryMethods.__eq__ short_gene long_gene = Ok false.
Proof.
  apply (derived_order_is_not_antisymmetric
           short_gene long_gene "chr1" "gene" "gene" 100 200 300);
    try reflexivity.
  right. lia.
Defined.

(** ** The cursor of a session *)

Lemma next_n_at_end (text : string) (bin : bool) (idx : index_t) (n : nat) :
  next_n n (at_end text bin idx) = repeat (Ok PyNone) n.
Proof.
  induction n as [|n IH]; [reflexivity|].
  cbn. unfold at_end in IH. now rewrite IH.
Qed.

(** X6.  A successful [__init__] leaves the handle at its end, where the
    index pass stopped: the first [next] on the session returns [None]
    and so does every later one, so that a loop over a fresh session
    sees no record. *)
Theorem open_leaves_cursor_at_end
        (filename : disk_file) (period : Z) (g : GffFile) :
  GffFile.__init__ filename period = Ok g ->
  unread (_handle g) = []
  /\ GffFile.__next__ g = (Ok PyNone, g)
  /\ forall n, next_n n g = repeat (Ok PyNone) n.
Proof.
  intros H.
  destruct (init_ok _ _ _ H) as (text & thresholds & st & _ & _ & _ & ->).
  repeat split. intros n. apply (next_n_at_end text false (index st) n).
Qed.

Lemma fresh_session_reads_nothing :
  exists g,
    GffFile.__init__ (PlainFile three_records) 3 = Ok g
    /\ unread (_handle g) = []
    /\ GffFile.__next__ g = (Ok PyNone, g)
    /\ forall n, next_n n g = repeat (Ok PyNone) n.
Proof.
  eexists. split; [vm_compute; reflexivity|].
  apply (open_leaves_cursor_at_end (PlainFile three_records) 3).
  vm_compute. reflexivity.
Defined.

Lemma next_same_file (self : GffFile) :
  same_file self (snd (GffFile.__next__ self)).
Proof.
  unfold GffFile.__next__.
  destruct (GffFile.next_loop (binary (_handle self)) (unread (_handle self))).
  now repeat split.
Qed.

Lemma fetch_loop_same_file (fuel : nat) (self : GffFile) seqid start end_ type
      ys fin self' :
  GffFile.fetch_loop fuel self seqid start end_ type = Some (ys, fin, self') ->
  same_file self self'.
Proof.
  revert self ys fin self'.
  induction fuel as [|fuel IH]; intros self ys fin self'; [discriminate|].
  cbn [GffFile.fetch_loop]. pose proof (next_same_file self) as Hn.
  destruct (GffFile.__next__ self) as [r self1]. cbn [snd] in Hn.
  assert (Htrans : forall s2, same_file self1 s2 -> same_file self s2).
  { intros s2 (H1 & H2 & H3). destruct Hn as (N1 & N2 & N3).
    repeat split; congruence. }
  destruct r as [v|e]; [|now intros [= _ _ <-]].
  destruct (GffFile.fetch_body v seqid start end_ type) as [[| |y]|e].
  - intros H. apply Htrans. now apply (IH _ _ _ _ H).
  - now intros [= _ _ <-].
  - destruct (GffFile.fetch_loop fuel self1 seqid start end_ type)
      as [[[ys1 fin1] s1]|] eqn:E; [|discriminate].
    intros [= _ _ <-]. apply Htrans. now apply (IH _ _ _ _ E).
  - now intros [= _ _ <-].
Qed.

Lemma seek_same_file (a b : GffFile) (offset : Z) :
  same_file a b -> seek_session a offset = seek_session b offset.
Proof.
  intros (H1 & H2 & H3). unfold seek_session, seek. now rewrite H1, H2, H3.
Qed.

Lemma fetch_outcome_same_file (a b : GffFile) seqid start end_ type :
  same_file a b ->
  outcome (GffFile.fetch a seqid start end_ type)
  = outcome (GffFile.fetch b seqid start end_ type).
Proof.
  intros Hs. pose proof Hs as (H1 & H2 & H3). unfold GffFile.fetch.
  rewrite H3.
  destruct (getitem String.eqb (_index a) seqid) as [c|e]; [|reflexivity].
  destruct (_find_le c start) as [offset|e]; [|reflexivity].
  assert (Hk : seek (_handle b) offset = seek (_handle a) offset)
    by (unfold seek; now rewrite H1, H2).
  now rewrite Hk.
Qed.

(** X7.  What a run of [fetch] yields and how it ends depend on the file
    and the index of the session, not on where its cursor stands; the run
    changes nothing but the cursor, so the same call made again yields
    the same entries and ends the same way. *)
Theorem fetch_does_not_depend_on_cursor
        (a b : GffFile) (seqid : string) (start end_ : Z) (type : option string) :
  same_file a b ->
  outcome (GffFile.fetch a seqid start end_ type)
  = outcome (GffFile.fetch b seqid start end_ type)
  /\ forall ys fin a',
      GffFile.fetch a seqid start end_ type = Some (ys, fin, a') ->
      same_file a a'
      /\ outcome (GffFile.fetch a' seqid start end_ type) = Some (ys, fin).
Proof.
  intros Hs. split; [now apply fetch_outcome_same_file|].
  intros ys fin a' Hrun.
  assert (Hsame : same_file a a').
  { revert Hrun. unfold GffFile.fetch.
    destruct (getitem String.eqb (_index a) seqid) as [c|e].
    2: { intros [= _ _ <-]. now repeat split. }
    destruct (_find_le c start) as [offset|e].
    2: { intros [= _ _ <-]. now repeat split. }
    intros H. apply fetch_loop_same_file in H.
    destruct H as (K1 & K2 & K3). repeat split; assumption. }
  split; [exact Hsame|].
  rewrite <- (fetch_outcome_same_file a a' seqid start end_ type Hsame).
  now rewrite Hrun.
Qed.

Lemma fetch_twice_on_three_records :
  exists g ys fin g',
    GffFile.__init__ (PlainFile three_records) 3 = Ok g
    /\ same_file g g
    /\ GffFile.fetch g "chr1" 250 450 None = Some (ys, fin, g')
    /\ same_file g g'
    /\ outcome (GffFile.fetch g' "chr1" 250 450 None) = Some (ys, fin).
Proof.
  do 4 eexists. split; [vm_compute; reflexivity|].
  split; [now repeat split|].
  split; [vm_compute; reflexivity|].
  eapply (proj2 (fetch_does_not_depend_on_cursor _ _ "chr1" 250 450 None
                   (conj eq_refl (conj eq_refl eq_refl)))).
  vm_compute. reflexivity.
Defined.

(** ** A scan that reaches the end of the file *)

Lemma scan_to_the_end (lines : list string) seqid start end_ type :
  forallb well_formed_line lines = true ->
  never_breaks seqid end_ (line_records lines) = true ->
  exists ys, fetch_scan lines seqid start end_ type
             = (ys, Raised AttributeError, []).
Proof.
  induction lines as [|l rest IH]; intros Hwf Hnb; [now exists []|].
  cbn [forallb] in Hwf. apply andb_prop in Hwf. destruct Hwf as [Hl Hwf].
  cbn [fetch_scan].
  destruct (startswith_hash l) eqn:Hh.
  - rewrite (line_records_comment _ _ Hh) in Hnb. now apply IH.
  - destruct (well_formed_fields _ Hl Hh)
      as (e & s & t & b & n & Hinit & Hs & Ht & Hb & Hn & Hf).
    rewrite (line_records_record _ _ _ _ Hf) in Hnb.
    unfold never_breaks in Hnb. cbn [forallb fst snd] in Hnb.
    apply andb_prop in Hnb. destruct Hnb as [Hrec Hnb].
    destruct (IH Hwf Hnb) as [ys Hys].
    destruct (fetch_body_fields e s t b n seqid start end_ type Hs Ht Hb Hn)
      as [Hbody _].
    rewrite Hinit, Hbody, Hys.
    destruct (String.eqb_spec s seqid) as [->|Hne].
    + cbn [andb] in Hrec. unfold String.ltb in Hrec.
      rewrite string_compare_refl, orb_false_r in Hrec.
      apply Z.ltb_lt in Hrec.
      destruct (n <? start); [now exists ys|].
      destruct (Z.leb_spec end_ b); [lia|].
      destruct type as [ty|]; [destruct (String.eqb t ty)|];
        eexists; reflexivity.
    + cbn [andb orb] in Hrec. rewrite Hrec. now exists ys.
Qed.

(** The entries of a session's index, seqid by seqid: the starts grow
    and every entry is the start and the offset of a record line. *)
Lemma index_entry_lines (filename : disk_file) (period : Z) (g : GffFile) :
  GffFile.__init__ filename period = Ok g ->
  contiguous (line_records (lines_of (file_text filename))) = true ->
  _handle g = mkHandle (file_text filename) false []
  /\ forall s c,
      lookup String.eqb (_index g) s = Some c ->
      exists es,
        c = container_of es
        /\ StronglySorted Z.lt (map fst es)
        /\ forall b p, In (b, p) es ->
             exists pre l post,
               lines_of (file_text filename) = (pre ++ l :: post)%list
               /\ index_fields false (Str l) = Ok (Some (s, b))
               /\ p = bytes_of pre.
Proof.
  intros Hinit Hcont.
  destruct (init_ok _ _ _ Hinit) as (text & thresholds & st & -> & Hzero & Hloop & ->).
  cbn [file_text _handle _index] in *. split; [reflexivity|].
  intros s c Hl.
  destruct (gen_index_loop_contiguous _ _ _ _ Hloop Hcont)
    as (_ & _ & Hblocks & _).
  destruct (Hblocks _ _ Hl) as (es & -> & Hne & Hall & _ & _ & t & Ht & Hgap).
  apply Hzero in Ht. subst t.
  exists es. split; [reflexivity|]. split; [now apply (Sorted_gap_lt 0)|].
  intros b p Hin. rewrite Forall_forall in Hall. specialize (Hall _ Hin).
  now apply entry_at_text in Hall.
Qed.

Lemma same_file_session (g self : GffFile) (text : string) :
  _handle g = mkHandle text false [] -> same_file g self ->
  exists cursor, self = mkGffFile (mkHandle text false cursor) (_index g).
Proof.
  intros Hg (H1 & H2 & H3). rewrite Hg in H1, H2. cbn in H1, H2.
  destruct self as [[d bin cursor] idx]. cbn in *. subst.
  now exists cursor.
Qed.

(** X8.  The file is a text of ASCII characters with LF line ends.  When
    every line that the handle reads from the seek position on decodes
    and none of them makes the loop break (the region reaches past the
    last record of the last seqid, say), the scan comes to the end of the
    file, [next] returns [None], and the run of [fetch] ends with
    [AttributeError] on [entry.seqid], after the matching entries were
    yielded and with the cursor at the end. *)
Theorem fetch_to_the_end_raises
        (filename : disk_file) (period : Z) (g self : GffFile)
        (seqid : string) (start end_ : Z) (type : option string)
        (c : container) (offset : Z) :
  GffFile.__init__ filename period = Ok g ->
  unix_ascii (file_text filename) = true ->
  same_file g self ->
  contiguous (line_records (lines_of (file_text filename))) = true ->
  lookup String.eqb (_index g) seqid = Some c ->
  _find_le c start = Ok offset ->
  forallb well_formed_line (unread (_handle (seek_session self offset))) = true ->
  never_breaks seqid end_
    (line_records (unread (_handle (seek_session self offset)))) = true ->
  exists ys self',
    GffFile.fetch self seqid start end_ type
    = Some (ys, Raised AttributeError, self')
    /\ unread (_handle self') = [].
Proof.
  intros Hinit _ Hsame Hcont Hl Hfind.
  destruct (index_entry_lines _ _ _ Hinit Hcont) as (Hg & Hentries).
  destruct (Hentries _ _ Hl) as (es & -> & Hs & Hlines).
  destruct (find_le_spec _ _ _ Hs Hfind) as (b & Hin & _ & _).
  destruct (Hlines _ _ Hin) as (pre & l & post & Hsplit & Hf & ->).
  destruct (same_file_session _ _ _ Hg Hsame) as (cursor & ->).
  unfold GffFile.fetch, getitem, seek_session. cbn [_index _handle].
  rewrite Hl, Hfind. unfold seek. cbn [data binary unread].
  rewrite (lines_of_seek _ _ _ Hsplit), fetch_loop_scan by lia.
  intros Hwf Hnb.
  destruct (scan_to_the_end (l :: post) seqid start end_ type Hwf Hnb)
    as [ys Hys].
  rewrite Hys. now do 2 eexists.
Qed.

(** In the file with chr2 before chr1, the region 8-100 of chr1: the
    records of chr2 lie before the seek position. *)
Lemma fetch_to_the_end_of_repeated_starts :
  exists g c offset ys self',
    GffFile.__init__ (PlainFile repeated_starts) 3 = Ok g
    /\ unix_ascii repeated_starts = true
    /\ same_file g g
    /\ contiguous (line_records (lines_of repeated_starts)) = true
    /\ lookup String.eqb (_index g) "chr1" = Some c
    /\ _find_le c 8 = Ok offset
    /\ forallb well_formed_line (unread (_handle (seek_session g offset))) = true
    /\ never_breaks "chr1" 100
         (line_records (unread (_handle (seek_session g offset)))) = true
    /\ never_breaks "chr1" 100 (line_records (lines_of repeated_starts)) = false
    /\ GffFile.fetch g "chr1" 8 100 None
       = Some (ys, Raised AttributeError, self')
    /\ unread (_handle self') = [].
Proof.
  pose (f := PlainFile repeated_starts).
  let r := eval vm_compute in (GffFile.__init__ f 3) in
  match r with Ok ?v => pose (g := v) end.
  assert (Hinit : GffFile.__init__ f 3 = Ok g) by (vm_compute; reflexivity).
  let r := eval vm_compute in (lookup String.eqb (_index g) "chr1") in
  match r with Some ?v => pose (c := v) end.
  assert (Hl : lookup String.eqb (_index g) "chr1" = Some c)
    by (vm_compute; reflexivity).
  let r := eval vm_compute in (_find_le c 8) in
  match r with Ok ?v => pose (offset := v) end.
  assert (Hfind : _find_le c 8 = Ok offset) by (vm_compute; reflexivity).
  assert (Hascii : unix_ascii (file_text f) = true)
    by (vm_compute; reflexivity).
  assert (Hsame : same_file g g) by (repeat split).
  assert (Hcont : contiguous (line_records (lines_of (file_text f))) = true)
    by (vm_compute; reflexivity).
  assert (Hwf : forallb well_formed_line
                        (unread (_handle (seek_session g offset))) = true)
    by (vm_compute; reflexivity).
  assert (Hnb : never_breaks "chr1" 100
                  (line_records (unread (_handle (seek_session g offset))))
                = true)
    by (vm_compute; reflexivity).
  destruct (fetch_to_the_end_raises f 3 g g "chr1" 8 100 None c offset
              Hinit Hascii Hsame Hcont Hl Hfind Hwf Hnb)
    as (ys & self' & Hrun & Hend).
  exists g, c, offset, ys, self'.
  split; [exact Hinit|]. split; [exact Hascii|]. split; [exact Hsame|].
  split; [exact Hcont|]. split; [exact Hl|]. split; [exact Hfind|].
  split; [exact Hwf|]. split; [exact Hnb|].
  split; [vm_compute; reflexivity|].
  split; [exact Hrun | exact Hend].
Defined.

Lemma enum_pair (es : list (Z * Z)) (i b p : Z) :
  lookup Z.eqb (enum_from 0 (map fst es)) i = Some b ->
  lookup Z.eqb (enum_from 0 (map snd es)) i = Some p ->
  In (b, p) es.
Proof.
  rewrite !lookup_enum_from. destruct (0 <=? i); [|discriminate].
  rewrite !nth_error_map.
  destruct (nth_error es (Z.to_nat (i - 0))) as [[b' p']|] eqn:E; [|discriminate].
  cbn. intros [= <-] [= <-]. now apply nth_error_In in E.
Qed.

(** X9.  The file is a text of ASCII characters with LF line ends.  In
    the index of a session on such a file with contiguous records,
    every entry of a seqid holds the start of one of its records and the
    byte offset of that record's line: after a seek to the offset, the
    first unread line is that record and [next] decodes it. *)
Theorem index_entry_leads_to_its_record
        (filename : disk_file) (period : Z) (g self : GffFile)
        (s : string) (c : container) (i b p : Z) :
  GffFile.__init__ filename period = Ok g ->
  unix_ascii (file_text filename) = true ->
  same_file g self ->
  contiguous (line_records (lines_of (file_text filename))) = true ->
  lookup String.eqb (_index g) s = Some c ->
  lookup Z.eqb (c_start c) i = Some b ->
  lookup Z.eqb (c_pos c) i = Some p ->
  exists l post,
    unread (_handle (seek_session self p)) = l :: post
    /\ index_fields false (Str l) = Ok (Some (s, b))
    /\ GffFile.__next__ (seek_session self p)
       = (e <- Entry.__init__ l ;; Ok (AnEntry e),
          mkGffFile (mkHandle (file_text filename) false post) (_index g)).
Proof.
  intros Hinit _ Hsame Hcont Hl Hb Hp.
  destruct (index_entry_lines _ _ _ Hinit Hcont) as (Hg & Hentries).
  destruct (Hentries _ _ Hl) as (es & -> & _ & Hlines).
  destruct (Hlines _ _ (enum_pair _ _ _ _ Hb Hp))
    as (pre & l & post & Hsplit & Hf & ->).
  destruct (same_file_session _ _ _ Hg Hsame) as (cursor & ->).
  exists l, post. unfold seek_session, seek. cbn [_handle _index data binary unread].
  rewrite (lines_of_seek _ _ _ Hsplit).
  split; [reflexivity|]. split; [exact Hf|].
  unfold GffFile.__next__. cbn [_handle _index data binary unread].
  assert (Hh : startswith_hash l = false).
  { destruct (startswith_hash l) eqn:E; [|reflexivity].
    rewrite (comment_fields _ E) in Hf. discriminate. }
  now rewrite (next_loop_record _ _ Hh).
Qed.

Lemma second_entry_of_three_records :
  exists g c l post,
    GffFile.__init__ (PlainFile three_records) 3 = Ok g
    /\ unix_ascii three_records = true
    /\ same_file g g
    /\ contiguous (line_records (lines_of three_records)) = true
    /\ lookup String.eqb (_index g) "chr1" = Some c
    /\ lookup Z.eqb (c_start c) 1 = Some 300
    /\ lookup Z.eqb (c_pos c) 1 = Some 47
    /\ unread (_handle (seek_session g 47)) = l :: post
    /\ index_fields false (Str l) = Ok (Some ("chr1", 300))
    /\ GffFile.__next__ (seek_session g 47)
       = (e <- Entry.__init__ l ;; Ok (AnEntry e),
          mkGffFile (mkHandle three_records false post) (_index g)).
Proof.
  destruct (index_entry_leads_to_its_record
              (PlainFile three_records) 3 _ _ "chr1" _ 1 300 47
              eq_refl eq_refl (conj eq_refl (conj eq_refl eq_refl))
              eq_refl eq_refl eq_refl eq_refl)
    as (l & post & Hu & Hf & Hn).
  do 2 eexists. exists l, post.
  repeat split; try reflexivity; assumption.
Defined.

(** ** [_find_le] as a search *)

(** X10.  On a container whose starts grow with the local index,
    [_find_le] raises [ValueError] exactly when [start] is below every
    indexed start (or nothing is indexed), and otherwise returns the offset
    stored with the greatest indexed start not above [start]. *)
Theorem find_le_finds_rightmost_start (es : list (Z * Z)) (start : Z) :
  StronglySorted Z.lt (map fst es) ->
  (_find_le (container_of es) start = Raise ValueError
   /\ forall b, In b (map fst es) -> start < b)
  \/ (exists b offset,
        _find_le (container_of es) start = Ok offset
        /\ In (b, offset) es /\ b <= start
        /\ forall b', In b' (map fst es) -> b' <= start -> b' <= b).
Proof.
  intros Hs.
  destruct (_find_le (container_of es) start) as [offset|e] eqn:E.
  - right. destruct (find_le_spec _ _ _ Hs E) as (b & H1 & H2 & H3).
    now exists b, offset.
  - left. revert E. unfold _find_le, container_of. cbn [c_start c_pos].
    rewrite values_enum_from.
    destruct (bisect_right_spec (map fst es) start Hs) as (Hlen & Hle & Hgt).
    rewrite length_map in Hlen, Hgt.
    destruct (bisect_right (map fst es) start) as [|i] eqn:Ei.
    + intros [= <-]. split; [reflexivity|].
      intros b Hin. apply In_nth with (d := 0) in Hin.
      destruct Hin as (k & Hk & <-). rewrite length_map in Hk.
      apply Hgt. lia.
    + unfold getitem. rewrite lookup_enum_from.
      destruct (Z.leb_spec 0 (Z.of_nat (S i) - 1)); [|lia].
      replace (Z.to_nat (Z.of_nat (S i) - 1 - 0)) with i by lia.
      destruct (nth_error (map snd es) i) eqn:En; [discriminate|].
      apply nth_error_None in En. rewrite length_map in En. lia.
Qed.

Lemma find_le_between_two_starts :
  StronglySorted Z.lt (map fst [(100, 16); (300, 47); (500, 78)])
  /\ ((_find_le (container_of [(100, 16); (300, 47); (500, 78)]) 250
       = Raise ValueError
       /\ forall b, In b (map fst [(100, 16); (300, 47); (500, 78)]) -> 250 < b)
      \/ (exists b offset,
            _find_le (container_of [(100, 16); (300, 47); (500, 78)]) 250
            = Ok offset
            /\ In (b, offset) [(100, 16); (300, 47); (500, 78)] /\ b <= 250
            /\ forall b', In b' (map fst [(100, 16); (300, 47); (500, 78)]) ->
                          b' <= 250 -> b' <= b)).
Proof.
  assert (Hs : StronglySorted Z.lt (map fst [(100, 16); (300, 47); (500, 78)])).
  { cbn [map fst]. repeat constructor; lia. }
  split; [exact Hs|].
  exact (find_le_finds_rightmost_start [(100, 16); (300, 47); (500, 78)] 250 Hs).
Defined.

(** ** Opening a file that is too short *)

(** X11.  A file of fewer than three bytes (an empty file, say) cannot be
    opened: [_is_zipped] unpacks three bytes from what [peek] returns, and
    [struct.error] leaves [__init__] before any handle is made. *)
Theorem short_file_raises_struct_error (text : string) (period : Z) :
  (String.length text < 3)%nat ->
  _is_zipped (PlainFile text) = Raise StructError
  /\ GffFile.__init__ (PlainFile text) period = Raise StructError.
Proof.
  intros Hlen.
  assert (Hz : _is_zipped (PlainFile text) = Raise StructError).
  { unfold _is_zipped. cbn [head_bytes].
    destruct text as [|a [|b [|c r]]]; cbn in *; try reflexivity; lia. }
  split; [exact Hz|].
  unfold GffFile.__init__. now rewrite Hz.
Qed.

Lemma empty_file_raises_struct_error :
  (String.length "" < 3)%nat
  /\ _is_zipped (PlainFile "") = Raise StructError
  /\ GffFile.__init__ (PlainFile "") 3 = Raise StructError.
Proof.
  split; [cbn; lia|].
  apply (short_file_raises_struct_error "" 3). cbn. lia.
Defined.

(** ** The threshold of a seqid *)

Lemma dropna_app (a b : list (option Z)) :
  dropna (a ++ b) = (dropna a ++ dropna b)%list.
Proof.
  induction a as [|[d|] a IH]; cbn; [reflexivity | now rewrite IH | exact IH].
Qed.

Lemma dropna_none (f : nat -> option Z) (l : list nat) :
  (forall i, In i l -> f i = None) -> dropna (map f l) = [].
Proof.
  induction l as [|i l IH]; intros H; cbn; [reflexivity|].
  rewrite (H i (or_introl eq_refl)). apply IH. intros j Hj. apply H. now right.
Qed.

Lemma dropna_some (f : nat -> option Z) (g : nat -> Z) (l : list nat) :
  (forall i, In i l -> f i = Some (g i)) -> dropna (map f l) = map g l.
Proof.
  induction l as [|i l IH]; intros H; cbn; [reflexivity|].
  rewrite (H i (or_introl eq_refl)). f_equal. apply IH.
  intros j Hj. apply H. now right.
Qed.

(** The differences that [diff] leaves after [dropna], for a period that
    is not negative. *)
Lemma dropna_series_diff (xs : list Z) (periods : Z) :
  0 <= periods ->
  dropna (series_diff xs periods)
  = map (fun i => nth i xs 0 - nth (i - Z.to_nat periods) xs 0)
        (seq (Z.to_nat periods) (List.length xs - Z.to_nat periods)).
Proof.
  intros Hp. unfold series_diff.
  set (L := List.length xs). set (n := Z.to_nat periods).
  set (f := fun i : nat => _).
  destruct (Nat.le_gt_cases L n) as [Hle|Hlt].
  - replace (L - n)%nat with 0%nat by lia. cbn [seq map].
    apply dropna_none. intros i Hi. apply in_seq in Hi. subst f. cbn beta zeta.
    destruct (Z.leb_spec 0 (Z.of_nat i - periods)); [lia | reflexivity].
  - replace L with (n + (L - n))%nat at 1 by lia.
    rewrite seq_app, map_app, dropna_app. cbn [Nat.add].
    rewrite dropna_none.
    + cbn [app]. apply dropna_some. intros i Hi. apply in_seq in Hi.
      subst f. cbn beta zeta.
      destruct (Z.leb_spec 0 (Z.of_nat i - periods)); [|lia].
      destruct (Z.ltb_spec (Z.of_nat i - periods) (Z.of_nat L)); [|lia].
      cbn [andb]. do 3 f_equal. lia.
    + intros i Hi. apply in_seq in Hi. subst f. cbn beta zeta.
      destruct (Z.leb_spec 0 (Z.of_nat i - periods)); [|reflexivity].
      lia.
Qed.

Lemma average_diff_raises (xs : list Z) (periods : Z) (e : exc) :
  average_diff xs periods = Raise e -> e = AttributeError.
Proof.
  unfold average_diff, mean_astype_int.
  destruct (dropna _); [now intros [= <-] | discriminate].
Qed.

Lemma average_diff_no_difference (xs : list Z) (periods : Z) :
  Z.of_nat (List.length xs) <= periods ->
  average_diff xs periods = Raise AttributeError.
Proof.
  intros H. unfold average_diff. rewrite dropna_series_diff by lia.
  replace (List.length xs - Z.to_nat periods)%nat with 0%nat by lia.
  reflexivity.
Qed.

Lemma average_diffs_loop_raises seqid_starts periods s starts ks acc :
  In s ks ->
  lookup String.eqb seqid_starts s = Some starts ->
  average_diff (OrderedSet.to_list starts) periods = Raise AttributeError ->
  average_diffs_loop seqid_starts periods ks acc = Raise AttributeError.
Proof.
  intros Hin Hl Hr. revert acc Hin.
  induction ks as [|k ks IH]; intros acc Hin; [easy|].
  cbn [average_diffs_loop].
  destruct (String.eqb_spec k s) as [->|Hne].
  - now rewrite Hl, Hr.
  - assert (Hin' : In s ks) by (destruct Hin; [contradiction | assumption]).
    destruct (lookup String.eqb seqid_starts k) as [starts_k|];
      [|now apply IH].
    destruct (average_diff (OrderedSet.to_list starts_k) periods)
      as [t|e] eqn:Ea; cbn [bind]; [now apply IH|].
    now rewrite (average_diff_raises _ _ _ Ea).
Qed.

(** X12.  [_get_average_diffs] needs more distinct starts than [periods]
    for every seqid: when one seqid of the coordinate sets has at most
    [periods] distinct starts, no difference is left after [dropna], the
    mean of nothing has no [astype], and the call raises [AttributeError]
    without returning a table.  With the default period 3 this is any
    seqid with at most three distinct starts. *)
Theorem too_few_starts_raise_attribute_error
        (seqid_starts : odict string OrderedSet.t) (periods : Z)
        (seqid : string) (starts : OrderedSet.t) :
  lookup String.eqb seqid_starts seqid = Some starts ->
  Z.of_nat (List.length (OrderedSet.to_list starts)) <= periods ->
  _get_average_diffs seqid_starts periods = Raise AttributeError.
Proof.
  intros Hl Hfew. unfold _get_average_diffs.
  apply (average_diffs_loop_raises _ _ seqid starts); [|exact Hl|].
  - assert (Hc : contains String.eqb seqid_starts seqid = true)
      by (unfold contains; now rewrite Hl).
    rewrite (contains_keys String.eqb) in Hc. apply existsb_exists in Hc.
    destruct Hc as (k & Hk & E). apply String.eqb_eq in E. now subst k.
  - now apply average_diff_no_difference.
Qed.

Lemma one_start_raises_at_period_3 :
  lookup String.eqb [("chr1", [10; 20; 30; 1000]); ("chr2", [5])] "chr2"
  = Some [5]
  /\ Z.of_nat (List.length (OrderedSet.to_list [5])) <= 3
  /\ _get_average_diffs [("chr1", [10; 20; 30; 1000]); ("chr2", [5])] 3
     = Raise AttributeError.
Proof.
  assert (Hfew : Z.of_nat (List.length (OrderedSet.to_list [5])) <= 3)
    by (cbn; lia).
  split; [reflexivity|]. split; [exact Hfew|].
  exact (too_few_starts_raise_attribute_error
           [("chr1", [10; 20; 30; 1000]); ("chr2", [5])] 3 "chr2" [5]
           eq_refl Hfew).
Defined.

(** ** What the threshold pass collects *)

Section FirstSeen.
Context {A : Type} (eqb : A -> A -> bool).
Hypothesis eqb_eq : forall a b, eqb a b = true <-> a = b.

Lemma filter_twice (P Q : A -> bool) (l : list A) :
  filter P (filter Q l) = filter (fun y => Q y && P y) l.
Proof.
  induction l as [|x l IH]; cbn; [reflexivity|].
  destruct (Q x); cbn; [|exact IH]. destruct (P x); now rewrite IH.
Qed.

Lemma filter_all (P : A -> bool) (l : list A) :
  (forall y, P y = true) -> filter P l = l.
Proof.
  intros H. induction l as [|x l IH]; cbn; [reflexivity|].
  now rewrite H, IH.
Qed.

(** One more element in front of a sequence, seen through a filter on
    what was met before. *)
Lemma first_seen_step (mem : A -> bool) (x : A) (xs : list A) :
  filter (fun y => negb (mem y)) (first_seen eqb (x :: xs))
  = ((if mem x then [] else [x])
     ++ filter (fun y => negb (eqb y x || mem y)) (first_seen eqb xs))%list.
Proof.
  cbn [first_seen filter]. rewrite filter_twice.
  assert (E : filter (fun y => negb (eqb y x) && negb (mem y)) (first_seen eqb xs)
              = filter (fun y => negb (eqb y x || mem y)) (first_seen eqb xs)).
  { apply filter_ext. intros y. now rewrite negb_orb. }
  rewrite E. destruct (mem x); reflexivity.
Qed.

Lemma first_seen_In (xs : list A) (x : A) :
  In x (first_seen eqb xs) <-> In x xs.
Proof.
  induction xs as [|a xs IH]; cbn; [tauto|].
  rewrite filter_In, IH. split.
  - intros [H|[H _]]; auto.
  - intros [H|H]; [now left|].
    destruct (eqb x a) eqn:E; [left; symmetry; now apply eqb_eq|].
    right. now split.
Qed.

Lemma first_seen_NoDup (xs : list A) : NoDup (first_seen eqb xs).
Proof.
  induction xs as [|a xs IH]; cbn; constructor.
  - rewrite filter_In. intros [_ H].
    rewrite (proj2 (eqb_eq a a) eq_refl) in H. discriminate.
  - now apply NoDup_filter.
Qed.

End FirstSeen.

Lemma ordered_set_mem_app (y : Z) (s s' : OrderedSet.t) :
  OrderedSet.mem y (s ++ s')%list = OrderedSet.mem y s || OrderedSet.mem y s'.
Proof. unfold OrderedSet.mem. apply existsb_app. Qed.

(** Adding keys one after the other keeps those that are new, in the
    order of their first occurrence. *)
Lemma fold_add_first_seen (xs : list Z) (acc : OrderedSet.t) :
  fold_left OrderedSet.add xs acc
  = (acc ++ filter (fun y => negb (OrderedSet.mem y acc))
                   (first_seen Z.eqb xs))%list.
Proof.
  revert acc. induction xs as [|x xs IH]; intros acc.
  - cbn. now rewrite app_nil_r.
  - cbn [fold_left]. rewrite IH, first_seen_step. unfold OrderedSet.add.
    destruct (OrderedSet.mem x acc) eqn:E; cbn [app].
    + f_equal. apply filter_ext. intros y.
      destruct (Z.eqb_spec y x) as [->|Hne]; [now rewrite E | reflexivity].
    + rewrite <- app_assoc. cbn [app]. do 2 f_equal. apply filter_ext.
      intros y. rewrite ordered_set_mem_app. cbn.
      now rewrite orb_false_r, orb_comm.
Qed.

Lemma lookup_add_start_eq diffs seqid start s :
  lookup String.eqb (add_start diffs seqid start) s
  = if String.eqb s seqid
    then Some (OrderedSet.add
                 (match lookup String.eqb diffs seqid with
                  | Some old => old
                  | None => OrderedSet.empty
                  end) start)
    else lookup String.eqb diffs s.
Proof.
  unfold add_start.
  assert (E : lookup String.eqb
                (setdefault String.eqb diffs seqid OrderedSet.empty) seqid
              = Some (match lookup String.eqb diffs seqid with
                      | Some old => old
                      | None => OrderedSet.empty
                      end)).
  { rewrite (lookup_setdefault _ string_eqb_eq), String.eqb_refl.
    destruct (lookup String.eqb diffs seqid); reflexivity. }
  rewrite E. destruct (String.eqb_spec s seqid) as [->|Hne].
  - apply (lookup_setitem_same _ string_eqb_eq).
  - rewrite (lookup_setitem_other _ string_eqb_eq) by exact Hne.
    rewrite (lookup_setdefault _ string_eqb_eq).
    destruct (lookup String.eqb diffs s); [reflexivity|].
    now rewrite (proj2 (String.eqb_neq s seqid) Hne).
Qed.

Lemma keys_setitem (d : odict string OrderedSet.t) (k : string) v :
  keys (setitem String.eqb d k v)
  = if contains String.eqb d k then keys d else (keys d ++ [k])%list.
Proof.
  unfold contains, keys. induction d as [|[k0 v0] d IH]; cbn; [reflexivity|].
  destruct (String.eqb k k0); cbn; [reflexivity|].
  rewrite IH. destruct (lookup String.eqb d k); reflexivity.
Qed.

Lemma keys_add_start diffs seqid start :
  keys (add_start diffs seqid start)
  = if contains String.eqb diffs seqid then keys diffs
    else (keys diffs ++ [seqid])%list.
Proof.
  unfold add_start, setdefault.
  destruct (contains String.eqb diffs seqid) eqn:E.
  - unfold contains in E.
    destruct (lookup String.eqb diffs seqid) eqn:El; [|discriminate].
    rewrite keys_setitem. unfold contains. now rewrite El.
  - unfold contains in E. rewrite lookup_app.
    destruct (lookup String.eqb diffs seqid) eqn:El; [discriminate|].
    cbn [lookup]. rewrite String.eqb_refl, keys_setitem.
    unfold contains. rewrite lookup_app, El. cbn [lookup].
    rewrite String.eqb_refl. unfold keys. now rewrite map_app.
Qed.

(** The seqids of the dictionary the threshold loop leaves. *)
Lemma get_thresholds_loop_keys lines gzipped diffs diffs' :
  get_thresholds_loop lines gzipped diffs = Ok diffs' ->
  keys diffs'
  = (keys diffs
     ++ filter (fun s => negb (contains String.eqb diffs s))
               (first_seen String.eqb
                  (map fst (threshold_records gzipped lines))))%list.
Proof.
  revert diffs. induction lines as [|l lines IH]; intros diffs.
  - intros [= <-]. cbn. now rewrite app_nil_r.
  - rewrite get_thresholds_loop_view. cbn [threshold_records].
    destruct (threshold_fields gzipped l) as [[[seqid start]|]|e];
      cbn [bind]; [| apply IH | discriminate].
    intros H. rewrite (IH _ H). cbn [map fst]. rewrite first_seen_step.
    rewrite keys_add_start.
    assert (E : forall l0,
               filter (fun s => negb (contains String.eqb
                                        (add_start diffs seqid start) s)) l0
               = filter (fun y => negb (String.eqb y seqid
                                        || contains String.eqb diffs y)) l0).
    { intros l0. apply filter_ext. intros y. now rewrite contains_add_start. }
    rewrite E. destruct (contains String.eqb diffs seqid); cbn [app];
      [reflexivity | now rewrite <- app_assoc].
Qed.

(** The starts the threshold loop leaves under a seqid. *)
Lemma get_thresholds_loop_lookup lines gzipped diffs diffs' s :
  get_thresholds_loop lines gzipped diffs = Ok diffs' ->
  lookup String.eqb diffs' s
  = match lookup String.eqb diffs s,
          starts_of s (threshold_records gzipped lines) with
    | Some old, new => Some (fold_left OrderedSet.add new old)
    | None, [] => None
    | None, new => Some (fold_left OrderedSet.add new OrderedSet.empty)
    end.
Proof.
  revert diffs. induction lines as [|l lines IH]; intros diffs.
  - intros [= <-]. cbn. destruct (lookup String.eqb diffs s); reflexivity.
  - rewrite get_thresholds_loop_view. cbn [threshold_records].
    destruct (threshold_fields gzipped l) as [[[seqid start]|]|e];
      cbn [bind]; [| apply IH | discriminate].
    intros H. rewrite (IH _ H), lookup_add_start_eq.
    unfold starts_of. cbn [filter fst]. rewrite (String.eqb_sym seqid s).
    destruct (String.eqb_spec s seqid) as [->|Hne].
    + cbn [map snd fold_left].
      destruct (lookup String.eqb diffs seqid); reflexivity.
    + reflexivity.
Qed.

Lemma starts_of_not_empty (s : string) (recs : list (string * Z)) :
  In s (map fst recs) -> starts_of s recs <> [].
Proof.
  unfold starts_of. induction recs as [|[s0 b] recs IH]; cbn; [easy|].
  intros [<-|H].
  - now rewrite String.eqb_refl.
  - destruct (String.eqb s0 s); [easy | now apply IH].
Qed.

Lemma keys_threshold_setitem (d : odict string Z) (k : string) v :
  contains String.eqb d k = false ->
  keys (setitem String.eqb d k v) = (keys d ++ [k])%list.
Proof.
  unfold contains, keys. induction d as [|[k0 v0] d IH]; cbn; [reflexivity|].
  destruct (String.eqb k k0); [discriminate|]. intros H. cbn.
  now rewrite IH.
Qed.

Lemma keys_average_diffs_loop seqid_starts periods ks acc thresholds :
  average_diffs_loop seqid_starts periods ks acc = Ok thresholds ->
  (forall k, In k ks -> contains String.eqb seqid_starts k = true) ->
  NoDup (keys acc ++ ks) ->
  keys thresholds = (keys acc ++ ks)%list.
Proof.
  revert acc. induction ks as [|k ks IH]; intros acc H Hin Hnd.
  - cbn in H. injection H as <-. now rewrite app_nil_r.
  - cbn [average_diffs_loop] in H.
    assert (Hk := Hin k (or_introl eq_refl)). unfold contains in Hk.
    destruct (lookup String.eqb seqid_starts k) as [starts|]; [|discriminate].
    destruct (average_diff (OrderedSet.to_list starts) periods) as [t|e];
      [|discriminate].
    cbn [bind] in H.
    assert (Hnew : contains String.eqb acc k = false).
    { rewrite (contains_keys _ acc k).
      destruct (existsb (String.eqb k) (keys acc)) eqn:E; [|reflexivity].
      apply existsb_exists in E. destruct E as (k' & Hk' & E).
      apply String.eqb_eq in E. subst k'.
      apply NoDup_remove_2 in Hnd. exfalso. apply Hnd.
      apply in_or_app. now left. }
    rewrite (IH _ H).
    + rewrite (keys_threshold_setitem _ _ _ Hnew), <- app_assoc. reflexivity.
    + intros k' Hk'. apply Hin. now right.
    + rewrite (keys_threshold_setitem _ _ _ Hnew), <- app_assoc. exact Hnd.
Qed.

(** X13.  When [_get_thresholds] returns, the handle is back at offset 0
    whatever its cursor was, the thresholds list the seqids of the records
    once each in the order of their first record, and the threshold of a
    seqid is what the pandas expression gives on the starts of its
    records with repeated starts dropped, in the order the file gives
    them (not sorted). *)
Theorem thresholds_come_from_first_seen_starts
        (h : handle) (periods : Z) (gzipped : bool)
        (thresholds : odict string Z) (h' : handle) :
  _get_thresholds h periods gzipped = Ok (thresholds, h') ->
  let recs :=
    threshold_records gzipped (map (as_line (binary h)) (lines_of (data h))) in
  h' = mkHandle (data h) (binary h) (lines_of (data h))
  /\ keys thresholds = first_seen String.eqb (map fst recs)
  /\ forall s,
       In s (map fst recs) ->
       exists t,
         average_diff (first_seen Z.eqb (starts_of s recs)) periods = Ok t
         /\ lookup String.eqb thresholds s = Some t.
Proof.
  unfold _get_thresholds, handle_lines, seek.
  cbn [data binary unread Z.to_nat skip_chars].
  destruct (get_thresholds_loop _ gzipped []) as [diffs|e] eqn:E;
    [|discriminate].
  cbn [bind].
  destruct (_get_average_diffs diffs periods) as [table|e] eqn:Ea;
    [|discriminate].
  cbn [bind]. intros [= <- <-]. cbn zeta.
  assert (Hkeys := get_thresholds_loop_keys _ _ _ _ E).
  cbn [keys map app] in Hkeys.
  rewrite filter_all in Hkeys by reflexivity.
  split; [reflexivity|]. split.
  - unfold _get_average_diffs in Ea.
    rewrite (keys_average_diffs_loop _ _ _ _ _ Ea); [exact Hkeys | |].
    + intros k Hk. rewrite (contains_keys String.eqb).
      apply existsb_exists. exists k. split; [exact Hk | apply String.eqb_refl].
    + cbn [keys map app]. fold (keys diffs). rewrite Hkeys.
      apply (first_seen_NoDup _ string_eqb_eq).
  - intros s Hs. assert (Hl := lookup_average_diffs _ _ _ s Ea).
    rewrite (get_thresholds_loop_lookup _ _ _ _ s E) in Hl. cbn [lookup] in Hl.
    assert (Hne := starts_of_not_empty _ _ Hs).
    destruct (starts_of s _) as [|b bs] eqn:Eb; [contradiction|].
    rewrite fold_add_first_seen in Hl.
    unfold OrderedSet.empty, OrderedSet.to_list in Hl. cbn [app] in Hl.
    now rewrite filter_all in Hl by reflexivity.
Qed.

Lemma thresholds_of_repeated_starts :
  exists thresholds h' t,
    _get_thresholds (mkHandle repeated_starts false []) 1 false
    = Ok (thresholds, h')
    /\ unread h' = lines_of repeated_starts
    /\ keys thresholds = ["chr2"; "chr1"]
    /\ average_diff [500; 100] 1 = Ok t
    /\ lookup String.eqb thresholds "chr2" = Some t.
Proof.
  destruct (thresholds_come_from_first_seen_starts
              (mkHandle repeated_starts false []) 1 false _ _ eq_refl)
    as (Hh & Hk & Hl).
  destruct (Hl "chr2") as (t & Ht & Hs); [cbn; now left|].
  do 2 eexists. exists t. split; [reflexivity|].
  split; [reflexivity|]. split; [exact Hk|]. split; [exact Ht | exact Hs].
Defined.

(** ** The class [OrderedSet]: the store *)

Lemma at_nth_error (st : list OrderedSetClass.node) (a : nat) (n : OrderedSetClass.node) :
  nth_error st a = Some n -> OrderedSetClass.at_ st a = n.
Proof. intros H. unfold OrderedSetClass.at_. now apply nth_error_nth. Qed.

Lemma nth_error_update (st : list OrderedSetClass.node) (a b : nat) (f : OrderedSetClass.node -> OrderedSetClass.node) :
  nth_error (OrderedSetClass.update st a f) b
  = if Nat.eqb a b then option_map f (nth_error st b) else nth_error st b.
Proof.
  revert a b. induction st as [|n st IH]; intros a b.
  - cbn. destruct b; destruct (Nat.eqb a _); reflexivity.
  - destruct a as [|a], b as [|b]; cbn; try reflexivity. apply IH.
Qed.

Lemma length_update (st : list OrderedSetClass.node) (a : nat) (f : OrderedSetClass.node -> OrderedSetClass.node) :
  List.length (OrderedSetClass.update st a f) = List.length st.
Proof.
  revert a. induction st as [|n st IH]; intros [|a]; cbn; try reflexivity.
  now rewrite IH.
Qed.

Lemma nth_error_snoc (st : list OrderedSetClass.node) (x : OrderedSetClass.node) (b : nat) :
  nth_error (st ++ [x])%list b
  = if Nat.eqb b (List.length st) then Some x else nth_error st b.
Proof.
  destruct (Nat.eqb_spec b (List.length st)) as [->|Hne].
  - rewrite nth_error_app2 by lia. now rewrite Nat.sub_diag.
  - destruct (Nat.lt_ge_cases b (List.length st)) as [Hlt|Hge].
    + now apply nth_error_app1.
    + rewrite (proj2 (nth_error_None st b)) by lia.
      apply nth_error_None. rewrite length_app. cbn. lia.
Qed.

(** ** The class [OrderedSet]: linked cells *)

Lemma first_addr_app (c1 c2 : cells_t) (after : nat) :
  first_addr (c1 ++ c2)%list after = first_addr c1 (first_addr c2 after).
Proof. destruct c1 as [|[a k] c1]; reflexivity. Qed.

Lemma last_addr_app (c1 c2 : cells_t) (before : nat) :
  last_addr (c1 ++ c2)%list before = last_addr c2 (last_addr c1 before).
Proof.
  revert before. induction c1 as [|[a k] c1 IH]; intros before; cbn;
    [reflexivity | apply IH].
Qed.

Lemma last_addr_In (cells : cells_t) (before : nat) :
  cells <> [] -> In (last_addr cells before) (map fst cells).
Proof.
  revert before. induction cells as [|[a k] cells IH]; intros before H;
    [contradiction|].
  cbn. destruct cells as [|c cells]; [now left|].
  right. apply IH. discriminate.
Qed.

Lemma last_addr_not_empty (cells : cells_t) (b b' : nat) :
  cells <> [] -> last_addr cells b = last_addr cells b'.
Proof. destruct cells as [|[a k] cells]; [contradiction | reflexivity]. Qed.

Lemma first_addr_not_empty (cells : cells_t) (b b' : nat) :
  cells <> [] -> first_addr cells b = first_addr cells b'.
Proof. destruct cells as [|[a k] cells]; [contradiction | reflexivity]. Qed.

Lemma first_addr_In (cells : cells_t) (after : nat) :
  cells <> [] -> In (first_addr cells after) (map fst cells).
Proof. destruct cells as [|[a k] cells]; [contradiction | now left]. Qed.

Lemma linked_frame (st st' : list OrderedSetClass.node) (before : nat) (cells : cells_t)
      (after : nat) :
  (forall a, In a (map fst cells) -> nth_error st' a = nth_error st a) ->
  linked st before cells after -> linked st' before cells after.
Proof.
  revert before. induction cells as [|[a k] cells IH]; intros before Hf;
    [easy|].
  cbn. intros [H1 H2]. split.
  - rewrite Hf; [exact H1 | now left].
  - apply IH; [|exact H2]. intros b Hb. apply Hf. now right.
Qed.

Lemma linked_app (st : list OrderedSetClass.node) (before : nat) (c1 c2 : cells_t)
      (after : nat) :
  linked st before (c1 ++ c2)%list after
  <-> linked st before c1 (first_addr c2 after)
      /\ linked st (last_addr c1 before) c2 after.
Proof.
  revert before. induction c1 as [|[a k] c1 IH]; intros before; cbn.
  - tauto.
  - rewrite IH, first_addr_app. tauto.
Qed.

Lemma linked_in_range (st : list OrderedSetClass.node) (before : nat) (cells : cells_t)
      (after : nat) (a : nat) :
  linked st before cells after -> In a (map fst cells) ->
  (a < List.length st)%nat.
Proof.
  revert before. induction cells as [|[b k] cells IH]; intros before; [easy|].
  cbn. intros [H1 H2] [<-|Hin].
  - apply nth_error_Some. now rewrite H1.
  - now apply (IH b).
Qed.

(** The key a cell carries. *)
Lemma linked_key (st : list OrderedSetClass.node) (before : nat) (cells : cells_t)
      (after : nat) (a : nat) (k : Z) :
  linked st before cells after -> In (a, k) cells ->
  OrderedSetClass.key (OrderedSetClass.at_ st a) = Some k.
Proof.
  revert before. induction cells as [|[b kb] cells IH]; intros before; [easy|].
  cbn. intros [H1 H2] [[= <- <-]|Hin].
  - now rewrite (at_nth_error _ _ _ H1).
  - now apply (IH b).
Qed.

(** ** The class [OrderedSet]: walking the ring *)

Lemma walk_forward (st : list OrderedSetClass.node) (cells : cells_t)
      (before : nat) (fuel : nat) :
  linked st before cells OrderedSetClass.end_ ->
  ~ In OrderedSetClass.end_ (map fst cells) ->
  (List.length cells < fuel)%nat ->
  OrderedSetClass.walk OrderedSetClass.next fuel st
    (first_addr cells OrderedSetClass.end_)
  = Some (map Some (map snd cells)).
Proof.
  revert before fuel. induction cells as [|[a k] cells IH];
    intros before fuel Hl Hn Hf; (destruct fuel as [|fuel]; [cbn in Hf; lia|]).
  - reflexivity.
  - cbn [first_addr OrderedSetClass.walk]. destruct Hl as [H1 H2].
    destruct (Nat.eqb_spec a OrderedSetClass.end_) as [->|Hne].
    { exfalso. apply Hn. now left. }
    rewrite (at_nth_error _ _ _ H1). cbn [OrderedSetClass.next OrderedSetClass.key].
    rewrite (IH a fuel H2).
    + reflexivity.
    + intros H. apply Hn. now right.
    + cbn in Hf. lia.
Qed.

Lemma walk_backward (st : list OrderedSetClass.node) (cells : cells_t)
      (after : nat) (fuel : nat) :
  linked st OrderedSetClass.end_ cells after ->
  ~ In OrderedSetClass.end_ (map fst cells) ->
  (List.length cells < fuel)%nat ->
  OrderedSetClass.walk OrderedSetClass.prev fuel st
    (last_addr cells OrderedSetClass.end_)
  = Some (map Some (rev (map snd cells))).
Proof.
  revert after fuel. induction cells as [|[a k] cells IH] using rev_ind;
    intros after fuel Hl Hn Hf; (destruct fuel as [|fuel]; [cbn in Hf; lia|]).
  - reflexivity.
  - rewrite last_addr_app. cbn [last_addr OrderedSetClass.walk].
    apply linked_app in Hl. destruct Hl as [H1 [H2 _]].
    rewrite map_app, in_app_iff in Hn. cbn in Hn.
    destruct (Nat.eqb_spec a OrderedSetClass.end_) as [->|Hne].
    { exfalso. apply Hn. right. now left. }
    rewrite (at_nth_error _ _ _ H2). cbn [OrderedSetClass.prev OrderedSetClass.key].
    rewrite (IH _ fuel H1).
    + rewrite map_app, rev_app_distr. reflexivity.
    + intros H. apply Hn. now left.
    + rewrite length_app in Hf. cbn in Hf. lia.
Qed.

(** A set has fewer cells than its store has nodes. *)
Lemma cells_fit (st : list OrderedSetClass.node) (before : nat)
      (cells : cells_t) (after : nat) :
  linked st before cells after ->
  NoDup (OrderedSetClass.end_ :: map fst cells) ->
  nth_error st OrderedSetClass.end_ <> None ->
  (List.length cells < List.length st)%nat.
Proof.
  intros Hl Hnd H0.
  assert (Hincl : incl (OrderedSetClass.end_ :: map fst cells)
                       (seq 0 (List.length st))).
  { intros a [<-|Ha]; apply in_seq; split; try lia.
    - cbn. now apply nth_error_Some.
    - cbn. now apply (linked_in_range _ _ _ _ _ Hl). }
  apply (NoDup_incl_length Hnd) in Hincl.
  cbn in Hincl. rewrite length_map, length_seq in Hincl. lia.
Qed.

Lemma iter_represents (self : OrderedSetClass.t) (l : list Z) :
  represents self l ->
  OrderedSetClass.__iter__ self = Some (map Some l)
  /\ OrderedSetClass.__reversed__ self = Some (map Some (rev l)).
Proof.
  intros (cells & <- & Hnd & _ & H0 & Hl & _ & _).
  assert (Hfit : (List.length cells < List.length (OrderedSetClass.store self))%nat).
  { apply (cells_fit _ _ _ _ Hl Hnd). now rewrite H0. }
  assert (Hn : ~ In OrderedSetClass.end_ (map fst cells))
    by now inversion Hnd.
  unfold OrderedSetClass.__iter__, OrderedSetClass.__reversed__.
  rewrite (at_nth_error _ _ _ H0).
  cbn [OrderedSetClass.next OrderedSetClass.prev]. split.
  - now apply (walk_forward _ _ OrderedSetClass.end_).
  - now apply (walk_backward _ _ OrderedSetClass.end_).
Qed.

(** ** The class [OrderedSet]: the map *)

Lemma contains_represents (self : OrderedSetClass.t) (l : list Z) (k : Z) :
  represents self l ->
  OrderedSetClass.__contains__ self k = existsb (Z.eqb k) l.
Proof.
  intros (cells & <- & _ & _ & _ & _ & _ & Hm).
  unfold OrderedSetClass.__contains__, contains.
  destruct (lookup Z.eqb (OrderedSetClass.map self) k) as [a|] eqn:E.
  - symmetry. apply existsb_exists. exists k. split; [|apply Z.eqb_refl].
    apply Hm in E. apply in_map_iff. now exists (a, k).
  - symmetry. apply not_true_is_false. intros H.
    apply existsb_exists in H. destruct H as (k' & Hin & Hk).
    apply Z.eqb_eq in Hk. subst k'. apply in_map_iff in Hin.
    destruct Hin as ([a k'] & Hk & Hin). cbn in Hk. subst k'.
    apply Hm in Hin. congruence.
Qed.

Lemma len_represents (self : OrderedSetClass.t) (l : list Z) :
  represents self l -> OrderedSetClass.__len__ self = List.length l.
Proof.
  intros (cells & <- & _ & Hnd & _ & _ & Hk & Hm).
  unfold OrderedSetClass.__len__.
  rewrite <- (length_map fst (OrderedSetClass.map self)).
  fold (keys (OrderedSetClass.map self)).
  assert (Hin : forall k, In k (keys (OrderedSetClass.map self))
                          <-> In k (map snd cells)).
  { intros k. split.
    - intros H.
      assert (Hc : contains Z.eqb (OrderedSetClass.map self) k = true).
      { rewrite (contains_keys Z.eqb). apply existsb_exists.
        exists k. split; [exact H | apply Z.eqb_refl]. }
      unfold contains in Hc.
      destruct (lookup Z.eqb (OrderedSetClass.map self) k) as [a|] eqn:E;
        [|discriminate].
      apply Hm in E. apply in_map_iff. now exists (a, k).
    - intros H. apply in_map_iff in H. destruct H as ([a k'] & Hk' & H).
      cbn in Hk'. subst k'. apply Hm in H.
      assert (Hc : contains Z.eqb (OrderedSetClass.map self) k = true)
        by (unfold contains; now rewrite H).
      rewrite (contains_keys Z.eqb) in Hc. apply existsb_exists in Hc.
      destruct Hc as (k' & Hk' & E). apply Z.eqb_eq in E. now subst k'. }
  apply Nat.le_antisymm; apply NoDup_incl_length; try assumption;
    intros k Hk'; now apply Hin.
Qed.

(** ** The class [OrderedSet]: [add] *)

Lemma NoDup_snoc {A : Type} (l : list A) (x : A) :
  NoDup l -> ~ In x l -> NoDup (l ++ [x]).
Proof.
  induction l as [|a l IH]; intros Hnd Hx; cbn.
  - constructor; [easy | constructor].
  - inversion Hnd as [|? ? Ha Hl]; subst. constructor.
    + rewrite in_app_iff. intros [H|[H|[]]]; [now apply Ha|].
      subst. apply Hx. now left.
    + apply IH; [exact Hl|]. intros H. apply Hx. now right.
Qed.

Lemma keys_setitem_fresh {K V : Type} (keq : K -> K -> bool)
      (d : odict K V) (k : K) (v : V) :
  contains keq d k = false ->
  keys (setitem keq d k v) = (keys d ++ [k])%list.
Proof.
  unfold contains, keys. induction d as [|[k0 v0] d IH]; cbn; [reflexivity|].
  destruct (keq k k0); [discriminate|]. intros H. cbn. now rewrite IH.
Qed.

Lemma existsb_eqb_false (k : Z) (l : list Z) :
  existsb (Z.eqb k) l = false -> ~ In k l.
Proof.
  intros H Hin. assert (E : existsb (Z.eqb k) l = true).
  { apply existsb_exists. exists k. split; [exact Hin | apply Z.eqb_refl]. }
  congruence.
Qed.

(** The store after [add] linked a new node. *)
Lemma nth_error_added (st : list OrderedSetClass.node) (curr : nat) (k : Z)
      (b : nat) :
  nth_error
    (OrderedSetClass.set_prev
       (OrderedSetClass.set_next
          (st ++ [OrderedSetClass.mkNode (Some k) curr OrderedSetClass.end_])%list
          curr (List.length st))
       OrderedSetClass.end_ (List.length st)) b
  = option_map
      (fun nd =>
         OrderedSetClass.mkNode (OrderedSetClass.key nd)
           (if Nat.eqb OrderedSetClass.end_ b then List.length st
            else OrderedSetClass.prev nd)
           (if Nat.eqb curr b then List.length st
            else OrderedSetClass.next nd))
      (if Nat.eqb b (List.length st)
       then Some (OrderedSetClass.mkNode (Some k) curr OrderedSetClass.end_)
       else nth_error st b).
Proof.
  unfold OrderedSetClass.set_prev, OrderedSetClass.set_next.
  rewrite !nth_error_update, nth_error_snoc.
  destruct (Nat.eqb OrderedSetClass.end_ b), (Nat.eqb curr b),
    (if Nat.eqb b (List.length st) then _ else _) as [[key prev next]|];
    reflexivity.
Qed.

Lemma cells_snoc_cases (cells : cells_t) :
  cells = [] \/ exists c b kb, cells = (c ++ [(b, kb)])%list.
Proof.
  destruct cells as [|x cells] using rev_ind; [now left|].
  right. destruct x as [b kb]. now exists cells, b, kb.
Qed.

Lemma init_represents : represents (OrderedSetClass.__init__ None) [].
Proof.
  exists []. cbn. repeat split; try constructor; try easy.
  constructor.
Qed.

Lemma add_represents (self : OrderedSetClass.t) (l : list Z) (k : Z) :
  represents self l ->
  represents (OrderedSetClass.add self k)
             (if existsb (Z.eqb k) l then l else (l ++ [k])%list).
Proof.
  intros Hr. assert (Hc := contains_represents self l k Hr).
  unfold OrderedSetClass.__contains__ in Hc. unfold OrderedSetClass.add.
  rewrite Hc. destruct (existsb (Z.eqb k) l) eqn:Ek; [exact Hr|].
  destruct Hr as (cells & <- & Hnd & Hndl & H0 & Hl & Hk & Hm).
  rewrite (at_nth_error _ _ _ H0). cbn [OrderedSetClass.prev].
  set (st := OrderedSetClass.store self) in *.
  set (n := List.length st).
  assert (Hn0 : n <> OrderedSetClass.end_).
  { assert (OrderedSetClass.end_ < n)%nat; [|lia].
    apply nth_error_Some. now rewrite H0. }
  assert (Hfresh : forall a, In a (map fst cells) -> (a < n)%nat).
  { intros a Ha. exact (linked_in_range _ _ _ _ _ Hl Ha). }
  assert (Hnz : forall a, In a (map fst cells) -> a <> OrderedSetClass.end_).
  { intros a Ha ->. inversion Hnd; contradiction. }
  assert (Hkl := existsb_eqb_false _ _ Ek).
  exists (cells ++ [(n, k)])%list.
  cbn [OrderedSetClass.store OrderedSetClass.map].
  split; [now rewrite map_app|].
  split.
  { rewrite map_app. cbn [map fst].
    apply (NoDup_snoc (OrderedSetClass.end_ :: map fst cells) n Hnd).
    intros [H|H]; [now apply Hn0 | apply Hfresh in H; lia]. }
  split; [now apply NoDup_snoc|].
  split.
  { rewrite nth_error_added, last_addr_app, first_addr_app.
    cbn [last_addr first_addr]. fold n.
    destruct (Nat.eqb_spec OrderedSetClass.end_ n) as [E|_];
      [now symmetry in E|].
    rewrite H0. cbn [option_map OrderedSetClass.key OrderedSetClass.prev
                       OrderedSetClass.next Nat.eqb OrderedSetClass.end_].
    destruct cells as [|[a ka] cells']; [reflexivity|].
    destruct (Nat.eqb_spec (last_addr ((a, ka) :: cells') OrderedSetClass.end_)
                           OrderedSetClass.end_) as [E|_]; [|reflexivity].
    exfalso.
    assert (Hin : In (last_addr ((a, ka) :: cells') OrderedSetClass.end_)
                     (map fst ((a, ka) :: cells')))
      by (apply last_addr_In; discriminate).
    exact (Hnz _ Hin E). }
  split.
  { apply linked_app. cbn [first_addr linked]. split.
    - destruct (cells_snoc_cases cells) as [->|(c & b & kb & ->)]; [exact I|].
      apply linked_app in Hl. cbn [first_addr linked] in Hl.
      destruct Hl as [Hc1 [Hb _]].
      rewrite last_addr_app. cbn [last_addr].
      rewrite map_app in Hnd. cbn [map fst] in Hnd.
      assert (Hbc : ~ In b (OrderedSetClass.end_ :: map fst c)).
      { change (NoDup ((OrderedSetClass.end_ :: map fst c) ++ b :: [])) in Hnd.
        apply NoDup_remove_2 in Hnd. now rewrite app_nil_r in Hnd. }
      assert (Hbn : (b < n)%nat).
      { apply Hfresh. rewrite map_app. apply in_or_app. right. now left. }
      apply linked_app. cbn [first_addr linked]. split; [|split; [|exact I]].
      + apply (linked_frame st); [|exact Hc1].
        intros a Ha. rewrite nth_error_added. fold n.
        assert (Han : (a < n)%nat).
        { apply Hfresh. rewrite map_app. apply in_or_app. now left. }
        destruct (Nat.eqb_spec a n); [lia|].
        destruct (Nat.eqb_spec OrderedSetClass.end_ a) as [E|_].
        { exfalso. apply (Hnz a); [|now symmetry].
          rewrite map_app. apply in_or_app. now left. }
        destruct (Nat.eqb_spec b a) as [E|_].
        { exfalso. apply Hbc. right. now subst. }
        now destruct (nth_error st a) as [[? ? ?]|].
      + rewrite nth_error_added. fold n.
        destruct (Nat.eqb_spec b n); [lia|]. rewrite Hb.
        destruct (Nat.eqb_spec OrderedSetClass.end_ b) as [E|_].
        { exfalso. apply Hbc. now left. }
        rewrite Nat.eqb_refl. reflexivity.
    - split; [|exact I]. rewrite nth_error_added. fold n.
      rewrite Nat.eqb_refl. cbn [option_map OrderedSetClass.key
                                   OrderedSetClass.prev OrderedSetClass.next].
      destruct (Nat.eqb_spec OrderedSetClass.end_ n) as [E|_];
        [now symmetry in E|].
      destruct (Nat.eqb_spec (last_addr cells OrderedSetClass.end_) n)
        as [E|_]; [|reflexivity].
      exfalso. destruct cells as [|c0 cells']; [now apply Hn0|].
      assert (Hin : In (last_addr (c0 :: cells') OrderedSetClass.end_)
                       (map fst (c0 :: cells')))
        by (apply last_addr_In; discriminate).
      apply Hfresh in Hin. lia. }
  assert (Hcf : contains Z.eqb (OrderedSetClass.map self) k = false).
  { exact Hc. }
  split.
  { rewrite (keys_setitem_fresh _ _ _ _ Hcf). apply NoDup_snoc; [exact Hk|].
    rewrite (contains_keys Z.eqb) in Hcf. now apply existsb_eqb_false. }
  intros k' a. rewrite in_app_iff. cbn [In].
  destruct (Z.eq_dec k' k) as [->|Hne].
  - rewrite (lookup_setitem_same _ z_eqb_eq). split.
    + intros [= <-]. right. now left.
    + intros [H|[[= <-]|[]]]; [|reflexivity].
      exfalso. apply Hkl. apply in_map_iff. now exists (a, k).
  - rewrite (lookup_setitem_other _ z_eqb_eq) by exact Hne.
    rewrite Hm. split; [now left|].
    intros [H|[[= _ E]|[]]]; [exact H | now symmetry in E].
Qed.

(** ** The class [OrderedSet]: [discard] *)

Lemma NoDup_app_apart {A : Type} (l1 l2 : list A) (x : A) :
  NoDup (l1 ++ l2) -> In x l1 -> In x l2 -> False.
Proof.
  induction l1 as [|a l1 IH]; intros Hnd H1 H2; [easy|].
  cbn in Hnd. inversion Hnd as [|? ? Ha Hl]; subst.
  destruct H1 as [->|H1].
  - apply Ha. apply in_or_app. now right.
  - now apply IH.
Qed.

Lemma filter_other_keys (k : Z) (l : list Z) :
  ~ In k l -> filter (fun y => negb (Z.eqb y k)) l = l.
Proof.
  induction l as [|x l IH]; intros H; cbn; [reflexivity|].
  destruct (Z.eqb_spec x k) as [->|Hne].
  - exfalso. apply H. now left.
  - cbn. rewrite IH; [reflexivity|]. intros Hin. apply H. now right.
Qed.

Lemma last_addr_In_cons (cells : cells_t) (before : nat) :
  In (last_addr cells before) (before :: map fst cells).
Proof.
  destruct cells as [|c cells]; [now left|].
  right. apply last_addr_In. discriminate.
Qed.

Lemma first_addr_In_cons (cells : cells_t) (after : nat) :
  In (first_addr cells after) (after :: map fst cells).
Proof.
  destruct cells as [|[a k] cells]; [now left|]. right. now left.
Qed.

(** The store after [discard] joined the neighbours [p] and [q] of a
    node. *)
Lemma nth_error_unlinked (st : list OrderedSetClass.node) (p q b : nat) :
  nth_error (OrderedSetClass.set_prev (OrderedSetClass.set_next st p q) q p) b
  = option_map
      (fun nd =>
         OrderedSetClass.mkNode (OrderedSetClass.key nd)
           (if Nat.eqb q b then p else OrderedSetClass.prev nd)
           (if Nat.eqb p b then q else OrderedSetClass.next nd))
      (nth_error st b).
Proof.
  unfold OrderedSetClass.set_prev, OrderedSetClass.set_next.
  rewrite !nth_error_update.
  destruct (Nat.eqb q b), (Nat.eqb p b), (nth_error st b) as [[key prev next]|];
    reflexivity.
Qed.

Lemma nth_error_unlinked_other (st : list OrderedSetClass.node) (p q b : nat) :
  b <> p -> b <> q ->
  nth_error (OrderedSetClass.set_prev (OrderedSetClass.set_next st p q) q p) b
  = nth_error st b.
Proof.
  intros Hp Hq. rewrite nth_error_unlinked.
  destruct (Nat.eqb_spec q b); [now subst|].
  destruct (Nat.eqb_spec p b); [now subst|].
  now destruct (nth_error st b) as [[key prev next]|].
Qed.

Lemma lookup_pop_item (d : odict Z nat) (k k' : Z) :
  lookup Z.eqb (OrderedSetClass.pop_item d k) k'
  = if Z.eqb k' k then None else lookup Z.eqb d k'.
Proof.
  unfold OrderedSetClass.pop_item.
  induction d as [|[k0 v0] d IH]; cbn [filter lookup fst].
  - now destruct (Z.eqb k' k).
  - destruct (Z.eqb_spec k0 k) as [->|Hne]; cbn [negb lookup].
    + rewrite IH. now destruct (Z.eqb k' k).
    + rewrite IH. destruct (Z.eqb k' k) eqn:Ek; [|reflexivity].
      apply Z.eqb_eq in Ek.
      destruct (Z.eqb_spec k' k0) as [Ek0|_]; [|reflexivity].
      exfalso. apply Hne. congruence.
Qed.

Lemma keys_pop_item (d : odict Z nat) (k : Z) :
  keys (OrderedSetClass.pop_item d k)
  = filter (fun y => negb (Z.eqb y k)) (keys d).
Proof.
  unfold OrderedSetClass.pop_item, keys.
  induction d as [|[k0 v0] d IH]; cbn [filter map fst]; [reflexivity|].
  destruct (negb (Z.eqb k0 k)); cbn [map fst]; now rewrite IH.
Qed.

Lemma discard_represents (self : OrderedSetClass.t) (l : list Z) (k : Z) :
  represents self l ->
  represents (OrderedSetClass.discard self k)
             (filter (fun y => negb (Z.eqb y k)) l).
Proof.
  intros (cells & <- & Hnd & Hndl & H0 & Hl & Hk & Hm).
  unfold OrderedSetClass.discard.
  destruct (lookup Z.eqb (OrderedSetClass.map self) k) as [a|] eqn:E.
  2: { rewrite filter_other_keys.
       - exists cells. repeat split; try assumption; now apply Hm.
       - intros Hin. apply in_map_iff in Hin.
         destruct Hin as ([a k'] & Hk' & Hin). cbn in Hk'. subst k'.
         apply Hm in Hin. congruence. }
  apply Hm in E. apply in_split in E. destruct E as (c1 & c2 & ->).
  apply linked_app in Hl. cbn [first_addr linked] in Hl.
  destruct Hl as (Hc1 & Ha & Hc2).
  rewrite (at_nth_error _ _ _ Ha).
  cbn [OrderedSetClass.prev OrderedSetClass.next
       OrderedSetClass.store OrderedSetClass.map].
  set (st := OrderedSetClass.store self) in *.
  set (p := last_addr c1 OrderedSetClass.end_) in *.
  set (q := first_addr c2 OrderedSetClass.end_) in *.
  rewrite map_app in Hnd, Hndl. cbn [map fst snd] in Hnd, Hndl.
  assert (Hnd' : NoDup ((OrderedSetClass.end_ :: map fst c1) ++ map fst c2)).
  { now apply (NoDup_remove_1 (OrderedSetClass.end_ :: map fst c1) _ a). }
  assert (Hndl' : NoDup (map snd c1 ++ map snd c2)).
  { now apply NoDup_remove_1 in Hndl. }
  assert (Hkl : ~ In k (map snd c1 ++ map snd c2)).
  { now apply NoDup_remove_2 in Hndl. }
  assert (Hp : In p (OrderedSetClass.end_ :: map fst c1))
    by apply last_addr_In_cons.
  assert (Hq : In q (OrderedSetClass.end_ :: map fst c2))
    by apply first_addr_In_cons.
  assert (H0c2 : ~ In OrderedSetClass.end_ (map fst c2)).
  { intros H. apply (NoDup_app_apart _ _ _ Hnd' (or_introl eq_refl) H). }
  assert (H0c1 : ~ In OrderedSetClass.end_ (map fst c1)).
  { cbn in Hnd'. inversion Hnd' as [|? ? Hx _]; subst.
    intros H. apply Hx. apply in_or_app. now left. }
  assert (Hpc2 : ~ In p (map fst c2)).
  { intros H. exact (NoDup_app_apart _ _ _ Hnd' Hp H). }
  assert (Hqc1 : ~ In q (map fst c1)).
  { intros H. destruct Hq as [Hq|Hq].
    - apply H0c1. now rewrite Hq.
    - apply (NoDup_app_apart _ _ _ Hnd' (or_intror H) Hq). }
  assert (Hnd1 : NoDup (map fst c1)).
  { cbn in Hnd'. inversion Hnd' as [|? ? _ Hx]; subst.
    now apply NoDup_app_remove_r in Hx. }
  assert (Hnd2 : NoDup (map fst c2)).
  { cbn in Hnd'. inversion Hnd' as [|? ? _ Hx]; subst.
    now apply NoDup_app_remove_l in Hx. }
  exists (c1 ++ c2)%list.
  cbn [OrderedSetClass.store OrderedSetClass.map]. fold st.
  split.
  { rewrite !map_app, filter_app. cbn [map snd filter].
    rewrite Z.eqb_refl. cbn [negb].
    rewrite !filter_other_keys; [reflexivity | |];
      intros H; apply Hkl; apply in_or_app; [now right | now left]. }
  split; [now rewrite map_app|].
  split; [apply NoDup_filter; now rewrite map_app|].
  split.
  { rewrite nth_error_unlinked, H0. cbn [option_map OrderedSetClass.key
                                          OrderedSetClass.prev OrderedSetClass.next].
    rewrite !last_addr_app, !first_addr_app. cbn [last_addr first_addr].
    fold p. fold q. f_equal. f_equal.
    - destruct c2 as [|[b kb] c2']; [reflexivity|].
      destruct (Nat.eqb_spec q OrderedSetClass.end_) as [Eq|_];
        [|reflexivity].
      exfalso. apply H0c2. rewrite <- Eq. now left.
    - destruct c1 as [|[b kb] c1']; [reflexivity|].
      destruct (Nat.eqb_spec p OrderedSetClass.end_) as [Ep|_];
        [|reflexivity].
      exfalso. apply H0c1. rewrite <- Ep.
      apply last_addr_In. discriminate. }
  split.
  { apply linked_app. fold p. fold q. split.
    - destruct (cells_snoc_cases c1) as [->|(c & b & kb & ->)]; [exact I|].
      apply linked_app in Hc1. cbn [first_addr linked] in Hc1.
      destruct Hc1 as (Hc & Hb & _).
      assert (Epb : p = b).
      { subst p. rewrite last_addr_app. reflexivity. }
      rewrite map_app in Hnd1, Hqc1. cbn [map fst] in Hnd1, Hqc1.
      apply linked_app. cbn [first_addr linked].
      split; [|split; [|exact I]].
      + apply (linked_frame st); [|exact Hc].
        intros x Hx. apply nth_error_unlinked_other.
        * rewrite Epb. intros ->.
          apply (NoDup_app_apart _ _ _ Hnd1 Hx). now left.
        * intros ->. apply Hqc1. apply in_or_app. now left.
      + rewrite nth_error_unlinked, Hb, Epb, Nat.eqb_refl.
        destruct (Nat.eqb_spec q b) as [Eq|_]; [|reflexivity].
        exfalso. apply Hqc1. rewrite Eq. apply in_or_app. right. now left.
    - destruct c2 as [|[b kb] r]; [exact I|].
      cbn [linked] in Hc2 |- *. destruct Hc2 as (Hb & Hr).
      assert (Eqb : q = b) by reflexivity.
      cbn [map fst] in Hnd2, Hpc2.
      split.
      + rewrite nth_error_unlinked, Hb, Eqb, Nat.eqb_refl.
        destruct (Nat.eqb_spec p b) as [Ep|_]; [|reflexivity].
        exfalso. apply Hpc2. now left.
      + apply (linked_frame st); [|exact Hr].
        intros x Hx. apply nth_error_unlinked_other.
        * intros ->. apply Hpc2. now right.
        * rewrite Eqb. intros ->. now inversion Hnd2. }
  split.
  { rewrite keys_pop_item. now apply NoDup_filter. }
  intros k' a'. rewrite lookup_pop_item.
  destruct (Z.eqb_spec k' k) as [->|Hne].
  - split; [discriminate|]. intros Hin. exfalso. apply Hkl.
    rewrite <- map_app. apply in_map_iff. now exists (a', k).
  - rewrite Hm, !in_app_iff. cbn [In]. split.
    + intros [H|[[= _ Ek]|H]]; [now left | now symmetry in Ek | now right].
    + intros [H|H]; [now left | right; now right].
Qed.

(** ** The class [OrderedSet]: [pop] and sequences of operations *)

Lemma pop_represents (self : OrderedSetClass.t) (l : list Z) (last : bool) :
  represents self l ->
  match l with
  | [] => OrderedSetClass.pop self last = (Raise KeyError, self)
  | _ :: _ =>
      fst (OrderedSetClass.pop self last)
      = Ok (Some (if last then List.last l 0 else hd 0 l))
      /\ represents (snd (OrderedSetClass.pop self last))
                    (if last then removelast l else tl l)
  end.
Proof.
  intros Hr. assert (Hlen := len_represents _ _ Hr).
  assert (Hd := fun k => discard_represents _ _ k Hr).
  unfold OrderedSetClass.pop. rewrite Hlen.
  destruct l as [|x l']; [reflexivity|].
  cbn [List.length Nat.eqb]. clear Hlen.
  remember (x :: l') as l eqn:El0.
  assert (Hne : l <> []) by (subst l; discriminate). clear El0 x l'.
  destruct Hr as (cells & El & Hnd & Hndl & H0 & Hl & Hk & Hm).
  rewrite (at_nth_error _ _ _ H0).
  cbn [OrderedSetClass.prev OrderedSetClass.next]. destruct last.
  - destruct (cells_snoc_cases cells) as [->|(c & b & kb & ->)].
    { cbn in El. now symmetry in El. }
    rewrite last_addr_app. cbn [last_addr].
    rewrite (linked_key _ _ _ _ b kb Hl)
      by (apply in_or_app; right; now left).
    cbn [fst snd]. specialize (Hd kb). subst l.
    rewrite map_app in Hd, Hndl |- *. cbn [map snd] in Hd, Hndl |- *.
    rewrite last_last, removelast_last. split; [reflexivity|].
    rewrite filter_app in Hd. cbn [filter] in Hd.
    rewrite Z.eqb_refl in Hd. cbn [negb] in Hd.
    rewrite app_nil_r, filter_other_keys in Hd; [exact Hd|].
    apply NoDup_remove_2 in Hndl. now rewrite app_nil_r in Hndl.
  - destruct cells as [|[a k] cells'].
    { cbn in El. now symmetry in El. }
    cbn [first_addr].
    rewrite (linked_key _ _ _ _ a k Hl) by now left.
    cbn [fst snd]. specialize (Hd k). subst l.
    cbn [map snd filter hd tl] in Hd, Hndl |- *. rewrite Z.eqb_refl in Hd.
    cbn [negb] in Hd. split; [reflexivity|].
    rewrite filter_other_keys in Hd; [exact Hd|]. now inversion Hndl.
Qed.

Lemma apply_op_represents (self : OrderedSetClass.t) (l : list Z) (o : set_op) :
  represents self l -> represents (apply_op self o) (list_op l o).
Proof.
  intros Hr. destruct o as [k|k|last]; cbn [apply_op list_op].
  - now apply add_represents.
  - now apply discard_represents.
  - assert (Hp := pop_represents _ _ last Hr).
    destruct l as [|x l].
    + rewrite Hp. cbn [snd]. now destruct last.
    + destruct Hp as [_ Hp]. now destruct last.
Qed.

Lemma run_represents (ops : list set_op) (self : OrderedSetClass.t)
      (l : list Z) :
  represents self l ->
  represents (fold_left apply_op ops self) (fold_left list_op ops l).
Proof.
  revert self l. induction ops as [|o ops IH]; intros self l Hr; [exact Hr|].
  cbn [fold_left]. apply IH. now apply apply_op_represents.
Qed.

Lemma fold_add_represents (xs : list Z) (self : OrderedSetClass.t)
      (l : OrderedSet.t) :
  represents self l ->
  represents (fold_left OrderedSetClass.add xs self)
             (OrderedSet.to_list (fold_left OrderedSet.add xs l)).
Proof.
  revert self l. induction xs as [|x xs IH]; intros self l Hr; [exact Hr|].
  cbn [fold_left]. apply IH. exact (add_represents _ _ x Hr).
Qed.

(** X14.  Whatever sequence of [add], [discard] and [pop] a new set goes
    through, the linked list and the map stay in step with the list of
    keys in insertion order: iterating gives the keys in that order,
    [reversed] gives them backwards, [len] is their number and [in] tells
    whether a key is among them; [add] of a present key moves nothing,
    [discard] takes the key out wherever it is, and [pop] takes the last
    key or, with [last=False], the first. *)
Theorem ordered_set_follows_its_operations (ops : list set_op) :
  let self := fold_left apply_op ops (OrderedSetClass.__init__ None) in
  let l := fold_left list_op ops [] in
  OrderedSetClass.__iter__ self = Some (map Some l)
  /\ OrderedSetClass.__reversed__ self = Some (map Some (rev l))
  /\ OrderedSetClass.__len__ self = List.length l
  /\ forall k, OrderedSetClass.__contains__ self k = existsb (Z.eqb k) l.
Proof.
  cbn zeta. assert (Hr := run_represents ops _ _ init_represents).
  destruct (iter_represents _ _ Hr) as [Hi Hv].
  split; [exact Hi|]. split; [exact Hv|].
  split; [now apply len_represents|].
  intros k. now apply contains_represents.
Qed.

(** X15.  [OrderedSet(iterable)] holds the values of the iterable once each,
    in the order of their first occurrence: this is what iterating it
    gives, and it is the sequence that adding the values one by one to the
    list of keys produces. *)
Theorem ordered_set_of_iterable (values : list Z) :
  OrderedSetClass.__iter__ (OrderedSetClass.__init__ (Some values))
  = Some (map Some (first_seen Z.eqb values))
  /\ OrderedSet.to_list (fold_left OrderedSet.add values OrderedSet.empty)
     = first_seen Z.eqb values
  /\ OrderedSetClass.__len__ (OrderedSetClass.__init__ (Some values))
     = List.length (first_seen Z.eqb values).
Proof.
  assert (Hr := fold_add_represents values _ _ init_represents).
  assert (E : OrderedSet.to_list (fold_left OrderedSet.add values [])
              = first_seen Z.eqb values).
  { unfold OrderedSet.to_list. rewrite fold_add_first_seen. cbn [app].
    now apply filter_all. }
  rewrite E in Hr.
  change (represents (OrderedSetClass.__init__ (Some values))
                     (first_seen Z.eqb values)) in Hr.
  split; [now apply iter_represents|].
  split; [exact E|]. now apply len_represents.
Qed.

(** X16.  On a set that a sequence of operations has left empty, [pop]
    raises [KeyError] and changes nothing; otherwise [pop()] returns the
    key added last among those present, [pop(last=False)] the one added
    first, and the key returned is no longer in the set while the others
    keep their order. *)
Theorem pop_returns_an_end_key (ops : list set_op) (last : bool) :
  let self := fold_left apply_op ops (OrderedSetClass.__init__ None) in
  let l := fold_left list_op ops [] in
  match l with
  | [] => OrderedSetClass.pop self last = (Raise KeyError, self)
  | _ :: _ =>
      fst (OrderedSetClass.pop self last)
      = Ok (Some (if last then List.last l 0 else hd 0 l))
      /\ OrderedSetClass.__iter__ (snd (OrderedSetClass.pop self last))
         = Some (map Some (if last then removelast l else tl l))
  end.
Proof.
  cbn zeta. assert (Hr := run_represents ops _ _ init_represents).
  assert (Hp := pop_represents _ _ last Hr).
  destruct (fold_left list_op ops []) as [|x l]; [exact Hp|].
  destruct Hp as [Hk Hs]. split; [exact Hk|].
  now apply iter_represents.
Qed.

(** ** The class [OrderedSet]: [__eq__] *)

Lemma key_eqb_eq (a b : option Z) :
  OrderedSetClass.key_eqb a b = true <-> a = b.
Proof.
  destruct a as [x|], b as [y|]; cbn; try easy.
  rewrite Z.eqb_eq. split; congruence.
Qed.

Lemma list_eqb_eq (a b : list (option Z)) :
  OrderedSetClass.list_eqb a b = true <-> a = b.
Proof.
  revert b. induction a as [|x a IH]; intros [|y b]; cbn; try easy.
  rewrite andb_true_iff, key_eqb_eq, IH. split.
  - now intros [-> ->].
  - now intros [= -> ->].
Qed.

Lemma map_Some_eq (l1 l2 : list Z) : map Some l1 = map Some l2 <-> l1 = l2.
Proof.
  split; [|now intros ->].
  revert l2. induction l1 as [|x l1 IH]; intros [|y l2]; cbn; try easy.
  intros [= -> H]. f_equal. now apply IH.
Qed.

Lemma set_eqb_keys (l1 l2 : list Z) :
  OrderedSetClass.set_eqb (map Some l1) (map Some l2) = true
  <-> forall k, In k l1 <-> In k l2.
Proof.
  assert (Hsub : forall a b : list Z,
             forallb (fun x => existsb (OrderedSetClass.key_eqb x) (map Some b))
                     (map Some a) = true
             <-> forall k, In k a -> In k b).
  { intros a b. rewrite forallb_forall. split.
    - intros H k Hk. specialize (H (Some k) (in_map Some _ _ Hk)).
      apply existsb_exists in H. destruct H as (y & Hy & E).
      apply key_eqb_eq in E. subst y. apply in_map_iff in Hy.
      destruct Hy as (k' & [= ->] & Hy). exact Hy.
    - intros H x Hx. apply in_map_iff in Hx. destruct Hx as (k & <- & Hk).
      apply existsb_exists. exists (Some k).
      split; [apply in_map; now apply H | now apply key_eqb_eq]. }
  unfold OrderedSetClass.set_eqb. rewrite andb_true_iff, !Hsub. split.
  - intros [H1 H2] k. split; [apply H1 | apply H2].
  - intros H. split; intros k; apply H.
Qed.

(** X17.  Two sets that sequences of operations have produced are equal
    as [OrderedSet]s exactly when they hold the same keys in the same
    order, while a set equals another iterable exactly when both have the
    same values, in whatever order and however often repeated. *)
Theorem eq_follows_order_between_ordered_sets
        (ops ops' : list set_op) (values : list Z) :
  let self := fold_left apply_op ops (OrderedSetClass.__init__ None) in
  let other := fold_left apply_op ops' (OrderedSetClass.__init__ None) in
  let l := fold_left list_op ops [] in
  let l' := fold_left list_op ops' [] in
  (exists b,
      OrderedSetClass.__eq__ self (OrderedSetClass.AnOrderedSet other) = Some b
      /\ (b = true <-> l = l'))
  /\ (exists b,
        OrderedSetClass.__eq__ self (OrderedSetClass.AnIterable values) = Some b
        /\ (b = true <-> forall k, In k l <-> In k values)).
Proof.
  cbn zeta.
  assert (Hr := run_represents ops _ _ init_represents).
  assert (Hr' := run_represents ops' _ _ init_represents).
  destruct (iter_represents _ _ Hr) as [Hi _].
  destruct (iter_represents _ _ Hr') as [Hi' _].
  unfold OrderedSetClass.__eq__.
  rewrite (len_represents _ _ Hr), (len_represents _ _ Hr'), Hi, Hi'.
  split.
  - destruct (Nat.eqb_spec (List.length (fold_left list_op ops []))
                           (List.length (fold_left list_op ops' [])))
      as [_|Hne].
    + eexists. split; [reflexivity|].
      now rewrite list_eqb_eq, map_Some_eq.
    + exists false. split; [reflexivity|]. split; [discriminate|].
      intros E. exfalso. apply Hne. now rewrite E.
  - eexists. split; [reflexivity|]. apply set_eqb_keys.
Qed.
